(** * advanced-vector: RawMemory<T> and Vector<T>

    A shallow embedding of [advanced-vector/vector.h].

    The program manages object lifetimes by hand: [RawMemory] owns a block of
    uninitialised storage, [Vector] constructs and destroys elements inside
    it.  The embedding therefore keeps an explicit heap of blocks whose slots
    are either raw storage or a live object, an explicit store of [Vector]
    objects (keyed by their address, so that [this != &rhs] can be decided),
    and a state-and-exception monad in which every member function runs.

    Three outcomes are distinguished: normal return, an exception propagating
    out of the call, and a fault (a failed [assert] or undefined behaviour:
    access outside a block, use of an object that is not alive, double
    free).

    Scope of the model.  The only operation of the element type that can
    throw is its construction from arguments ([T(args...)], which covers the
    copy or move made by [PushBack] and [Insert]); copies and moves made while
    relocating, assignments and value-initialisation return normally.
    Integers of type [size_t] are integers modulo 2^64.

    Allocation.  [sizeof(T)] and the outcome of [operator new] come from
    the environment and are parameters of the model (class [Platform]):
    [Allocate(n)] multiplies [n] by [sizeof(T)] in [size_t], so the product
    can wrap, and [operator new] either throws [std::bad_alloc] or hands
    out a block that is not in use.  The sections that take a platform
    into their context state what holds on every platform; where the
    number of slots asked for is an argument of the call ([Reserve],
    [Vector(size)], [Resize]) the conditions on the request are
    hypotheses.  The sections in which an append, an emplacement or a copy
    has to obtain a block for a number of slots taken from the vector
    itself take none: their statements are about the platform
    [unbounded], on which no request wraps or is refused, as are the runs
    from the sample states. *)

From Stdlib Require Import ZArith Lia.
From stdpp Require Import base option list gmap.

Local Open Scope Z_scope.

(** ** The element type

    Everything the container asks of [T].  [construct] is [T(args...)] and
    yields [None] when the constructor throws.  A copy of a value is the value
    itself; a move hands the value over and leaves [moved_from x] in the
    source.  The two booleans are the type traits tested by [if constexpr]. *)

Class Element (T Args : Type) := {
  construct : Args -> option T;
  value_init : T;
  moved_from : T -> T;
  is_nothrow_move_constructible : bool;
  is_copy_constructible : bool
}.

(** ** Machine integers and pointers *)

(** [size_t] arithmetic is modulo 2^64. *)
Definition size_t (z : Z) : Z := z mod 2 ^ 64.

(** A [T*]: the block pointed into ([None] for a pointer derived from
    [nullptr]) and the offset in elements.  Pointer arithmetic is unchecked;
    a pointer outside its block faults when it is used. *)
Record ptr := Ptr { blk : option nat; off : Z }.

Definition nullptr : ptr := Ptr None 0.

Definition ptr_add (p : ptr) (n : Z) : ptr := Ptr (blk p) (off p + n).

Infix "+p" := ptr_add (at level 50, left associativity).

Definition ptr_eqb (p q : ptr) : bool :=
  bool_decide (blk p = blk q) && (off p =? off q).

(** ** Memory *)

Inductive slot (T : Type) := Raw | Live (x : T).
Arguments Raw {T}.
Arguments Live {T} x.

Record RawMemory := MkRawMemory { buffer_ : ptr; capacity_ : Z }.

Record Vector := MkVector { data_ : RawMemory; size_ : Z }.

Record state (T : Type) := MkState {
  objs : gmap nat Vector;
  heap : gmap nat (list (slot T))
}.
Arguments MkState {T} objs heap.
Arguments objs {T} s.
Arguments heap {T} s.

Definition set_heap {T} (h : gmap nat (list (slot T))) (s : state T) : state T :=
  MkState (objs s) h.

Definition set_objs {T} (o : gmap nat Vector) (s : state T) : state T :=
  MkState o (heap s).

(** ** The monad *)

Inductive result (T A : Type) :=
| Ok (a : A) (s : state T)
| Throw (s : state T)
| Fault.
Arguments Ok {T A} a s.
Arguments Throw {T A} s.
Arguments Fault {T A}.

Definition M (T A : Type) : Type := state T -> result T A.

Definition ret {T A} (a : A) : M T A := fun s => Ok a s.

Definition bind {T A B} (m : M T A) (k : A -> M T B) : M T B :=
  fun s => match m s with
           | Ok a s' => k a s'
           | Throw s' => Throw s'
           | Fault => Fault
           end.

Definition throw {T A} : M T A := fun s => Throw s.

Definition fault {T A} : M T A := fun _ => Fault.

(** [on_throw m cleanup]: the destructors [cleanup] of the locals in scope
    run while an exception leaves [m]. *)
Definition on_throw {T A} (m : M T A) (cleanup : M T unit) : M T A :=
  fun s => match m s with
           | Throw s' => match cleanup s' with
                         | Ok _ s'' => Throw s''
                         | Throw s'' => Throw s''
                         | Fault => Fault
                         end
           | r => r
           end.

Definition assert {T} (b : bool) : M T unit := if b then ret tt else fault.

Notation "'let*' x := m 'in' k" := (bind m (fun x => k))
  (at level 10, x name, m at level 100, k at level 200).
Notation "m ;; k" := (bind m (fun _ => k))
  (at level 100, k at level 200, right associativity).

(** ** The platform

    What the program takes from its environment when it allocates:
    [sizeof(T)], and whether [operator new(bytes)], called in state [s],
    throws [std::bad_alloc] instead of returning a block. *)

Class Platform (T : Type) := {
  sizeof_T : Z;
  sizeof_pos : 0 < sizeof_T;
  bad_alloc : state T -> Z -> bool
}.

(** The platform that never stands in the way: an object takes one byte,
    so that no count of elements below 2^64 wraps when it is turned into a
    count of bytes, and [operator new] finds memory for every request. *)
#[global] Instance unbounded {T : Type} : Platform T :=
  {| sizeof_T := 1; sizeof_pos := eq_refl; bad_alloc := fun _ _ => false |}.

(** ** Objects in storage *)

Section Objects.
Context {T : Type}.

(** The slot a pointer designates, when it lies inside a live block. *)
Definition slot_at (h : gmap nat (list (slot T))) (p : ptr) : option (slot T) :=
  match blk p with
  | Some b =>
      if 0 <=? off p then
        match h !! b with
        | Some l => l !! Z.to_nat (off p)
        | None => None
        end
      else None
  | None => None
  end.

Definition write_slot (p : ptr) (v : slot T) (s : state T) : state T :=
  match blk p with
  | Some b => set_heap (alter (fun l => <[Z.to_nat (off p) := v]> l) b (heap s)) s
  | None => s
  end.

(** Reading [*p]: the object must be alive. *)
Definition load (p : ptr) : M T T :=
  fun s => match slot_at (heap s) p with
           | Some (Live x) => Ok x s
           | _ => Fault
           end.

(** [new (p) T(x)]: [p] must point into storage; whatever the slot held is
    overwritten without being destroyed. *)
Definition construct_at (p : ptr) (x : T) : M T unit :=
  fun s => match slot_at (heap s) p with
           | Some _ => Ok tt (write_slot p (Live x) s)
           | None => Fault
           end.

(** [*p = x]: assignment needs a live object on the left. *)
Definition assign (p : ptr) (x : T) : M T unit :=
  fun s => match slot_at (heap s) p with
           | Some (Live _) => Ok tt (write_slot p (Live x) s)
           | _ => Fault
           end.

(** [std::destroy_at(p)]: ends the lifetime of a live object. *)
Definition destroy_at (p : ptr) : M T unit :=
  fun s => match slot_at (heap s) p with
           | Some (Live _) => Ok tt (write_slot p Raw s)
           | _ => Fault
           end.

(** [p - q] for two pointers into the same array. *)
Definition ptr_diff (p q : ptr) : M T Z :=
  if bool_decide (blk p = blk q) then ret (off p - off q) else fault.
End Objects.

(** ** The standard algorithms the container calls *)

Module std.
Section Algorithms.
Context {T Args : Type} {E : Element T Args}.

(** Not a library function: what a move constructor or a move assignment
    does to its argument [std::move] of the object at [p].  The value is
    taken and the source keeps a moved-from object. *)
Definition take (p : ptr) : M T T :=
  let* x := load p in
  assign p (moved_from x);;
  ret x.

Fixpoint destroy_loop (first : ptr) (n : nat) : M T unit :=
  match n with
  | O => ret tt
  | S n' => destroy_at first;; destroy_loop (first +p 1) n'
  end.

Definition destroy_n (first : ptr) (n : Z) : M T unit :=
  destroy_loop first (Z.to_nat n).

Fixpoint value_construct_loop (first : ptr) (n : nat) : M T unit :=
  match n with
  | O => ret tt
  | S n' => construct_at first value_init;; value_construct_loop (first +p 1) n'
  end.

Definition uninitialized_value_construct_n (first : ptr) (n : Z) : M T unit :=
  value_construct_loop first (Z.to_nat n).

Fixpoint copy_loop (first : ptr) (n : nat) (d_first : ptr) : M T unit :=
  match n with
  | O => ret tt
  | S n' =>
      let* x := load first in
      construct_at d_first x;;
      copy_loop (first +p 1) n' (d_first +p 1)
  end.

Definition uninitialized_copy_n (first : ptr) (n : Z) (d_first : ptr) : M T unit :=
  copy_loop first (Z.to_nat n) d_first.

Fixpoint move_loop (first : ptr) (n : nat) (d_first : ptr) : M T unit :=
  match n with
  | O => ret tt
  | S n' =>
      let* x := take first in
      construct_at d_first x;;
      move_loop (first +p 1) n' (d_first +p 1)
  end.

Definition uninitialized_move_n (first : ptr) (n : Z) (d_first : ptr) : M T unit :=
  move_loop first (Z.to_nat n) d_first.

(** [std::move(first, last, d_first)]: move-assigns the object at [first]
    to the one at [d_first] and advances both, until [first == last]. *)
Fixpoint move_range_loop (first : ptr) (n : nat) (d_first : ptr) : M T unit :=
  match n with
  | O => ret tt
  | S n' =>
      let* x := take first in
      assign d_first x;;
      move_range_loop (first +p 1) n' (d_first +p 1)
  end.

Definition move (first last d_first : ptr) : M T unit :=
  let* n := ptr_diff last first in
  assert (0 <=? n);;
  move_range_loop first (Z.to_nat n) d_first.

(** [std::move_backward(first, last, d_last)]: steps [last] and [d_last]
    back and move-assigns the object at [last] to the one at [d_last],
    until [first == last]. *)
Fixpoint move_backward_loop (last : ptr) (n : nat) (d_last : ptr) : M T unit :=
  match n with
  | O => ret tt
  | S n' =>
      let* x := take (last +p -1) in
      assign (d_last +p -1) x;;
      move_backward_loop (last +p -1) n' (d_last +p -1)
  end.

Definition move_backward (first last d_last : ptr) : M T unit :=
  let* n := ptr_diff last first in
  assert (0 <=? n);;
  move_backward_loop last (Z.to_nat n) d_last.
End Algorithms.
End std.

(** ** RawMemory<T> *)

Module RawMemory.
Section Methods.
Context {T : Type} {P : Platform T}.

(** [operator new(bytes)]: throws [std::bad_alloc], or returns a block that
    is not in use, of raw storage for as many objects as [bytes] bytes
    hold (none for a request of 0 bytes, which still yields a block). *)
Definition operator_new (bytes : Z) : M T ptr :=
  fun s =>
    if bad_alloc s bytes then Throw s
    else
      let b := fresh (dom (heap s)) in
      Ok (Ptr (Some b) 0)
         (set_heap (<[b := replicate (Z.to_nat (bytes / sizeof_T)) Raw]> (heap s)) s).

(** [Allocate(n)]: [nullptr] for [n == 0], else
    [operator new(n * sizeof(T))], the product being computed in
    [size_t]. *)
Definition Allocate (n : Z) : M T ptr :=
  if n =? 0 then ret nullptr
  else operator_new (size_t (n * sizeof_T)).

(** [Deallocate(buf)]: [operator delete]; deleting [nullptr] does nothing,
    deleting anything but the start of a block still allocated faults. *)
Definition Deallocate (buf : ptr) : M T unit :=
  match blk buf with
  | None => assert (off buf =? 0)
  | Some b => fun s =>
      match heap s !! b with
      | Some _ => if off buf =? 0 then Ok tt (set_heap (delete b (heap s)) s) else Fault
      | None => Fault
      end
  end.

(** [RawMemory() = default] *)
Definition ctor_default : RawMemory := MkRawMemory nullptr 0.

(** [explicit RawMemory(size_t capacity)] *)
Definition ctor (capacity : Z) : M T RawMemory :=
  let* buf := Allocate capacity in
  ret (MkRawMemory buf capacity).

(** [RawMemory(RawMemory&& other)]: returns the new object and [other] as
    the constructor leaves it.  [std::move] of a pointer or of a [size_t]
    is a cast; initialising from it copies and does not change [other]. *)
Definition ctor_move (other : RawMemory) : RawMemory * RawMemory :=
  let buffer := buffer_ other in
  let capacity := capacity_ other in
  (MkRawMemory buffer capacity, other).

(** [~RawMemory()] *)
Definition dtor (this : RawMemory) : M T unit := Deallocate (buffer_ this).

(** [operator+(size_t offset)] *)
Definition op_plus (this : RawMemory) (offset : Z) : M T ptr :=
  assert (offset <=? capacity_ this);;
  ret (buffer_ this +p offset).

(** [operator[](size_t index)]: the address of the slot referred to. *)
Definition op_index (this : RawMemory) (index : Z) : M T ptr :=
  assert (index <? capacity_ this);;
  ret (buffer_ this +p index).

(** [operator=(RawMemory&& rhs)]: returns [*this] and [rhs] afterwards. *)
Definition op_assign_move (this rhs : RawMemory) : RawMemory * RawMemory :=
  let buffer := buffer_ rhs in
  let capacity := capacity_ rhs in
  (MkRawMemory buffer capacity, rhs).

(** [Swap(RawMemory& other)]: returns [*this] and [other] afterwards. *)
Definition Swap (this other : RawMemory) : RawMemory * RawMemory :=
  (MkRawMemory (buffer_ other) (capacity_ other),
   MkRawMemory (buffer_ this) (capacity_ this)).

Definition GetAddress (this : RawMemory) : ptr := buffer_ this.

Definition Capacity (this : RawMemory) : Z := capacity_ this.
End Methods.
End RawMemory.

(** ** Vector<T> *)

Module Vector.
Section Methods.
Context {T Args : Type} {E : Element T Args} {P : Platform T}.

(** Access to the object at address [this]. *)
Definition get (this : nat) : M T Vector :=
  fun s => match objs s !! this with
           | Some v => Ok v s
           | None => Fault
           end.

Definition set_data (this : nat) (d : RawMemory) : M T unit :=
  let* v := get this in
  fun s => Ok tt (set_objs (<[this := MkVector d (size_ v)]> (objs s)) s).

Definition set_size (this : nat) (n : Z) : M T unit :=
  let* v := get this in
  fun s => Ok tt (set_objs (<[this := MkVector (data_ v) n]> (objs s)) s).

(** Storage for a local or temporary [Vector], and its release. *)
Definition alloca : M T nat := fun s => Ok (fresh (dom (objs s))) s.

Definition release (this : nat) : M T unit :=
  fun s => Ok tt (set_objs (delete this (objs s)) s).

(** [T(std::forward<Args>(args)...)] *)
Definition make (args : Args) : M T T :=
  match construct args with
  | Some x => ret x
  | None => throw
  end.

(** [new (p) T(std::forward<Args>(args)...)] *)
Definition placement_new (p : ptr) (args : Args) : M T unit :=
  let* x := make args in
  construct_at p x.

(** The relocation both [Reserve] and the growing emplacements perform:
    [uninitialized_move_n] when
    [is_nothrow_move_constructible_v<T> || !is_copy_constructible_v<T>],
    [uninitialized_copy_n] otherwise. *)
Definition relocate_n (first : ptr) (n : Z) (d_first : ptr) : M T unit :=
  if is_nothrow_move_constructible || negb is_copy_constructible
  then std.uninitialized_move_n first n d_first
  else std.uninitialized_copy_n first n d_first.

(** [Vector() = default], constructed at address [this]. *)
Definition ctor_default (this : nat) : M T unit :=
  fun s => Ok tt (set_objs (<[this := MkVector RawMemory.ctor_default 0]> (objs s)) s).

(** [explicit Vector(size_t size)] *)
Definition ctor_size (this : nat) (size : Z) : M T unit :=
  let* data := RawMemory.ctor size in
  (fun s => Ok tt (set_objs (<[this := MkVector data size]> (objs s)) s));;
  std.uninitialized_value_construct_n (RawMemory.GetAddress data) size.

(** [Vector(const Vector& other)] *)
Definition ctor_copy (this other : nat) : M T unit :=
  let* o := get other in
  let* data := RawMemory.ctor (size_ o) in
  (fun s => Ok tt (set_objs (<[this := MkVector data (size_ o)]> (objs s)) s));;
  std.uninitialized_copy_n (RawMemory.GetAddress (data_ o)) (size_ o)
                           (RawMemory.GetAddress data).

(** [Vector(Vector&& other)] *)
Definition ctor_move (this other : nat) : M T unit :=
  let* o := get other in
  (fun s => Ok tt (set_objs (<[this := MkVector RawMemory.ctor_default (size_ o)]> (objs s)) s));;
  let* v := get this in
  let* o := get other in
  let '(d, od) := RawMemory.Swap (data_ v) (data_ o) in
  set_data this d;;
  set_data other od;;
  set_size other 0.

(** [~Vector()] *)
Definition dtor (this : nat) : M T unit :=
  let* v := get this in
  std.destroy_n (RawMemory.GetAddress (data_ v)) (size_ v);;
  RawMemory.dtor (data_ v);;
  release this.

(** [operator[](size_t index)]: the address of the element referred to. *)
Definition op_index (this : nat) (index : Z) : M T ptr :=
  let* v := get this in
  assert (index <? size_ v);;
  ret (RawMemory.GetAddress (data_ v) +p index).

Definition begin (this : nat) : M T ptr :=
  let* v := get this in
  ret (RawMemory.GetAddress (data_ v)).

Definition end_ (this : nat) : M T ptr :=
  let* v := get this in
  RawMemory.op_plus (data_ v) (size_ v).

Definition cbegin (this : nat) : M T ptr := begin this.

Definition cend (this : nat) : M T ptr := end_ this.

Definition Size (this : nat) : M T Z :=
  let* v := get this in
  ret (size_ v).

Definition Capacity (this : nat) : M T Z :=
  let* v := get this in
  ret (RawMemory.Capacity (data_ v)).

Definition Reserve (this : nat) (new_capacity : Z) : M T unit :=
  let* capacity := Capacity this in
  if new_capacity <=? capacity then ret tt
  else
    let* new_data := RawMemory.ctor new_capacity in
    let* v := get this in
    let* b := begin this in
    relocate_n b (size_ v) (RawMemory.GetAddress new_data);;
    let* b := begin this in
    std.destroy_n b (size_ v);;
    let '(d, new_data) := RawMemory.Swap (data_ v) new_data in
    set_data this d;;
    RawMemory.dtor new_data.

Definition Swap (this other : nat) : M T unit :=
  let* v := get this in
  let* o := get other in
  let '(d, od) := RawMemory.Swap (data_ v) (data_ o) in
  set_data this d;;
  set_data other od;;
  let* o := get other in
  let size_b := size_ o in
  let* v := get this in
  set_size other (size_ v);;
  set_size this size_b.

Definition Resize (this : nat) (new_size : Z) : M T unit :=
  let* v := get this in
  (if new_size <? size_ v then
     std.destroy_n (RawMemory.GetAddress (data_ v) +p new_size +p -1)
                   (size_t (size_ v - new_size))
   else
     Reserve this new_size;;
     let* v := get this in
     std.uninitialized_value_construct_n
       (RawMemory.GetAddress (data_ v) +p size_ v)
       (size_t (new_size - size_ v)));;
  set_size this new_size.

Definition PopBack (this : nat) : M T unit :=
  let* e := end_ this in
  destroy_at (e +p -1);;
  let* v := get this in
  set_size this (size_t (size_ v - 1)).

(** Returns the address of the new element. *)
Definition EmplaceBack (this : nat) (args : Args) : M T ptr :=
  let* v := get this in
  let* capacity := Capacity this in
  (if size_ v =? capacity then
     let* new_data := RawMemory.ctor (if size_ v =? 0 then 1 else size_t (size_ v * 2)) in
     on_throw
       (let* p := RawMemory.op_index new_data (size_ v) in
        placement_new p args)
       (RawMemory.dtor new_data);;
     let* b := begin this in
     relocate_n b (size_ v) (RawMemory.GetAddress new_data);;
     let* b := begin this in
     std.destroy_n b (size_ v);;
     let '(d, new_data) := RawMemory.Swap (data_ v) new_data in
     set_data this d;;
     RawMemory.dtor new_data
   else
     let* p := RawMemory.op_index (data_ v) (size_ v) in
     placement_new p args);;
  let* v := get this in
  set_size this (size_t (size_ v + 1));;
  let* v := get this in
  RawMemory.op_index (data_ v) (size_t (size_ v - 1)).

Definition PushBack (this : nat) (value : Args) : M T unit :=
  EmplaceBack this value;;
  ret tt.

Definition Emplace (this : nat) (pos : ptr) (args : Args) : M T ptr :=
  let* cb := cbegin this in
  let* distance := ptr_diff pos cb in
  let* ce := cend this in
  if ptr_eqb pos ce then
    EmplaceBack this args;;
    let* e := end_ this in
    ret (e +p -1)
  else
    let* v := get this in
    let* capacity := Capacity this in
    if size_ v =? capacity then
      let* new_data := RawMemory.ctor (if size_ v =? 0 then 1 else size_t (size_ v * 2)) in
      let* position :=
        on_throw
          (let* p := RawMemory.op_index new_data (size_t distance) in
           placement_new p args;;
           ret p)
          (RawMemory.dtor new_data) in
      let* b := begin this in
      relocate_n b distance (RawMemory.GetAddress new_data);;
      let* b := begin this in
      let* q := RawMemory.op_plus new_data (size_t distance) in
      relocate_n (b +p distance) (size_t (size_ v - size_t distance)) (q +p 1);;
      std.destroy_n (RawMemory.GetAddress (data_ v)) (size_ v);;
      let '(d, new_data) := RawMemory.Swap (data_ v) new_data in
      set_data this d;;
      set_size this (size_t (size_ v + 1));;
      RawMemory.dtor new_data;;
      ret position
    else
      let* b := begin this in
      let position := b +p distance in
      let* new_elem := make args in
      let* p := RawMemory.op_index (data_ v) (size_ v) in
      let* e := end_ this in
      let* x := std.take (e +p -1) in
      construct_at p x;;
      let* e := end_ this in
      std.move_backward position (e +p -1) e;;
      let* p := RawMemory.op_index (data_ v) (size_t distance) in
      assign p new_elem;;
      set_size this (size_t (size_ v + 1));;
      ret position.

Definition Erase (this : nat) (pos : ptr) : M T ptr :=
  let* cb := cbegin this in
  let* distance := ptr_diff pos cb in
  let* b := begin this in
  let position := b +p distance in
  let* e := end_ this in
  std.move (position +p 1) e position;;
  let* e := end_ this in
  std.destroy_n (e +p -1) 1;;
  let* v := get this in
  set_size this (size_t (size_ v - 1));;
  ret position.

Definition Insert (this : nat) (pos : ptr) (value : Args) : M T ptr :=
  Emplace this pos value.

(** The loops [for (size_t i = 0; i != n; ++i) data_.GetAddress()[i] = rhs[i]]
    of the copy assignment. *)
Fixpoint assign_loop (this rhs : nat) (i : Z) (n : nat) : M T unit :=
  match n with
  | O => ret tt
  | S n' =>
      let* src := op_index rhs i in
      let* x := load src in
      let* v := get this in
      assign (RawMemory.GetAddress (data_ v) +p i) x;;
      assign_loop this rhs (size_t (i + 1)) n'
  end.

(** [operator=(const Vector& rhs)] *)
Definition op_assign (this rhs : nat) : M T unit :=
  if bool_decide (this <> rhs) then
    let* r := get rhs in
    let* capacity := Capacity this in
    if capacity <? size_ r then
      let* rhs_copy := alloca in
      ctor_copy rhs_copy rhs;;
      Swap this rhs_copy;;
      dtor rhs_copy
    else
      let* v := get this in
      if size_ r <? size_ v then
        assign_loop this rhs 0 (Z.to_nat (size_ r));;
        std.destroy_n (RawMemory.GetAddress (data_ v) +p size_ r +p -1)
                      (size_t (size_ v - size_ r));;
        set_size this (size_ r)
      else
        assign_loop this rhs 0 (Z.to_nat (size_ v));;
        std.uninitialized_copy_n (RawMemory.GetAddress (data_ r) +p size_ v)
                                 (size_t (size_ r - size_ v))
                                 (RawMemory.GetAddress (data_ v) +p size_ v);;
        set_size this (size_ r)
  else ret tt.

(** [operator=(Vector&& rhs)] *)
Definition op_assign_move (this rhs : nat) : M T unit :=
  Swap this rhs.
End Methods.
End Vector.

(** ** Observing a vector *)

Section Observations.
Context {T : Type}.

(** The block a [RawMemory] owns: nothing for a null buffer of capacity 0,
    else a block of exactly [capacity_] slots starting at [buffer_]. *)
Definition storage (s : state T) (d : RawMemory) : option (list (slot T)) :=
  if off (buffer_ d) =? 0 then
    match blk (buffer_ d) with
    | None => if capacity_ d =? 0 then Some [] else None
    | Some b =>
        match heap s !! b with
        | Some l => if Z.of_nat (length l) =? capacity_ d then Some l else None
        | None => None
        end
    end
  else None.

Definition is_raw (x : slot T) : bool :=
  match x with Raw => true | Live _ => false end.

(** The values of the first [n] slots when these are live and every slot
    after them is raw. *)
Fixpoint live_prefix (l : list (slot T)) (n : nat) : option (list T) :=
  match n, l with
  | O, _ => if forallb is_raw l then Some [] else None
  | S n', Live x :: l' =>
      match live_prefix l' n' with
      | Some xs => Some (x :: xs)
      | None => None
      end
  | S _, _ => None
  end.

(** The sequence of elements of the vector at [this], provided the object
    satisfies the class invariant: [size_] and [capacity_] are [size_t]
    values, the buffer is a block of [capacity_] slots, the slots
    [[0, size_)] hold live objects and the slots [[size_, capacity_)] are
    raw. *)
Definition contents (s : state T) (this : nat) : option (list T) :=
  match objs s !! this with
  | Some v =>
      match storage s (data_ v) with
      | Some l =>
          if (0 <=? size_ v) && (capacity_ (data_ v) <? 2 ^ 64)
          then live_prefix l (Z.to_nat (size_ v))
          else None
      | None => None
      end
  | None => None
  end.

(** [v[i]] read as a value. *)
Definition at_index (this : nat) (i : Z) : M T T :=
  let* v := Vector.get this in
  assert (i <? size_ v);;
  load (RawMemory.GetAddress (data_ v) +p i).

Definition capacity_of (s : state T) (this : nat) : option Z :=
  match objs s !! this with
  | Some v => Some (capacity_ (data_ v))
  | None => None
  end.

(** [m] never changes the capacity of any vector. *)
Definition keeps_capacity {A} (m : M T A) : Prop :=
  forall s r s', m s = Ok r s' -> forall this, capacity_of s' this = capacity_of s this.

(** The capacity an append allocates when it finds [n == Capacity()]
    slots in use: [n == 0 ? 1 : n * 2]. *)
Definition grown (n : Z) : Z := if n =? 0 then 1 else size_t (n * 2).

(** The class invariant spelled out: the vector at [this] holds the elements
    [xs] and has [k] spare slots. *)
Definition holds (s : state T) (this : nat) (xs : list T) (k : nat) : Prop :=
  exists v,
    objs s !! this = Some v /\
    size_ v = Z.of_nat (length xs) /\
    capacity_ (data_ v) < 2 ^ 64 /\
    storage s (data_ v) = Some ((Live <$> xs) ++ replicate k Raw).
End Observations.

(** ** Runs of operations *)

Section Runs.
Context {T Args : Type} {E : Element T Args} {P : Platform T}.

(** A sequence of appends, one [PushBack] per value. *)
Fixpoint push_all (this : nat) (values : list Args) : M T unit :=
  match values with
  | [] => ret tt
  | value :: rest => Vector.PushBack this value;; push_all this rest
  end.
End Runs.

(** ** Sharing, destruction and frames *)

Section Sharing.
Context {T : Type}.

(** Two vector objects do not point into the same block. *)
Definition disjoint_buffers (s : state T) (a b : nat) : bool :=
  match objs s !! a, objs s !! b with
  | Some va, Some vb =>
      match blk (buffer_ (data_ va)), blk (buffer_ (data_ vb)) with
      | Some ba, Some bb => negb (ba =? bb)%nat
      | _, _ => true
      end
  | _, _ => true
  end.

(** The state [~Vector()] leaves behind: the object at [this] is gone and so
    is the block [buffer] pointed into. *)
Definition destroyed (s : state T) (this : nat) (buffer : ptr) : state T :=
  MkState (delete this (objs s))
          (match blk buffer with
           | Some b => delete b (heap s)
           | None => heap s
           end).
End Sharing.

Section Frames.
Context {T : Type}.

(** [m] does not change the store of vector objects. *)
Definition keeps_objs {A} (m : M T A) : Prop :=
  forall s r s', m s = Ok r s' -> objs s' = objs s.
End Frames.

(** ** A sample element type and sample states

    [obj] records whether an object has been moved from; [Throwing] is a
    constructor argument for which the constructor throws. *)

Module Sample.
Inductive obj := Obj (id : Z) | MovedFrom.
Inductive arg := Value (x : Z) | Throwing.

#[global] Instance obj_element : Element obj arg := {|
  construct a := match a with Value x => Some (Obj x) | Throwing => None end;
  value_init := Obj 0;
  moved_from _ := MovedFrom;
  is_nothrow_move_constructible := true;
  is_copy_constructible := true
|}.

(** A platform on which an object takes four bytes, as an [int] does, and
    [operator new] refuses every request of more than [PTRDIFF_MAX]
    bytes. *)
Definition lp64 : Platform obj :=
  {| sizeof_T := 4; sizeof_pos := eq_refl; bad_alloc := fun _ bytes => 2 ^ 63 - 1 <? bytes |}.

(** A vector at address 0 holding 1, 2, 3 in a block of capacity 4, as three
    appends to an empty vector leave it. *)
Definition v123 : state obj :=
  MkState {[ 0%nat := MkVector (MkRawMemory (Ptr (Some 2%nat) 0) 4) 3 ]}
          {[ 2%nat := [Live (Obj 1); Live (Obj 2); Live (Obj 3); Raw] ]}.

(** The same with a second vector at address 1 holding 7, 8 in a block of
    capacity 2. *)
Definition v123_v78 : state obj :=
  MkState {[ 0%nat := MkVector (MkRawMemory (Ptr (Some 2%nat) 0) 4) 3;
             1%nat := MkVector (MkRawMemory (Ptr (Some 5%nat) 0) 2) 2 ]}
          {[ 2%nat := [Live (Obj 1); Live (Obj 2); Live (Obj 3); Raw];
             5%nat := [Live (Obj 7); Live (Obj 8)] ]}.

(** A vector at address 0 holding 1, 2 with no spare capacity. *)
Definition v12_full : state obj :=
  MkState {[ 0%nat := MkVector (MkRawMemory (Ptr (Some 1%nat) 0) 2) 2 ]}
          {[ 1%nat := [Live (Obj 1); Live (Obj 2)] ]}.

(** An empty, default-constructed vector at address 0. *)
Definition v_empty : state obj :=
  MkState {[ 0%nat := MkVector RawMemory.ctor_default 0 ]} ∅.

(** A [RawMemory] owning block 0 of three raw slots. *)
Definition raw3 : RawMemory := MkRawMemory (Ptr (Some 0%nat) 0) 3.

Definition raw3_heap : state obj :=
  MkState ∅ {[ 0%nat := [Raw; Raw; Raw] ]}.
End Sample.

(** * Properties *)

(** ** Stepping through monadic code *)

Section MonadLemmas.
Context {T : Type}.

Lemma bind_Ok {A B} (m : M T A) (k : A -> M T B) s a s' :
  m s = Ok a s' -> bind m k s = k a s'.
Proof. unfold bind. intros ->. reflexivity. Qed.

Lemma bind_Throw {A B} (m : M T A) (k : A -> M T B) s s' :
  m s = Throw s' -> bind m k s = Throw s'.
Proof. unfold bind. intros ->. reflexivity. Qed.

Lemma bind_Fault {A B} (m : M T A) (k : A -> M T B) s :
  m s = Fault -> bind m k s = Fault.
Proof. unfold bind. intros ->. reflexivity. Qed.

Lemma bind_inv_Ok {A B} (m : M T A) (k : A -> M T B) s b s' :
  bind m k s = Ok b s' -> exists a s1, m s = Ok a s1 /\ k a s1 = Ok b s'.
Proof. unfold bind. destruct (m s); try discriminate. eauto. Qed.

Lemma assert_true s : assert (T := T) true s = Ok tt s.
Proof. reflexivity. Qed.

Lemma state_eta (s : state T) : MkState (objs s) (heap s) = s.
Proof. destruct s; reflexivity. Qed.

Lemma set_heap_id (s : state T) : set_heap (heap s) s = s.
Proof. apply state_eta. Qed.
End MonadLemmas.

(** ** Operations that leave every capacity alone *)

Section CapacityFrame.
Context {T Args : Type} {E : Element T Args} {P : Platform T}.

Lemma keeps_ret {A} (a : A) : keeps_capacity (T := T) (ret a).
Proof. intros s r s' [= _ <-]. reflexivity. Qed.

Lemma keeps_fault {A} : keeps_capacity (T := T) (fault (A := A)).
Proof. intros s r s' [=]. Qed.

Lemma keeps_bind {A B} (m : M T A) (k : A -> M T B) :
  keeps_capacity m -> (forall a, keeps_capacity (k a)) -> keeps_capacity (bind m k).
Proof.
  intros Hm Hk s r s' Hb this.
  destruct (bind_inv_Ok _ _ _ _ _ Hb) as (a & s1 & H1 & H2).
  rewrite (Hk a _ _ _ H2 this). apply (Hm _ _ _ H1).
Qed.

Lemma keeps_assert b : keeps_capacity (T := T) (assert b).
Proof. destruct b; [apply keeps_ret | apply keeps_fault]. Qed.

Lemma capacity_of_write_slot p v (s : state T) this :
  capacity_of (write_slot p v s) this = capacity_of s this.
Proof. unfold write_slot. destruct (blk p); reflexivity. Qed.

Lemma keeps_load p : keeps_capacity (T := T) (load p).
Proof.
  intros s r s'. unfold load.
  destruct (slot_at (heap s) p) as [[|x]|]; intros [=]; subst. reflexivity.
Qed.

Lemma keeps_assign p x : keeps_capacity (T := T) (assign p x).
Proof.
  intros s r s'. unfold assign.
  destruct (slot_at (heap s) p) as [[|y]|]; intros [=]; subst.
  intros this. apply capacity_of_write_slot.
Qed.

Lemma keeps_destroy_at p : keeps_capacity (T := T) (destroy_at p).
Proof.
  intros s r s'. unfold destroy_at.
  destruct (slot_at (heap s) p) as [[|y]|]; intros [=]; subst.
  intros this. apply capacity_of_write_slot.
Qed.

Lemma keeps_ptr_diff p q : keeps_capacity (T := T) (ptr_diff (T := T) p q).
Proof. unfold ptr_diff. case_bool_decide; [apply keeps_ret | apply keeps_fault]. Qed.

Lemma keeps_take p : keeps_capacity (T := T) (std.take p).
Proof.
  unfold std.take. apply keeps_bind; [apply keeps_load | intros x].
  apply keeps_bind; [apply keeps_assign | intros _; apply keeps_ret].
Qed.

Lemma keeps_destroy_n p n : keeps_capacity (T := T) (std.destroy_n p n).
Proof.
  unfold std.destroy_n. generalize (Z.to_nat n) as k. intros k. revert p.
  induction k as [|k IH]; intros p; simpl; [apply keeps_ret |].
  apply keeps_bind; [apply keeps_destroy_at | intros _; apply IH].
Qed.

Lemma keeps_move first last d_first : keeps_capacity (T := T) (std.move first last d_first).
Proof.
  unfold std.move. apply keeps_bind; [apply keeps_ptr_diff | intros n].
  apply keeps_bind; [apply keeps_assert | intros _].
  generalize (Z.to_nat n) as k. intros k. revert first d_first.
  induction k as [|k IH]; intros first d_first; simpl; [apply keeps_ret |].
  apply keeps_bind; [apply keeps_take | intros x].
  apply keeps_bind; [apply keeps_assign | intros _; apply IH].
Qed.

Lemma keeps_get this : keeps_capacity (T := T) (Vector.get this).
Proof.
  intros s r s'. unfold Vector.get.
  destruct (objs s !! this); intros [=]; subst. reflexivity.
Qed.

Lemma keeps_set_size this n : keeps_capacity (T := T) (Vector.set_size this n).
Proof.
  intros s r s' H that. unfold Vector.set_size in H.
  apply bind_inv_Ok in H as (v & s1 & Hg & H).
  unfold Vector.get in Hg. destruct (objs s !! this) as [w|] eqn:Hw; [|discriminate].
  injection Hg as <- <-. injection H as H. subst s'.
  unfold capacity_of. simpl. rewrite lookup_insert.
  case_decide as Hd; [subst that; rewrite Hw|]; reflexivity.
Qed.

Lemma keeps_op_plus d n : keeps_capacity (T := T) (RawMemory.op_plus (T := T) d n).
Proof.
  unfold RawMemory.op_plus.
  apply keeps_bind; [apply keeps_assert | intros _; apply keeps_ret].
Qed.

Lemma keeps_end this : keeps_capacity (T := T) (Vector.end_ this).
Proof.
  unfold Vector.end_.
  apply keeps_bind; [apply keeps_get | intros v; apply keeps_op_plus].
Qed.

Lemma keeps_begin this : keeps_capacity (T := T) (Vector.begin this).
Proof.
  unfold Vector.begin.
  apply keeps_bind; [apply keeps_get | intros v; apply keeps_ret].
Qed.

Lemma keeps_PopBack this : keeps_capacity (T := T) (Vector.PopBack this).
Proof.
  unfold Vector.PopBack.
  apply keeps_bind; [apply keeps_end | intros e].
  apply keeps_bind; [apply keeps_destroy_at | intros _].
  apply keeps_bind; [apply keeps_get | intros v; apply keeps_set_size].
Qed.

Lemma keeps_Erase this pos : keeps_capacity (T := T) (Vector.Erase this pos).
Proof.
  unfold Vector.Erase, Vector.cbegin.
  apply keeps_bind; [apply keeps_begin | intros cb].
  apply keeps_bind; [apply keeps_ptr_diff | intros distance].
  apply keeps_bind; [apply keeps_begin | intros b].
  apply keeps_bind; [apply keeps_end | intros e].
  apply keeps_bind; [apply keeps_move | intros _].
  apply keeps_bind; [apply keeps_end | intros e'].
  apply keeps_bind; [apply keeps_destroy_n | intros _].
  apply keeps_bind; [apply keeps_get | intros v].
  apply keeps_bind; [apply keeps_set_size | intros _; apply keeps_ret].
Qed.

(** The shrinking branch of [Resize], as the code selects it. *)
Lemma Resize_shrink_branch this new_size v (s : state T) :
  objs s !! this = Some v -> new_size < size_ v ->
  Vector.Resize this new_size s =
  (std.destroy_n (RawMemory.GetAddress (data_ v) +p new_size +p -1)
                 (size_t (size_ v - new_size));;
   Vector.set_size this new_size) s.
Proof.
  intros Hv Hlt. unfold Vector.Resize.
  rewrite (bind_Ok _ _ s v s) by (unfold Vector.get; rewrite Hv; reflexivity).
  destruct (Z.ltb_spec new_size (size_ v)); [reflexivity | lia].
Qed.
End CapacityFrame.

(** ** Size and capacity queries *)

Section Queries.
Context {T Args : Type} {E : Element T Args} {P : Platform T}.

Lemma get_Ok this (s : state T) v :
  objs s !! this = Some v -> Vector.get this s = Ok v s.
Proof. unfold Vector.get. intros ->. reflexivity. Qed.

Lemma Size_Ok this (s : state T) n :
  Vector.Size this s = Ok n s <-> exists v, objs s !! this = Some v /\ size_ v = n.
Proof.
  unfold Vector.Size, Vector.get, bind, ret. split.
  - destruct (objs s !! this) as [v|]; [|discriminate]. intros [= <-]. eauto.
  - intros (v & -> & <-). reflexivity.
Qed.

Lemma Capacity_Ok this (s : state T) c :
  Vector.Capacity this s = Ok c s <-> exists v, objs s !! this = Some v /\ capacity_ (data_ v) = c.
Proof.
  unfold Vector.Capacity, Vector.get, bind, ret. split.
  - destruct (objs s !! this) as [v|]; [|discriminate]. intros [= <-]. eauto.
  - intros (v & -> & <-). reflexivity.
Qed.

Lemma Capacity_capacity_of this (s : state T) c :
  Vector.Capacity this s = Ok c s <-> capacity_of s this = Some c.
Proof.
  rewrite Capacity_Ok. unfold capacity_of. split.
  - intros (v & -> & <-). reflexivity.
  - destruct (objs s !! this) as [v|]; [|discriminate]. intros [= <-]. eauto.
Qed.

(** C9. No shrinking operation releases or shrinks the buffer: whenever
    [Resize] to a smaller size, [PopBack] or [Erase] returns, [Capacity()]
    is what it was before the call. *)
Theorem shrinking_keeps_capacity (this : nat) (s : state T) (c : Z) :
  Vector.Capacity this s = Ok c s ->
  (forall new_size sz s',
      Vector.Size this s = Ok sz s -> new_size < sz ->
      Vector.Resize this new_size s = Ok tt s' ->
      Vector.Capacity this s' = Ok c s') /\
  (forall s',
      Vector.PopBack this s = Ok tt s' ->
      Vector.Capacity this s' = Ok c s') /\
  (forall pos p s',
      Vector.Erase this pos s = Ok p s' ->
      Vector.Capacity this s' = Ok c s').
Proof.
  intros Hc. apply Capacity_capacity_of in Hc. repeat split.
  - intros new_size sz s' Hsz Hlt Hr.
    apply Size_Ok in Hsz as (v & Hv & <-).
    rewrite (Resize_shrink_branch this new_size v s Hv Hlt) in Hr.
    apply Capacity_capacity_of. rewrite <- Hc.
    refine (keeps_bind _ _ _ _ _ _ _ Hr this);
      [apply keeps_destroy_n | intros _; apply keeps_set_size].
  - intros s' Hr. apply Capacity_capacity_of. rewrite <- Hc.
    apply (keeps_PopBack this _ _ _ Hr).
  - intros pos p s' Hr. apply Capacity_capacity_of. rewrite <- Hc.
    apply (keeps_Erase this pos _ _ _ Hr).
Qed.
End Queries.

Lemma shrinking_keeps_capacity_witness :
  Vector.Capacity 0%nat Sample.v123 = Ok 4 Sample.v123 /\
  (exists s', Vector.Resize 0%nat 1 Sample.v123 = Ok tt s' /\
              Vector.Capacity 0%nat s' = Ok 4 s') /\
  (exists s', Vector.PopBack 0%nat Sample.v123 = Ok tt s' /\
              Vector.Capacity 0%nat s' = Ok 4 s') /\
  (exists s', Vector.Erase 0%nat (Ptr (Some 2%nat) 1) Sample.v123 = Ok (Ptr (Some 2%nat) 1) s' /\
              Vector.Capacity 0%nat s' = Ok 4 s').
Proof.
  destruct (shrinking_keeps_capacity 0%nat Sample.v123 4 eq_refl) as (HR & HP & HE).
  split; [reflexivity |]. split; [|split].
  - eexists. split; [vm_compute; reflexivity |].
    apply (HR 1 3); [reflexivity | lia | vm_compute; reflexivity].
  - eexists. split; [vm_compute; reflexivity |].
    apply HP. vm_compute; reflexivity.
  - eexists. split; [vm_compute; reflexivity |].
    apply (HE (Ptr (Some 2%nat) 1) (Ptr (Some 2%nat) 1)). vm_compute; reflexivity.
Defined.

(** ** Assignment between vectors *)

Section Assignment.
Context {T Args : Type} {E : Element T Args} {P : Platform T}.

(** C10. Copy-assigning a vector to itself changes nothing: the call
    returns in the state it was made in, so size, capacity and every
    element are as before. *)
Theorem self_assignment_is_noop (this : nat) (s : state T) :
  Vector.op_assign this this s = Ok tt s.
Proof.
  unfold Vector.op_assign. rewrite bool_decide_eq_false_2; [reflexivity |].
  intros Hne. apply Hne. reflexivity.
Qed.

Lemma set_data_Ok this d (s : state T) v :
  objs s !! this = Some v ->
  Vector.set_data this d s =
  Ok tt (set_objs (<[this := MkVector d (size_ v)]> (objs s)) s).
Proof.
  intros Hv. unfold Vector.set_data. rewrite (bind_Ok _ _ _ _ _ (get_Ok _ _ _ Hv)).
  reflexivity.
Qed.

Lemma set_size_Ok this n (s : state T) v :
  objs s !! this = Some v ->
  Vector.set_size this n s =
  Ok tt (set_objs (<[this := MkVector (data_ v) n]> (objs s)) s).
Proof.
  intros Hv. unfold Vector.set_size. rewrite (bind_Ok _ _ _ _ _ (get_Ok _ _ _ Hv)).
  reflexivity.
Qed.

(** What [Swap] does to the object store, also when both names denote the
    same object. *)
Lemma Swap_Ok a b (s : state T) va vb :
  objs s !! a = Some va -> objs s !! b = Some vb ->
  Vector.Swap a b s = Ok tt (set_objs (<[a := vb]> (<[b := va]> (objs s))) s).
Proof.
  intros Ha Hb.
  unfold Vector.Swap, Vector.set_data, Vector.set_size, Vector.get, bind.
  rewrite Ha, Hb. destruct va as [[pa ca] na], vb as [[pb cb] nb]. simpl.
  destruct (decide (a = b)) as [->|Hab].
  - simplify_map_eq. simpl. unfold set_objs; simpl.
    rewrite !insert_insert_eq. reflexivity.
  - simplify_map_eq. simpl. unfold set_objs; simpl. do 2 f_equal.
    apply map_eq. intros i.
    destruct (decide (i = a)) as [->|]; [simplify_map_eq; reflexivity|].
    destruct (decide (i = b)) as [->|]; simplify_map_eq; reflexivity.
Qed.

(** C8. Move assignment [a = std::move(b)] exchanges the two objects:
    afterwards [a] has the buffer and size [b] had, [b] has the buffer and
    size [a] had, and neither the heap nor any other object has changed. *)
Theorem move_assignment_swaps (a b : nat) (s : state T) (va vb : Vector) :
  objs s !! a = Some va -> objs s !! b = Some vb ->
  exists s',
    Vector.op_assign_move a b s = Ok tt s' /\
    objs s' !! a = Some vb /\
    objs s' !! b = Some va /\
    heap s' = heap s /\
    (forall c, c <> a -> c <> b -> objs s' !! c = objs s !! c).
Proof.
  intros Ha Hb. eexists. split; [apply (Swap_Ok a b s va vb Ha Hb) |].
  simpl. split; [apply lookup_insert_eq |]. split; [|split; [reflexivity |]].
  - destruct (decide (a = b)) as [->|Hab].
    + rewrite lookup_insert_eq. congruence.
    + rewrite lookup_insert_ne by congruence. apply lookup_insert_eq.
  - intros c Hca Hcb. rewrite !lookup_insert_ne by congruence. reflexivity.
Qed.
End Assignment.

Lemma move_assignment_swaps_witness :
  exists s',
    Vector.op_assign_move 0%nat 1%nat Sample.v123_v78 = Ok tt s' /\
    objs s' !! 0%nat = Some (MkVector (MkRawMemory (Ptr (Some 5%nat) 0) 2) 2) /\
    objs s' !! 1%nat = Some (MkVector (MkRawMemory (Ptr (Some 2%nat) 0) 4) 3) /\
    heap s' = heap Sample.v123_v78 /\
    (forall c, c <> 0%nat -> c <> 1%nat -> objs s' !! c = objs Sample.v123_v78 !! c).
Proof.
  apply (move_assignment_swaps 0%nat 1%nat Sample.v123_v78); reflexivity.
Defined.

(** ** Allocation and the throwing append *)

Section Allocation.
Context {T Args : Type} {E : Element T Args} {P : Platform T}.

Lemma size_t_small z : 0 <= z < 2 ^ 64 -> size_t z = z.
Proof. intros H. unfold size_t. apply Z.mod_small. exact H. Qed.

Lemma fresh_block_unused (h : gmap nat (list (slot T))) : h !! fresh (dom h) = None.
Proof. apply not_elem_of_dom. apply is_fresh. Qed.

(** A request whose size in bytes does not wrap and that [operator new]
    grants yields a block of exactly [n] slots. *)
Lemma Allocate_granted n (s : state T) :
  0 < n -> n * sizeof_T < 2 ^ 64 -> bad_alloc s (n * sizeof_T) = false ->
  RawMemory.Allocate n s =
  Ok (Ptr (Some (fresh (dom (heap s)))) 0)
     (set_heap (<[fresh (dom (heap s)) := replicate (Z.to_nat n) Raw]> (heap s)) s).
Proof.
  intros Hn Hfit Hnew. unfold RawMemory.Allocate.
  destruct (Z.eqb_spec n 0); [lia |].
  pose proof sizeof_pos as Hpos.
  rewrite size_t_small by nia.
  unfold RawMemory.operator_new. rewrite Hnew.
  rewrite Z.div_mul by lia. reflexivity.
Qed.

Lemma ctor_granted n (s : state T) :
  0 < n -> n * sizeof_T < 2 ^ 64 -> bad_alloc s (n * sizeof_T) = false ->
  RawMemory.ctor n s =
  Ok (MkRawMemory (Ptr (Some (fresh (dom (heap s)))) 0) n)
     (set_heap (<[fresh (dom (heap s)) := replicate (Z.to_nat n) Raw]> (heap s)) s).
Proof.
  intros Hn Hfit Hnew. unfold RawMemory.ctor.
  rewrite (bind_Ok _ _ _ _ _ (Allocate_granted n s Hn Hfit Hnew)). reflexivity.
Qed.

(** A request that [operator new] refuses: [std::bad_alloc] leaves the
    constructor of [RawMemory] with nothing changed. *)
Lemma ctor_refused n (s : state T) :
  n <> 0 -> bad_alloc s (size_t (n * sizeof_T)) = true ->
  RawMemory.ctor n s = Throw s.
Proof.
  intros Hn Hnew. unfold RawMemory.ctor, RawMemory.Allocate.
  destruct (Z.eqb_spec n 0); [contradiction |].
  apply bind_Throw. unfold RawMemory.operator_new. rewrite Hnew. reflexivity.
Qed.

(** On any platform, the constructor of [RawMemory] for a capacity other
    than 0 either throws with nothing changed or adds one block, of some
    length, that was not in use. *)
Lemma ctor_outcome n (s : state T) :
  n <> 0 ->
  RawMemory.ctor n s = Throw s \/
  exists l,
    RawMemory.ctor n s =
    Ok (MkRawMemory (Ptr (Some (fresh (dom (heap s)))) 0) n)
       (set_heap (<[fresh (dom (heap s)) := l]> (heap s)) s).
Proof.
  intros Hn. unfold RawMemory.ctor, RawMemory.Allocate.
  destruct (Z.eqb_spec n 0); [contradiction |].
  unfold bind, RawMemory.operator_new.
  destruct (bad_alloc s (size_t (n * sizeof_T))); [left; reflexivity |].
  right. eexists. reflexivity.
Qed.

Lemma Deallocate_fresh_block (l : list (slot T)) (s : state T) :
  RawMemory.Deallocate (Ptr (Some (fresh (dom (heap s)))) 0)
    (set_heap (<[fresh (dom (heap s)) := l]> (heap s)) s) = Ok tt s.
Proof.
  unfold RawMemory.Deallocate. simpl. rewrite lookup_insert_eq.
  unfold set_heap. simpl. rewrite delete_insert_eq.
  rewrite delete_id by apply fresh_block_unused. rewrite state_eta. reflexivity.
Qed.

Lemma Deallocate_fresh n (s : state T) :
  RawMemory.Deallocate (Ptr (Some (fresh (dom (heap s)))) 0)
    (set_heap (<[fresh (dom (heap s)) := replicate (Z.to_nat n) Raw]> (heap s)) s) = Ok tt s.
Proof. apply Deallocate_fresh_block. Qed.

Lemma grown_bounds n : 0 <= n < 2 ^ 63 -> n < grown n /\ grown n = Z.max 1 (2 * n).
Proof.
  intros H. unfold grown. destruct (Z.eqb_spec n 0); [lia |].
  rewrite size_t_small; [lia |].
  change (2 ^ 64) with (2 * 2 ^ 63). lia.
Qed.

(** C4. Strong exception safety of a growing append: when [Size()] equals
    [Capacity()] and the constructor of the new element throws,
    [EmplaceBack] and [PushBack] propagate the exception in exactly the
    state they were called in: the vector object, its buffer, every
    element and the rest of the heap are as before, the new buffer having
    been released. *)
Theorem append_throw_leaves_state (this : nat) (args : Args) (s : state T) (n : Z) :
  Vector.Size this s = Ok n s ->
  Vector.Capacity this s = Ok n s ->
  0 <= n < 2 ^ 63 ->
  construct args = None ->
  Vector.EmplaceBack this args s = Throw s /\ Vector.PushBack this args s = Throw s.
Proof.
  intros Hs Hc Hn Ha.
  apply Size_Ok in Hs as (v & Hv & Hsz). apply Capacity_Ok in Hc as (v' & Hv' & Hcap).
  assert (v' = v) as -> by congruence.
  assert (Vector.EmplaceBack this args s = Throw s) as HE.
  { unfold Vector.EmplaceBack.
    rewrite (bind_Ok _ _ _ _ _ (get_Ok _ _ _ Hv)).
    rewrite (bind_Ok _ _ s (capacity_ (data_ v)) s)
      by (apply Capacity_Ok; eauto).
    rewrite Hsz, Hcap, Z.eqb_refl.
    destruct (grown_bounds n Hn) as [Hlt _]. fold (grown n).
    apply bind_Throw.
    destruct (ctor_outcome (grown n) s ltac:(lia)) as [Hnew | [l Hnew]].
    - apply bind_Throw. exact Hnew.
    - erewrite bind_Ok by exact Hnew.
      apply bind_Throw. unfold on_throw.
      unfold RawMemory.op_index. simpl.
      destruct (Z.ltb_spec n (grown n)); [|lia].
      unfold bind at 1. simpl. unfold Vector.placement_new, Vector.make. rewrite Ha.
      unfold bind, throw. unfold RawMemory.dtor. simpl.
      rewrite Deallocate_fresh_block. reflexivity. }
  split; [exact HE |]. unfold Vector.PushBack. apply bind_Throw. exact HE.
Qed.
End Allocation.

(** On the platform [unbounded] every request for fewer than 2^64 slots is
    granted in full. *)

Section Unbounded.
Context {T : Type}.

Lemma Allocate_Ok n (s : state T) :
  0 < n < 2 ^ 64 ->
  RawMemory.Allocate n s =
  Ok (Ptr (Some (fresh (dom (heap s)))) 0)
     (set_heap (<[fresh (dom (heap s)) := replicate (Z.to_nat n) Raw]> (heap s)) s).
Proof.
  intros Hn. apply (Allocate_granted (P := unbounded)); simpl; [lia | lia | reflexivity].
Qed.

Lemma ctor_Ok n (s : state T) :
  0 < n < 2 ^ 64 ->
  RawMemory.ctor n s =
  Ok (MkRawMemory (Ptr (Some (fresh (dom (heap s)))) 0) n)
     (set_heap (<[fresh (dom (heap s)) := replicate (Z.to_nat n) Raw]> (heap s)) s).
Proof.
  intros Hn. apply (ctor_granted (P := unbounded)); simpl; [lia | lia | reflexivity].
Qed.
End Unbounded.

Lemma append_throw_leaves_state_witness :
  Vector.EmplaceBack 0%nat Sample.Throwing Sample.v12_full = Throw Sample.v12_full /\
  Vector.PushBack 0%nat Sample.Throwing Sample.v12_full = Throw Sample.v12_full.
Proof.
  apply (append_throw_leaves_state 0%nat Sample.Throwing Sample.v12_full 2);
    [reflexivity | reflexivity | lia | reflexivity].
Defined.

(** Goals about the lengths of the lists that describe a block. *)
Ltac solve_length :=
  repeat first [ rewrite length_app | rewrite length_fmap | rewrite length_replicate
               | rewrite length_cons | rewrite length_nil ];
  simpl; lia.

(** Puts the description of a block into right-nested form. *)
Ltac norm_lists :=
  repeat first [ rewrite fmap_app | rewrite <- app_assoc | rewrite fmap_cons
               | progress simpl ].

(** ** Slots of a block *)

Section Slots.
Context {T : Type}.
Implicit Types (s : state T) (l : list (slot T)) (b : nat) (o : Z).

Lemma heap_set_heap h s : heap (set_heap h s) = h.
Proof. reflexivity. Qed.

Lemma objs_set_heap h s : objs (set_heap h s) = objs s.
Proof. reflexivity. Qed.

Lemma set_heap_set_heap h h' s : set_heap h (set_heap h' s) = set_heap h s.
Proof. reflexivity. Qed.

Lemma slot_at_middle s b o l1 x l2 :
  heap s !! b = Some (l1 ++ x :: l2) -> o = Z.of_nat (length l1) ->
  slot_at (heap s) (Ptr (Some b) o) = Some x.
Proof.
  intros Hb ->. unfold slot_at. simpl.
  destruct (Z.leb_spec 0 (Z.of_nat (length l1))); [|lia].
  rewrite Hb, Nat2Z.id. apply list_lookup_middle. reflexivity.
Qed.

Lemma write_slot_middle s b o l1 x l2 y :
  heap s !! b = Some (l1 ++ x :: l2) -> o = Z.of_nat (length l1) ->
  write_slot (Ptr (Some b) o) y s = set_heap (<[b := l1 ++ y :: l2]> (heap s)) s.
Proof.
  intros Hb ->. unfold write_slot. simpl. f_equal.
  rewrite Nat2Z.id. apply map_eq. intros i. rewrite lookup_alter, lookup_insert.
  case_decide as Hi; [|reflexivity]. subst i. rewrite Hb. simpl. f_equal.
  rewrite insert_app_r_alt by lia. rewrite Nat.sub_diag. reflexivity.
Qed.

Lemma load_middle s b o l1 x l2 :
  heap s !! b = Some (l1 ++ Live x :: l2) -> o = Z.of_nat (length l1) ->
  load (Ptr (Some b) o) s = Ok x s.
Proof.
  intros Hb Ho. unfold load. rewrite (slot_at_middle _ _ _ _ _ _ Hb Ho). reflexivity.
Qed.

Lemma construct_at_middle s b o l1 x l2 y :
  heap s !! b = Some (l1 ++ x :: l2) -> o = Z.of_nat (length l1) ->
  construct_at (Ptr (Some b) o) y s =
  Ok tt (set_heap (<[b := l1 ++ Live y :: l2]> (heap s)) s).
Proof.
  intros Hb Ho. unfold construct_at. rewrite (slot_at_middle _ _ _ _ _ _ Hb Ho).
  rewrite (write_slot_middle _ _ _ _ _ _ _ Hb Ho). reflexivity.
Qed.

Lemma assign_middle s b o l1 x l2 y :
  heap s !! b = Some (l1 ++ Live x :: l2) -> o = Z.of_nat (length l1) ->
  assign (Ptr (Some b) o) y s =
  Ok tt (set_heap (<[b := l1 ++ Live y :: l2]> (heap s)) s).
Proof.
  intros Hb Ho. unfold assign. rewrite (slot_at_middle _ _ _ _ _ _ Hb Ho).
  rewrite (write_slot_middle _ _ _ _ _ _ _ Hb Ho). reflexivity.
Qed.

Lemma destroy_at_middle s b o l1 x l2 :
  heap s !! b = Some (l1 ++ Live x :: l2) -> o = Z.of_nat (length l1) ->
  destroy_at (Ptr (Some b) o) s =
  Ok tt (set_heap (<[b := l1 ++ Raw :: l2]> (heap s)) s).
Proof.
  intros Hb Ho. unfold destroy_at. rewrite (slot_at_middle _ _ _ _ _ _ Hb Ho).
  rewrite (write_slot_middle _ _ _ _ _ _ _ Hb Ho). reflexivity.
Qed.
End Slots.

(** ** The algorithms on segments of a block *)

Section Loops.
Context {T Args : Type} {E : Element T Args} {P : Platform T}.
Implicit Types (s : state T) (l mid d : list (slot T)) (xs : list T) (b : nat) (o : Z).

Lemma insert_pair_again (h : gmap nat (list (slot T))) b b' x y x' y' :
  b <> b' ->
  <[b' := x]> (<[b := y]> (<[b' := x']> (<[b := y']> h))) = <[b' := x]> (<[b := y]> h).
Proof.
  intros Hne. apply map_eq. intros i. rewrite !lookup_insert.
  repeat case_decide; congruence.
Qed.

Lemma take_middle s b o l1 x l2 :
  heap s !! b = Some (l1 ++ Live x :: l2) -> o = Z.of_nat (length l1) ->
  std.take (Ptr (Some b) o) s =
  Ok x (set_heap (<[b := l1 ++ Live (moved_from x) :: l2]> (heap s)) s).
Proof.
  intros Hb Ho. unfold std.take.
  rewrite (bind_Ok _ _ _ _ _ (load_middle _ _ _ _ _ _ Hb Ho)).
  rewrite (bind_Ok _ _ _ _ _ (assign_middle _ _ _ _ _ _ _ Hb Ho)). reflexivity.
Qed.

Lemma destroy_loop_segment xs : forall s b o l1 l2,
  heap s !! b = Some (l1 ++ (Live <$> xs) ++ l2) -> o = Z.of_nat (length l1) ->
  std.destroy_loop (Ptr (Some b) o) (length xs) s =
  Ok tt (set_heap (<[b := l1 ++ replicate (length xs) Raw ++ l2]> (heap s)) s).
Proof.
  induction xs as [|x xs IH]; intros s b o l1 l2 Hb Ho; simpl in *.
  - rewrite insert_id by exact Hb. rewrite set_heap_id. reflexivity.
  - rewrite (bind_Ok _ _ _ _ _ (destroy_at_middle _ _ _ _ _ _ Hb Ho)).
    rewrite (IH _ b (o + 1) (l1 ++ [Raw]) l2).
    + simpl. rewrite set_heap_set_heap, insert_insert_eq, <- app_assoc. reflexivity.
    + simpl. rewrite lookup_insert_eq, <- app_assoc. reflexivity.
    + rewrite length_app. simpl. lia.
Qed.

Lemma value_construct_loop_segment mid : forall s b o l1 l2,
  heap s !! b = Some (l1 ++ mid ++ l2) -> o = Z.of_nat (length l1) ->
  std.value_construct_loop (Ptr (Some b) o) (length mid) s =
  Ok tt (set_heap (<[b := l1 ++ replicate (length mid) (Live value_init) ++ l2]> (heap s)) s).
Proof.
  induction mid as [|x mid IH]; intros s b o l1 l2 Hb Ho; simpl in *.
  - rewrite insert_id by exact Hb. rewrite set_heap_id. reflexivity.
  - rewrite (bind_Ok _ _ _ _ _ (construct_at_middle _ _ _ _ _ _ value_init Hb Ho)).
    rewrite (IH _ b (o + 1) (l1 ++ [Live value_init]) l2).
    + simpl. rewrite set_heap_set_heap, insert_insert_eq, <- app_assoc. reflexivity.
    + simpl. rewrite lookup_insert_eq, <- app_assoc. reflexivity.
    + rewrite length_app. simpl. lia.
Qed.

Lemma copy_loop_segment xs : forall s b o l1 l2 b' o' d1 mid d2,
  b <> b' ->
  heap s !! b = Some (l1 ++ (Live <$> xs) ++ l2) -> o = Z.of_nat (length l1) ->
  heap s !! b' = Some (d1 ++ mid ++ d2) -> o' = Z.of_nat (length d1) ->
  length mid = length xs ->
  std.copy_loop (Ptr (Some b) o) (length xs) (Ptr (Some b') o') s =
  Ok tt (set_heap (<[b' := d1 ++ (Live <$> xs) ++ d2]> (heap s)) s).
Proof.
  induction xs as [|x xs IH]; intros s b o l1 l2 b' o' d1 mid d2 Hne Hb Ho Hb' Ho' Hlen;
    destruct mid as [|m mid]; try discriminate; simpl in *.
  - rewrite insert_id by exact Hb'. rewrite set_heap_id. reflexivity.
  - rewrite (bind_Ok _ _ _ _ _ (load_middle _ _ _ _ _ _ Hb Ho)).
    rewrite (bind_Ok _ _ _ _ _ (construct_at_middle _ _ _ _ _ _ x Hb' Ho')).
    rewrite (IH _ b (o + 1) (l1 ++ [Live x]) l2 b' (o' + 1) (d1 ++ [Live x]) mid d2).
    + simpl. rewrite set_heap_set_heap, insert_insert_eq, <- app_assoc. reflexivity.
    + exact Hne.
    + simpl. rewrite lookup_insert_ne by congruence. rewrite Hb, <- app_assoc. reflexivity.
    + rewrite length_app. simpl. lia.
    + simpl. rewrite lookup_insert_eq, <- app_assoc. reflexivity.
    + rewrite length_app. simpl. lia.
    + congruence.
Qed.

Lemma move_loop_segment xs : forall s b o l1 l2 b' o' d1 mid d2,
  b <> b' ->
  heap s !! b = Some (l1 ++ (Live <$> xs) ++ l2) -> o = Z.of_nat (length l1) ->
  heap s !! b' = Some (d1 ++ mid ++ d2) -> o' = Z.of_nat (length d1) ->
  length mid = length xs ->
  std.move_loop (Ptr (Some b) o) (length xs) (Ptr (Some b') o') s =
  Ok tt (set_heap (<[b' := d1 ++ (Live <$> xs) ++ d2]>
                     (<[b := l1 ++ (Live <$> (moved_from <$> xs)) ++ l2]> (heap s))) s).
Proof.
  induction xs as [|x xs IH]; intros s b o l1 l2 b' o' d1 mid d2 Hne Hb Ho Hb' Ho' Hlen;
    destruct mid as [|m mid]; try discriminate; simpl in *.
  - rewrite (insert_id _ b) by exact Hb. rewrite insert_id by exact Hb'.
    rewrite set_heap_id. reflexivity.
  - rewrite (bind_Ok _ _ _ _ _ (take_middle _ _ _ _ _ _ Hb Ho)).
    erewrite bind_Ok; cycle 1.
    { apply construct_at_middle with (l1 := d1) (x := m) (l2 := mid ++ d2); [|exact Ho'].
      simpl. rewrite lookup_insert_ne by congruence. exact Hb'. }
    rewrite (IH _ b (o + 1) (l1 ++ [Live (moved_from x)]) l2 b' (o' + 1)
                (d1 ++ [Live x]) mid d2).
    + simpl. rewrite set_heap_set_heap, insert_pair_again by exact Hne.
      rewrite <- !app_assoc. reflexivity.
    + exact Hne.
    + simpl. rewrite lookup_insert_ne by congruence.
      rewrite lookup_insert_eq, <- app_assoc. reflexivity.
    + rewrite length_app. simpl. lia.
    + simpl. rewrite lookup_insert_eq, <- app_assoc. reflexivity.
    + rewrite length_app. simpl. lia.
    + congruence.
Qed.

(** Shifting a run of elements one slot to the left. *)
Lemma move_range_loop_shift xs : forall s b o l1 y l2,
  heap s !! b = Some (l1 ++ Live y :: (Live <$> xs) ++ l2) -> o = Z.of_nat (length l1) ->
  exists z,
    std.move_range_loop (Ptr (Some b) (o + 1)) (length xs) (Ptr (Some b) o) s =
    Ok tt (set_heap (<[b := l1 ++ (Live <$> xs) ++ Live z :: l2]> (heap s)) s).
Proof.
  induction xs as [|x xs IH]; intros s b o l1 y l2 Hb Ho; simpl in *.
  - exists y. rewrite insert_id by exact Hb. rewrite set_heap_id. reflexivity.
  - erewrite bind_Ok; cycle 1.
    { apply take_middle with (l1 := l1 ++ [Live y]) (x := x) (l2 := (Live <$> xs) ++ l2).
      - rewrite <- app_assoc. exact Hb.
      - rewrite length_app. simpl. lia. }
    erewrite bind_Ok; cycle 1.
    { apply assign_middle with (l1 := l1) (x := y)
                               (l2 := Live (moved_from x) :: (Live <$> xs) ++ l2);
        [|exact Ho].
      simpl. rewrite lookup_insert_eq, <- app_assoc. reflexivity. }
    destruct (IH (set_heap (<[b := l1 ++ Live x :: Live (moved_from x) :: (Live <$> xs) ++ l2]>
                              (<[b := (l1 ++ [Live y]) ++ Live (moved_from x) :: (Live <$> xs) ++ l2]>
                                 (heap s))) s)
                 b (o + 1) (l1 ++ [Live x]) (moved_from x) l2) as [z Hz].
    + simpl. rewrite lookup_insert_eq, <- app_assoc. reflexivity.
    + rewrite length_app. simpl. lia.
    + exists z. etransitivity; [exact Hz |].
      unfold set_heap. simpl. rewrite !insert_insert_eq, <- app_assoc. reflexivity.
Qed.

(** Shifting a run of elements one slot to the right, from the end. *)
Lemma move_backward_loop_shift xs : forall s b o l1 y l2,
  heap s !! b = Some (l1 ++ (Live <$> xs) ++ Live y :: l2) ->
  o = Z.of_nat (length l1 + length xs) ->
  exists z,
    std.move_backward_loop (Ptr (Some b) o) (length xs) (Ptr (Some b) (o + 1)) s =
    Ok tt (set_heap (<[b := l1 ++ Live z :: (Live <$> xs) ++ l2]> (heap s)) s).
Proof.
  induction xs as [|x xs IH] using rev_ind; intros s b o l1 y l2 Hb Ho.
  - simpl in *. exists y. rewrite insert_id by exact Hb. rewrite set_heap_id. reflexivity.
  - rewrite length_app, Nat.add_comm. simpl length. simpl Nat.add.
    cbn [std.move_backward_loop]. unfold ptr_add. simpl.
    rewrite fmap_app in Hb. simpl in Hb. rewrite <- !app_assoc in Hb. simpl in Hb.
    rewrite length_app in Ho. simpl in Ho.
    erewrite bind_Ok; cycle 1.
    { apply take_middle with (l1 := l1 ++ (Live <$> xs)) (x := x) (l2 := Live y :: l2).
      - rewrite <- app_assoc. exact Hb.
      - rewrite length_app, length_fmap. lia. }
    erewrite bind_Ok; cycle 1.
    { apply assign_middle with (l1 := (l1 ++ (Live <$> xs)) ++ [Live (moved_from x)])
                               (x := y) (l2 := l2).
      - simpl. rewrite lookup_insert_eq, <- !app_assoc. reflexivity.
      - rewrite !length_app, length_fmap. simpl. lia. }
    destruct (IH (set_heap (<[b := ((l1 ++ (Live <$> xs)) ++ [Live (moved_from x)]) ++ Live x :: l2]>
                              (<[b := (l1 ++ (Live <$> xs)) ++ Live (moved_from x) :: Live y :: l2]>
                                 (heap s))) s)
                 b (o + -1) l1 (moved_from x) (Live x :: l2)) as [z Hz].
    + simpl. rewrite lookup_insert_eq, <- !app_assoc. reflexivity.
    + lia.
    + exists z. replace (o + 1 + -1) with (o + -1 + 1) by lia.
      etransitivity; [exact Hz |].
      unfold set_heap. simpl. rewrite !insert_insert_eq.
      rewrite fmap_app, <- !app_assoc. reflexivity.
Qed.
End Loops.

(** ** The class invariant *)

Section Invariant.
Context {T Args : Type} {E : Element T Args} {P : Platform T}.
Implicit Types (s : state T) (l : list (slot T)) (xs : list T) (b : nat) (d : RawMemory).

Lemma forallb_is_raw l : forallb is_raw l = true <-> l = replicate (length l) Raw.
Proof.
  induction l as [|x l IH]; simpl; [tauto |].
  destruct x; simpl.
  - rewrite IH. split; [intros <-; reflexivity | intros [= <-]; reflexivity].
  - split; discriminate.
Qed.

Lemma live_prefix_Some l : forall n xs,
  live_prefix l n = Some xs <->
  length xs = n /\ exists k, l = (Live <$> xs) ++ replicate k Raw.
Proof.
  induction l as [|x l IH]; intros n xs.
  - destruct n; simpl.
    + split.
      * intros [= <-]. split; [reflexivity | exists 0%nat; reflexivity].
      * intros [Hn _]. destruct xs; [reflexivity | discriminate].
    + split; [discriminate |]. intros [Hn [k Hk]].
      destruct xs; [discriminate | discriminate].
  - destruct n as [|n].
    + cbn [live_prefix]. destruct (forallb is_raw (x :: l)) eqn:Hf.
      * apply forallb_is_raw in Hf. split.
        -- intros [= <-]. split; [reflexivity |]. exists (length (x :: l)). exact Hf.
        -- intros [Hn _]. destruct xs; [reflexivity | discriminate].
      * split; [discriminate |]. intros [Hn [k Hk]].
        destruct xs; [|discriminate]. simpl in Hk.
        assert (forallb is_raw (x :: l) = true) as Hf'; [|congruence].
        apply forallb_is_raw. rewrite Hk at 1. rewrite Hk, length_replicate. reflexivity.
    + cbn [live_prefix]. destruct x as [|x].
      * split; [discriminate |]. intros [Hn [k Hk]]. destruct xs; discriminate.
      * destruct (live_prefix l n) as [ys|] eqn:Hl.
        -- apply IH in Hl as [Hn [k Hk]]. split.
           ++ intros [= <-]. split; [simpl; congruence |]. exists k. rewrite Hk. reflexivity.
           ++ intros [Hn' [k' Hk']]. destruct xs as [|x' xs]; [discriminate |].
              simpl in Hk'. injection Hk' as <- Hk'. f_equal. f_equal.
              assert (length xs = length ys) as Hlen by (simpl in Hn'; lia).
              rewrite Hk in Hk'. clear -Hk' Hlen.
              revert ys Hk' Hlen. induction xs as [|a xs IHx]; intros [|c ys] Hk' Hlen;
                try discriminate; [reflexivity |].
              simpl in Hk'. injection Hk' as -> Hk'. f_equal. apply IHx; [exact Hk' |].
              simpl in Hlen. lia.
        -- split; [discriminate |]. intros [Hn' [k' Hk']].
           destruct xs as [|x' xs]; [discriminate |]. simpl in Hk'. injection Hk' as <- Hk'.
           assert (live_prefix l n = Some xs) as Hc; [|congruence].
           apply IH. split; [simpl in Hn'; lia | eauto].
Qed.

Lemma contents_holds s this xs :
  contents s this = Some xs <-> exists k, holds s this xs k.
Proof.
  unfold contents, holds. split.
  - destruct (objs s !! this) as [v|]; [|discriminate].
    destruct (storage s (data_ v)) as [l|] eqn:Hst; [|discriminate].
    destruct (Z.leb_spec 0 (size_ v)); [|discriminate].
    destruct (Z.ltb_spec (capacity_ (data_ v)) (2 ^ 64)); [|discriminate]. simpl.
    intros Hl. apply live_prefix_Some in Hl as [Hn [k ->]].
    exists k, v. split; [reflexivity |]. split; [lia |]. split; [assumption | exact Hst].
  - intros (k & v & -> & Hsz & Hcap & ->).
    destruct (Z.leb_spec 0 (size_ v)); [|lia].
    destruct (Z.ltb_spec (capacity_ (data_ v)) (2 ^ 64)); [|lia]. simpl.
    apply live_prefix_Some. split; [lia | eauto].
Qed.

Lemma storage_inv s d l :
  storage s d = Some l ->
  (d = MkRawMemory nullptr 0 /\ l = []) \/
  (exists b, d = MkRawMemory (Ptr (Some b) 0) (Z.of_nat (length l)) /\ heap s !! b = Some l).
Proof.
  unfold storage. destruct d as [[bk o] c]. simpl.
  destruct (Z.eqb_spec o 0) as [->|]; [|discriminate].
  destruct bk as [b|].
  - destruct (heap s !! b) as [l'|] eqn:Hb; [|discriminate].
    destruct (Z.eqb_spec (Z.of_nat (length l')) c) as [<-|]; [|discriminate].
    intros [= <-]. right. eauto.
  - destruct (Z.eqb_spec c 0) as [->|]; [|discriminate].
    intros [= <-]. left. split; reflexivity.
Qed.

Lemma storage_block s b l :
  heap s !! b = Some l ->
  storage s (MkRawMemory (Ptr (Some b) 0) (Z.of_nat (length l))) = Some l.
Proof. intros Hb. unfold storage. simpl. rewrite Hb, Z.eqb_refl. reflexivity. Qed.

Lemma storage_ext s s' d :
  (forall b, blk (buffer_ d) = Some b -> heap s' !! b = heap s !! b) ->
  storage s' d = storage s d.
Proof.
  intros H. unfold storage. destruct (blk (buffer_ d)) as [b|]; [|reflexivity].
  rewrite (H b eq_refl). reflexivity.
Qed.

Lemma storage_allocated s d l b :
  storage s d = Some l -> blk (buffer_ d) = Some b -> heap s !! b <> None.
Proof.
  unfold storage. intros Hst Hb. rewrite Hb in Hst.
  destruct (off (buffer_ d) =? 0); [|discriminate].
  destruct (heap s !! b); [discriminate | discriminate].
Qed.

(** The capacity of a vector that satisfies the invariant. *)
Lemma holds_Size s this xs k :
  holds s this xs k -> Vector.Size this s = Ok (Z.of_nat (length xs)) s.
Proof. intros (v & Hv & Hsz & _). apply Size_Ok. eauto. Qed.

Lemma holds_Capacity s this xs k :
  holds s this xs k -> Vector.Capacity this s = Ok (Z.of_nat (length xs + k)) s.
Proof.
  intros (v & Hv & Hsz & Hcap & Hst). apply Capacity_Ok. exists v. split; [exact Hv |].
  apply storage_inv in Hst as [[-> Hnil] | (b & -> & Hb)]; simpl.
  - apply (f_equal length) in Hnil. rewrite length_app, length_fmap, length_replicate in Hnil.
    simpl in Hnil. lia.
  - rewrite length_app, length_fmap, length_replicate. reflexivity.
Qed.
End Invariant.

(** ** Relocation and [Reserve] *)

Section Reserve.
Context {T Args : Type} {E : Element T Args} {P : Platform T}.
Implicit Types (s : state T) (l mid d : list (slot T)) (xs : list T) (b : nat) (o : Z).

Lemma storage_block_eq s b l c :
  heap s !! b = Some l -> c = Z.of_nat (length l) ->
  storage s (MkRawMemory (Ptr (Some b) 0) c) = Some l.
Proof. intros Hb ->. apply storage_block. exact Hb. Qed.

Lemma begin_Ok s this v :
  objs s !! this = Some v -> Vector.begin this s = Ok (buffer_ (data_ v)) s.
Proof.
  intros Hv. unfold Vector.begin. rewrite (bind_Ok _ _ _ _ _ (get_Ok _ _ _ Hv)). reflexivity.
Qed.

Lemma end_Ok s this v :
  objs s !! this = Some v -> size_ v <= capacity_ (data_ v) ->
  Vector.end_ this s = Ok (buffer_ (data_ v) +p size_ v) s.
Proof.
  intros Hv Hle. unfold Vector.end_, RawMemory.op_plus.
  rewrite (bind_Ok _ _ _ _ _ (get_Ok _ _ _ Hv)).
  destruct (Z.leb_spec (size_ v) (capacity_ (data_ v))); [reflexivity | lia].
Qed.

Lemma op_index_Ok (d : RawMemory) i s :
  i < capacity_ d -> RawMemory.op_index d i s = Ok (buffer_ d +p i) s.
Proof.
  intros Hlt. unfold RawMemory.op_index.
  destruct (Z.ltb_spec i (capacity_ d)); [reflexivity | lia].
Qed.

Lemma relocate_n_segment xs s b o l1 l2 b' o' d1 mid d2 :
  b <> b' ->
  heap s !! b = Some (l1 ++ (Live <$> xs) ++ l2) -> o = Z.of_nat (length l1) ->
  heap s !! b' = Some (d1 ++ mid ++ d2) -> o' = Z.of_nat (length d1) ->
  length mid = length xs ->
  exists ys,
    length ys = length xs /\
    Vector.relocate_n (Ptr (Some b) o) (Z.of_nat (length xs)) (Ptr (Some b') o') s =
    Ok tt (set_heap (<[b' := d1 ++ (Live <$> xs) ++ d2]>
                       (<[b := l1 ++ (Live <$> ys) ++ l2]> (heap s))) s).
Proof.
  intros Hne Hb Ho Hb' Ho' Hlen. unfold Vector.relocate_n.
  destruct (is_nothrow_move_constructible || negb is_copy_constructible).
  - exists (moved_from <$> xs). split; [apply length_fmap |].
    unfold std.uninitialized_move_n. rewrite Nat2Z.id.
    apply (move_loop_segment xs s b o l1 l2 b' o' d1 mid d2); assumption.
  - exists xs. split; [reflexivity |].
    unfold std.uninitialized_copy_n. rewrite Nat2Z.id.
    rewrite (insert_id _ b) by exact Hb.
    apply (copy_loop_segment xs s b o l1 l2 b' o' d1 mid d2); assumption.
Qed.

Lemma relocate_n_none p q s : Vector.relocate_n p 0 q s = Ok tt s.
Proof.
  unfold Vector.relocate_n.
  destruct (is_nothrow_move_constructible || negb is_copy_constructible); reflexivity.
Qed.

Lemma destroy_n_segment xs s b o l1 l2 :
  heap s !! b = Some (l1 ++ (Live <$> xs) ++ l2) -> o = Z.of_nat (length l1) ->
  std.destroy_n (Ptr (Some b) o) (Z.of_nat (length xs)) s =
  Ok tt (set_heap (<[b := l1 ++ replicate (length xs) Raw ++ l2]> (heap s)) s).
Proof.
  intros Hb Ho. unfold std.destroy_n. rewrite Nat2Z.id.
  apply destroy_loop_segment; assumption.
Qed.

Lemma Deallocate_block s b l :
  heap s !! b = Some l ->
  RawMemory.Deallocate (Ptr (Some b) 0) s = Ok tt (set_heap (delete b (heap s)) s).
Proof. intros Hb. unfold RawMemory.Deallocate. simpl. rewrite Hb. reflexivity. Qed.

Lemma holds_empty_storage xs k :
  (Live <$> xs) ++ replicate k (Raw (T := T)) = [] -> xs = [] /\ k = 0%nat.
Proof.
  intros H. apply app_eq_nil in H as [H1 H2].
  split; [destruct xs; [reflexivity | discriminate] | destruct k; [reflexivity | discriminate]].
Qed.

Lemma Reserve_enough s this xs k new_capacity :
  holds s this xs k -> new_capacity <= Z.of_nat (length xs + k) ->
  Vector.Reserve this new_capacity s = Ok tt s.
Proof.
  intros Hh Hle. unfold Vector.Reserve.
  rewrite (bind_Ok _ _ _ _ _ (holds_Capacity _ _ _ _ Hh)).
  destruct (Z.leb_spec new_capacity (Z.of_nat (length xs + k))); [reflexivity | lia].
Qed.

(** A growing [Reserve] whose request [operator new] refuses propagates
    [std::bad_alloc] from the state it was called in. *)
Lemma Reserve_refused s this xs k new_capacity :
  holds s this xs k -> Z.of_nat (length xs + k) < new_capacity ->
  bad_alloc s (size_t (new_capacity * sizeof_T)) = true ->
  Vector.Reserve this new_capacity s = Throw s.
Proof.
  intros Hh Hlt Hnew. pose proof (holds_Capacity _ _ _ _ Hh) as Hcap.
  unfold Vector.Reserve. rewrite (bind_Ok _ _ _ _ _ Hcap).
  destruct (Z.leb_spec new_capacity (Z.of_nat (length xs + k))); [lia |].
  apply bind_Throw. apply ctor_refused; [lia | exact Hnew].
Qed.

(** A growing [Reserve] whose request does not wrap and is granted. *)
Lemma Reserve_grows s this xs k new_capacity :
  holds s this xs k -> Z.of_nat (length xs + k) < new_capacity ->
  new_capacity * sizeof_T < 2 ^ 64 ->
  bad_alloc s (new_capacity * sizeof_T) = false ->
  exists s',
    Vector.Reserve this new_capacity s = Ok tt s' /\
    holds s' this xs (Z.to_nat new_capacity - length xs).
Proof.
  intros Hh Hlt0 Hfit Hnew. pose proof (holds_Capacity _ _ _ _ Hh) as Hcap.
  assert (Z.of_nat (length xs + k) < new_capacity < 2 ^ 64) as Hlt.
  { pose proof (sizeof_pos (T := T)). nia. }
  destruct Hh as ([d n] & Hv & Hsz & Hc & Hst). simpl in *. subst n.
  unfold Vector.Reserve. rewrite (bind_Ok _ _ _ _ _ Hcap).
  destruct (Z.leb_spec new_capacity (Z.of_nat (length xs + k))); [lia |].
  rewrite (bind_Ok _ _ _ _ _ (ctor_granted new_capacity s ltac:(lia) Hfit Hnew)).
  set (b' := fresh (dom (heap s))).
  assert (heap s !! b' = None) as Hfresh by apply fresh_block_unused.
  assert (replicate (Z.to_nat new_capacity) (Raw (T := T)) =
          replicate (length xs) Raw ++ replicate (Z.to_nat new_capacity - length xs) Raw) as Hrep.
  { rewrite <- replicate_add. f_equal. lia. }
  erewrite bind_Ok by (apply get_Ok; exact Hv). simpl.
  erewrite bind_Ok by (apply begin_Ok; exact Hv). simpl.
  apply storage_inv in Hst as [[-> Hnil] | (b & -> & Hb)].
  - apply holds_empty_storage in Hnil as [-> ->]. simpl.
    rewrite (bind_Ok _ _ _ _ _ (relocate_n_none _ _ _)).
    erewrite bind_Ok by (apply begin_Ok; exact Hv). simpl.
    erewrite (bind_Ok (std.destroy_n _ _)) by reflexivity.
    erewrite bind_Ok by (apply set_data_Ok; exact Hv). simpl.
    eexists. split; [reflexivity |].
    eexists. simpl. rewrite lookup_insert_eq. split; [reflexivity |].
    simpl. split; [reflexivity |]. split; [lia |].
    apply storage_block_eq; simpl.
    + rewrite lookup_insert_eq. f_equal. f_equal. lia.
    + rewrite length_replicate. lia.
  - simpl.
    assert (b <> b') as Hne by congruence.
    destruct (relocate_n_segment xs
                (set_heap (<[b' := replicate (Z.to_nat new_capacity) Raw]> (heap s)) s)
                b 0 [] (replicate k Raw) b' 0 [] (replicate (length xs) Raw)
                (replicate (Z.to_nat new_capacity - length xs) Raw))
      as (ys & Hys & Hrel); try reflexivity; try assumption.
    { simpl. rewrite lookup_insert_ne by congruence. exact Hb. }
    { simpl. rewrite lookup_insert_eq. f_equal. exact Hrep. }
    { apply length_replicate. }
    rewrite (bind_Ok _ _ _ _ _ Hrel). clear Hrel.
    erewrite bind_Ok by (apply begin_Ok; exact Hv). simpl.
    rewrite <- Hys.
    erewrite bind_Ok; cycle 1.
    { apply destroy_n_segment with (l1 := []) (l2 := replicate k Raw); [|reflexivity].
      simpl. rewrite lookup_insert_ne by congruence. rewrite lookup_insert_eq. reflexivity. }
    simpl.
    erewrite bind_Ok by (apply set_data_Ok; exact Hv). simpl.
    unfold RawMemory.dtor. simpl.
    erewrite Deallocate_block; cycle 1.
    { simpl. apply lookup_insert_eq. }
    eexists. split; [reflexivity |].
    eexists. simpl. rewrite lookup_insert_eq. split; [reflexivity |].
    simpl. split; [reflexivity |]. split; [lia |].
    apply storage_block_eq; simpl.
    + rewrite lookup_delete_ne by congruence. rewrite lookup_insert_ne by congruence.
      rewrite lookup_insert_eq. reflexivity.
    + rewrite length_app, length_fmap, length_replicate. lia.
Qed.
End Reserve.

(** ** Appending *)

Section Append.
Context {T Args : Type} {E : Element T Args} {P : Platform T}.
Implicit Types (s : state T) (l mid rest : list (slot T)) (xs : list T) (b : nat) (o : Z).
Implicit Types (d : RawMemory).

Lemma on_throw_Ok {A} (m : M T A) (c : M T unit) s a s' :
  m s = Ok a s' -> on_throw m c s = Ok a s'.
Proof. unfold on_throw. intros ->. reflexivity. Qed.

Lemma bind_bind {A B C} (m : M T A) (k1 : A -> M T B) (k2 : B -> M T C) s :
  bind (bind m k1) k2 s = bind m (fun a => bind (k1 a) k2) s.
Proof. unfold bind. destruct (m s); reflexivity. Qed.

Lemma make_Ok args x s : construct args = Some x -> Vector.make args s = Ok x s.
Proof. unfold Vector.make. intros ->. reflexivity. Qed.

Lemma placement_new_Ok p args x s :
  construct args = Some x -> Vector.placement_new p args s = construct_at p x s.
Proof.
  intros Hx. unfold Vector.placement_new. rewrite (bind_Ok _ _ _ _ _ (make_Ok _ _ _ Hx)).
  reflexivity.
Qed.

Lemma Deallocate_nullptr s : RawMemory.Deallocate nullptr s = Ok tt s.
Proof. reflexivity. Qed.

Lemma grown_split (m : nat) :
  Z.of_nat m < 2 ^ 63 ->
  replicate (Z.to_nat (grown (Z.of_nat m))) (Raw (T := T)) =
  replicate m Raw ++ Raw :: replicate (Z.to_nat (grown (Z.of_nat m)) - m - 1) Raw.
Proof.
  intros Hn. destruct (grown_bounds (Z.of_nat m)) as [Hlt _]; [lia |].
  change (Raw :: replicate (Z.to_nat (grown (Z.of_nat m)) - m - 1) Raw)
    with (replicate (S (Z.to_nat (grown (Z.of_nat m)) - m - 1)) (Raw (T := T))).
  rewrite <- replicate_add. f_equal. lia.
Qed.

(** Moving out of the old buffer: relocate every element into the block
    [b'], destroy the originals, adopt the new buffer and release the old
    one. *)
Lemma evacuate s this d xs k b' mid rest c' :
  objs s !! this = Some (MkVector d (Z.of_nat (length xs))) ->
  storage s d = Some ((Live <$> xs) ++ replicate k Raw) ->
  heap s !! b' = Some (mid ++ rest) -> length mid = length xs ->
  blk (buffer_ d) <> Some b' ->
  exists s',
    (Vector.relocate_n (buffer_ d) (Z.of_nat (length xs)) (Ptr (Some b') 0);;
     let* b := Vector.begin this in
     std.destroy_n b (Z.of_nat (length xs));;
     Vector.set_data this (MkRawMemory (Ptr (Some b') 0) c');;
     RawMemory.dtor (MkRawMemory (buffer_ d) (capacity_ d))) s = Ok tt s' /\
    objs s' = <[this := MkVector (MkRawMemory (Ptr (Some b') 0) c') (Z.of_nat (length xs))]> (objs s) /\
    heap s' !! b' = Some ((Live <$> xs) ++ rest).
Proof.
  intros Hv Hst Hb' Hlen Hne.
  apply storage_inv in Hst as [[-> Hnil] | (b & -> & Hb)].
  - apply holds_empty_storage in Hnil as [-> ->]. simpl in *.
    destruct mid; [|discriminate]. simpl in *.
    rewrite (bind_Ok _ _ _ _ _ (relocate_n_none _ _ _)).
    erewrite bind_Ok by (apply begin_Ok; exact Hv). simpl.
    erewrite (bind_Ok (std.destroy_n _ _)) by reflexivity.
    erewrite bind_Ok by (apply set_data_Ok; exact Hv). simpl.
    eexists. split; [reflexivity |]. simpl. split; [reflexivity | exact Hb'].
  - simpl in *. assert (b <> b') as Hbb by congruence.
    destruct (relocate_n_segment xs s b 0 [] (replicate k Raw) b' 0 [] mid rest)
      as (ys & Hys & Hrel); try reflexivity; try assumption.
    rewrite (bind_Ok _ _ _ _ _ Hrel). clear Hrel.
    erewrite bind_Ok by (apply begin_Ok; exact Hv). simpl.
    rewrite <- Hys.
    erewrite bind_Ok; cycle 1.
    { apply destroy_n_segment with (l1 := []) (l2 := replicate k Raw); [|reflexivity].
      simpl. rewrite lookup_insert_ne by congruence. rewrite lookup_insert_eq. reflexivity. }
    simpl.
    erewrite bind_Ok by (apply set_data_Ok; exact Hv). simpl.
    unfold RawMemory.dtor. simpl.
    erewrite Deallocate_block; cycle 1.
    { simpl. apply lookup_insert_eq. }
    eexists. split; [reflexivity |]. simpl. split; [rewrite Hys; reflexivity |].
    rewrite lookup_delete_ne by congruence. rewrite lookup_insert_ne by congruence.
    apply lookup_insert_eq.
Qed.

(** The end of every append: [++size_] and the reference returned. *)
Lemma append_finish s this d n :
  objs s !! this = Some (MkVector d n) -> 0 <= n -> n + 1 < 2 ^ 64 -> n < capacity_ d ->
  (let* v := Vector.get this in
   Vector.set_size this (size_t (size_ v + 1));;
   let* v0 := Vector.get this in
   RawMemory.op_index (data_ v0) (size_t (size_ v0 - 1))) s =
  Ok (buffer_ d +p n) (set_objs (<[this := MkVector d (n + 1)]> (objs s)) s).
Proof.
  intros Hv H0 Hn Hc.
  erewrite bind_Ok by (apply get_Ok; exact Hv). simpl.
  erewrite bind_Ok by (apply set_size_Ok; exact Hv). simpl.
  rewrite (size_t_small (n + 1)) by lia.
  erewrite bind_Ok by (apply get_Ok; simpl; apply lookup_insert_eq). simpl.
  replace (n + 1 - 1) with n by lia. rewrite (size_t_small n) by lia.
  apply op_index_Ok. exact Hc.
Qed.

Lemma EmplaceBack_spare s this xs k args x :
  holds s this xs (S k) -> construct args = Some x ->
  exists s' b,
    Vector.EmplaceBack this args s = Ok (Ptr (Some b) (Z.of_nat (length xs))) s' /\
    holds s' this (xs ++ [x]) k /\
    Vector.begin this s' = Ok (Ptr (Some b) 0) s'.
Proof.
  intros Hh Hx. pose proof (holds_Capacity _ _ _ _ Hh) as Hcap.
  destruct Hh as ([d n] & Hv & Hsz & Hc & Hst). simpl in *. subst n.
  apply storage_inv in Hst as [[-> Hnil] | (b & -> & Hb)].
  { apply app_eq_nil in Hnil as [_ [=]]. }
  assert (Z.of_nat (length xs + S k) < 2 ^ 64) as Hc'.
  { revert Hc. simpl. solve_length. }
  unfold Vector.EmplaceBack.
  erewrite bind_Ok by (apply get_Ok; exact Hv). simpl.
  rewrite (bind_Ok _ _ _ _ _ Hcap).
  destruct (Z.eqb_spec (Z.of_nat (length xs)) (Z.of_nat (length xs + S k))); [lia |].
  rewrite bind_bind.
  erewrite bind_Ok by (apply op_index_Ok; simpl; solve_length). unfold ptr_add. simpl.
  erewrite bind_Ok; cycle 1.
  { rewrite (placement_new_Ok _ _ _ _ Hx).
    apply construct_at_middle with (x := Raw); [exact Hb | solve_length]. }
  erewrite append_finish; cycle 1.
  { exact Hv. }
  { lia. }
  { lia. }
  { simpl. solve_length. }
  eexists _, b. split; [unfold ptr_add; simpl; reflexivity |].
  split.
  - eexists. simpl. rewrite lookup_insert_eq. split; [reflexivity |]. simpl.
    split; [solve_length |]. split; [solve_length |].
    apply storage_block_eq; simpl.
    + rewrite lookup_insert_eq, fmap_app, <- app_assoc. reflexivity.
    + solve_length.
  - erewrite begin_Ok by (simpl; apply lookup_insert_eq). reflexivity.
Qed.
End Append.

(** ** Appending with reallocation

    On the platform [unbounded]. *)

Section Growing.
Context {T Args : Type} {E : Element T Args}.
Implicit Types (s : state T) (l mid rest : list (slot T)) (xs : list T) (b : nat) (o : Z).
Implicit Types (d : RawMemory).

Lemma EmplaceBack_grow s this xs args x :
  holds s this xs 0 -> construct args = Some x -> Z.of_nat (length xs) < 2 ^ 63 ->
  exists s' b',
    Vector.EmplaceBack this args s = Ok (Ptr (Some b') (Z.of_nat (length xs))) s' /\
    holds s' this (xs ++ [x]) (Z.to_nat (grown (Z.of_nat (length xs))) - length xs - 1) /\
    Vector.begin this s' = Ok (Ptr (Some b') 0) s'.
Proof.
  intros Hh Hx Hlen. pose proof (holds_Capacity _ _ _ _ Hh) as Hcap.
  rewrite Nat.add_0_r in Hcap.
  destruct Hh as ([d n] & Hv & Hsz & Hc & Hst). simpl in *. subst n.
  destruct (grown_bounds (Z.of_nat (length xs))) as [Hg Hgmax]; [lia |].
  pose proof (grown_split (T := T) (length xs) Hlen) as Hrep.
  remember (grown (Z.of_nat (length xs))) as g eqn:Heqg.
  assert (g < 2 ^ 64) as Hg64.
  { rewrite Hgmax. change (2 ^ 64) with (2 * 2 ^ 63). lia. }
  unfold Vector.EmplaceBack.
  erewrite bind_Ok by (apply get_Ok; exact Hv). simpl.
  rewrite (bind_Ok _ _ _ _ _ Hcap). rewrite Z.eqb_refl.
  fold (grown (Z.of_nat (length xs))). rewrite <- Heqg.
  set (b' := fresh (dom (heap s))).
  assert (heap s !! b' = None) as Hfresh by apply fresh_block_unused.
  set (s1 := set_heap (<[b' := replicate (Z.to_nat g) Raw]> (heap s)) s).
  assert (RawMemory.ctor g s = Ok (MkRawMemory (Ptr (Some b') 0) g) s1) as Hctor.
  { apply ctor_Ok. lia. }
  assert (heap s1 !! b' = Some (replicate (length xs) Raw ++ Raw ::
            replicate (Z.to_nat g - length xs - 1) Raw)) as Hb1.
  { simpl. rewrite lookup_insert_eq. f_equal. exact Hrep. }
  set (s2 := set_heap (<[b' := replicate (length xs) Raw ++ Live x ::
            replicate (Z.to_nat g - length xs - 1) Raw]> (heap s1)) s1).
  assert (on_throw
            (let* p := RawMemory.op_index (MkRawMemory (Ptr (Some b') 0) g)
                         (Z.of_nat (length xs)) in
             Vector.placement_new p args)
            (RawMemory.dtor (MkRawMemory (Ptr (Some b') 0) g)) s1 = Ok tt s2) as Hnew.
  { apply on_throw_Ok. erewrite bind_Ok by (apply op_index_Ok; simpl; lia).
    rewrite (placement_new_Ok _ _ _ _ Hx). unfold ptr_add. simpl.
    apply construct_at_middle with (x := Raw); [exact Hb1 |].
    rewrite length_replicate. reflexivity. }
  assert (objs s2 !! this = Some (MkVector d (Z.of_nat (length xs)))) as Hv2 by exact Hv.
  rewrite bind_bind. rewrite (bind_Ok _ _ _ _ _ Hctor).
  rewrite bind_bind. rewrite (bind_Ok _ _ _ _ _ Hnew).
  rewrite bind_bind. erewrite bind_Ok by (apply begin_Ok; exact Hv2). simpl.
  destruct (evacuate s2 this d xs 0 b' (replicate (length xs) Raw)
              (Live x :: replicate (Z.to_nat g - length xs - 1) Raw) g)
    as (s3 & Hev & Hobjs3 & Hheap3).
  { exact Hv2. }
  { etransitivity; [|exact Hst]. apply storage_ext. intros b Hb. simpl.
    assert (b <> b') as Hbb.
    { intros ->. apply (storage_allocated _ _ _ _ Hst Hb). exact Hfresh. }
    rewrite !lookup_insert_ne by congruence. reflexivity. }
  { simpl. apply lookup_insert_eq. }
  { apply length_replicate. }
  { intros Hb. apply (storage_allocated _ _ _ _ Hst Hb). exact Hfresh. }
  rewrite (bind_Ok _ _ _ _ _ Hev).
  erewrite append_finish; cycle 1.
  { rewrite Hobjs3. apply lookup_insert_eq. }
  { lia. }
  { lia. }
  { simpl. lia. }
  exists (set_objs (<[this := MkVector (MkRawMemory (Ptr (Some b') 0) g)
                                        (Z.of_nat (length xs) + 1)]> (objs s3)) s3), b'.
  split; [unfold ptr_add; simpl; reflexivity |].
  split.
  - eexists. simpl. rewrite lookup_insert_eq. split; [reflexivity |]. simpl.
    split; [rewrite length_app; simpl; lia |]. split; [lia |].
    apply storage_block_eq; simpl.
    + rewrite Hheap3, fmap_app, <- app_assoc. reflexivity.
    + solve_length.
  - erewrite begin_Ok by (simpl; apply lookup_insert_eq). reflexivity.
Qed.

(** An append to a vector that satisfies the invariant: the new element is
    added at the end, and the capacity is doubled exactly when there was no
    spare slot. *)
Lemma EmplaceBack_holds s this xs k args x :
  holds s this xs k -> construct args = Some x -> Z.of_nat (length xs) < 2 ^ 63 ->
  exists s' b k',
    Vector.EmplaceBack this args s = Ok (Ptr (Some b) (Z.of_nat (length xs))) s' /\
    holds s' this (xs ++ [x]) k' /\
    Vector.begin this s' = Ok (Ptr (Some b) 0) s' /\
    Z.of_nat (length xs + 1 + k') =
      (if (k =? 0)%nat then Z.max 1 (2 * Z.of_nat (length xs)) else Z.of_nat (length xs + k)).
Proof.
  intros Hh Hx Hlen. destruct k as [|k].
  - destruct (EmplaceBack_grow s this xs args x Hh Hx Hlen) as (s' & b & HE & Hh' & Hb).
    exists s', b, (Z.to_nat (grown (Z.of_nat (length xs))) - length xs - 1)%nat.
    repeat split; try assumption. simpl.
    destruct (grown_bounds (Z.of_nat (length xs))) as [Hg Hgmax]; [lia |]. lia.
  - destruct (EmplaceBack_spare s this xs k args x Hh Hx) as (s' & b & HE & Hh' & Hb).
    exists s', b, k. repeat split; try assumption. simpl. lia.
Qed.

Lemma PushBack_holds s this xs k value x :
  holds s this xs k -> construct value = Some x -> Z.of_nat (length xs) < 2 ^ 63 ->
  exists s' k',
    Vector.PushBack this value s = Ok tt s' /\
    holds s' this (xs ++ [x]) k' /\
    Z.of_nat (length xs + 1 + k') =
      (if (k =? 0)%nat then Z.max 1 (2 * Z.of_nat (length xs)) else Z.of_nat (length xs + k)).
Proof.
  intros Hh Hx Hlen.
  destruct (EmplaceBack_holds s this xs k value x Hh Hx Hlen) as (s' & b & k' & HE & Hh' & _ & Hk).
  exists s', k'. unfold Vector.PushBack. rewrite (bind_Ok _ _ _ _ _ HE). auto.
Qed.

Lemma push_all_holds values : forall s this xs0 k xs,
  holds s this xs0 k -> mapM construct values = Some xs ->
  Z.of_nat (length xs0 + length values) <= 2 ^ 63 ->
  exists s' k',
    push_all this values s = Ok tt s' /\ holds s' this (xs0 ++ xs) k'.
Proof.
  induction values as [|value values IH]; intros s this xs0 k xs Hh Hm Hlen.
  - injection Hm as <-. exists s, k. rewrite app_nil_r. split; [reflexivity | exact Hh].
  - rewrite mapM_Some in Hm. inversion Hm as [|? x ? xs' Hx Hm']; subst.
    apply mapM_Some in Hm'. simpl in Hlen.
    destruct (PushBack_holds s this xs0 k value x Hh Hx) as (s1 & k1 & HP & Hh1 & _); [lia |].
    destruct (IH s1 this (xs0 ++ [x]) k1 xs' Hh1 Hm') as (s' & k' & HA & Hh').
    { rewrite length_app. simpl. lia. }
    exists s', k'. simpl. rewrite (bind_Ok _ _ _ _ _ HP).
    split; [exact HA |]. rewrite <- app_assoc in Hh'. exact Hh'.
Qed.

Lemma ctor_default_holds s this :
  exists s', Vector.ctor_default this s = Ok tt s' /\ holds s' this [] 0.
Proof.
  eexists. split; [reflexivity |]. eexists. simpl. rewrite lookup_insert_eq.
  split; [reflexivity |]. simpl. split; [reflexivity |]. split; [lia | reflexivity].
Qed.

(** C5. Any [N] appends to a default-constructed vector (with [N] below
    2^63, so that doubling stays inside [size_t]) return; afterwards
    [Size()] is [N] and [Capacity()] is at least [N]; and the append that
    follows them leaves the capacity alone when there is a spare slot and
    makes it [max(1, 2 * Capacity())] when there is none. *)
Theorem appends_size_and_capacity (this : nat) (values : list Args) (xs : list T) (s : state T) :
  mapM construct values = Some xs ->
  Z.of_nat (length values) < 2 ^ 63 ->
  exists s' c,
    (Vector.ctor_default this;; push_all this values) s = Ok tt s' /\
    Vector.Size this s' = Ok (Z.of_nat (length values)) s' /\
    Vector.Capacity this s' = Ok c s' /\
    Z.of_nat (length values) <= c /\
    contents s' this = Some xs /\
    forall value x, construct value = Some x ->
      exists s'' c',
        Vector.PushBack this value s' = Ok tt s'' /\
        Vector.Size this s'' = Ok (Z.of_nat (length values) + 1) s'' /\
        Vector.Capacity this s'' = Ok c' s'' /\
        c' = (if Z.of_nat (length values) =? c then Z.max 1 (2 * c) else c).
Proof.
  intros Hm Hlen.
  destruct (ctor_default_holds s this) as (s0 & Hctor & Hh0).
  destruct (push_all_holds values s0 this [] 0%nat xs Hh0 Hm) as (s' & k & Hrun & Hh);
    [simpl; lia |].
  simpl in Hh.
  assert (length xs = length values) as Hxs.
  { apply mapM_Some, Forall2_length in Hm. congruence. }
  exists s', (Z.of_nat (length xs + k)).
  split; [rewrite (bind_Ok _ _ _ _ _ Hctor); exact Hrun |].
  split; [rewrite <- Hxs; apply (holds_Size _ _ _ _ Hh) |].
  split; [apply (holds_Capacity _ _ _ _ Hh) |].
  split; [lia |].
  split; [apply contents_holds; eauto |].
  intros value x Hx.
  destruct (PushBack_holds s' this xs k value x Hh Hx) as (s'' & k' & HP & Hh' & Hk); [lia |].
  exists s'', (Z.of_nat (length xs + 1 + k')).
  split; [exact HP |].
  split.
  { rewrite <- Hxs. pose proof (holds_Size _ _ _ _ Hh') as HS.
    rewrite length_app in HS. simpl in HS.
    replace (Z.of_nat (length xs) + 1) with (Z.of_nat (length xs + 1)) by lia. exact HS. }
  split.
  { pose proof (holds_Capacity _ _ _ _ Hh') as HC.
    rewrite length_app in HC. simpl in HC. exact HC. }
  rewrite Hk, <- Hxs. destruct k as [|k]; simpl.
  - rewrite Nat.add_0_r, Z.eqb_refl. reflexivity.
  - destruct (Z.eqb_spec (Z.of_nat (length xs)) (Z.of_nat (length xs + S k))); [lia | reflexivity].
Qed.
End Growing.

(** ** Erasing *)

Section Erase.
Context {T Args : Type} {E : Element T Args} {P : Platform T}.
Implicit Types (s : state T) (l mid rest : list (slot T)) (xs pre post : list T) (b : nat) (o : Z).
Implicit Types (d : RawMemory).

(** A non-empty vector that satisfies the invariant owns a block. *)
Lemma holds_block s this xs k :
  holds s this xs k -> (0 < length xs + k)%nat ->
  exists b,
    objs s !! this =
      Some (MkVector (MkRawMemory (Ptr (Some b) 0) (Z.of_nat (length xs + k)))
                     (Z.of_nat (length xs))) /\
    heap s !! b = Some ((Live <$> xs) ++ replicate k Raw) /\
    Z.of_nat (length xs + k) < 2 ^ 64.
Proof.
  intros ([d n] & Hv & Hsz & Hc & Hst) Hpos. simpl in *. subst n.
  apply storage_inv in Hst as [[-> Hnil] | (b & -> & Hb)].
  - apply holds_empty_storage in Hnil as [-> ->]. simpl in Hpos. lia.
  - exists b. simpl in Hc. revert Hc Hv. rewrite length_app, length_fmap, length_replicate.
    intros Hc Hv. auto.
Qed.

Lemma holds_intro s this xs k b :
  objs s !! this =
    Some (MkVector (MkRawMemory (Ptr (Some b) 0) (Z.of_nat (length xs + k)))
                   (Z.of_nat (length xs))) ->
  heap s !! b = Some ((Live <$> xs) ++ replicate k Raw) ->
  Z.of_nat (length xs + k) < 2 ^ 64 ->
  holds s this xs k.
Proof.
  intros Hv Hb Hc. eexists. split; [exact Hv |]. simpl.
  split; [reflexivity |]. split; [exact Hc |].
  apply storage_block_eq; [exact Hb | solve_length].
Qed.

Lemma move_Ok first last d_first n s :
  blk last = blk first -> off last - off first = Z.of_nat n ->
  std.move first last d_first s = std.move_range_loop first n d_first s.
Proof.
  intros Hblk Hoff. unfold std.move, ptr_diff.
  rewrite bool_decide_eq_true_2 by exact Hblk.
  unfold bind at 1. unfold ret at 1. rewrite Hoff.
  destruct (Z.leb_spec 0 (Z.of_nat n)); [|lia].
  unfold bind at 1. simpl. rewrite Nat2Z.id. reflexivity.
Qed.

Lemma move_backward_Ok first last d_last n s :
  blk last = blk first -> off last - off first = Z.of_nat n ->
  std.move_backward first last d_last s = std.move_backward_loop last n d_last s.
Proof.
  intros Hblk Hoff. unfold std.move_backward, ptr_diff.
  rewrite bool_decide_eq_true_2 by exact Hblk.
  unfold bind at 1. unfold ret at 1. rewrite Hoff.
  destruct (Z.leb_spec 0 (Z.of_nat n)); [|lia].
  unfold bind at 1. simpl. rewrite Nat2Z.id. reflexivity.
Qed.

Lemma ptr_diff_Ok (p q : ptr) s :
  blk p = blk q -> ptr_diff (T := T) p q s = Ok (off p - off q) s.
Proof. intros H. unfold ptr_diff. rewrite bool_decide_eq_true_2 by exact H. reflexivity. Qed.

Lemma Erase_holds s this pre y post k p0 :
  holds s this (pre ++ y :: post) k ->
  Vector.begin this s = Ok p0 s ->
  exists s',
    Vector.Erase this (p0 +p Z.of_nat (length pre)) s = Ok (p0 +p Z.of_nat (length pre)) s' /\
    holds s' this (pre ++ post) (S k).
Proof.
  intros Hh Hbegin.
  destruct (holds_block _ _ _ _ Hh) as (b & Hv & Hb & Hc); [solve_length |].
  rewrite (begin_Ok _ _ _ Hv) in Hbegin. injection Hbegin as <-. simpl.
  assert (length (pre ++ y :: post) = S (length pre + length post)) as Hlen by solve_length.
  rewrite Hlen in *.
  unfold Vector.Erase, Vector.cbegin.
  erewrite bind_Ok by (apply begin_Ok; exact Hv).
  erewrite bind_Ok by (apply ptr_diff_Ok; reflexivity).
  erewrite bind_Ok by (apply begin_Ok; exact Hv).
  erewrite bind_Ok by (apply end_Ok; [exact Hv | simpl; lia]).
  unfold ptr_add. simpl.
  replace (0 + Z.of_nat (length pre) - 0) with (Z.of_nat (length pre)) by lia.
  rewrite fmap_app in Hb. simpl in Hb. rewrite <- app_assoc in Hb. simpl in Hb.
  destruct (move_range_loop_shift post s b (Z.of_nat (length (Live <$> pre)))
              (Live <$> pre) y (replicate k Raw) Hb eq_refl) as (z & Hz).
  rewrite length_fmap in Hz.
  erewrite bind_Ok; cycle 1.
  { erewrite move_Ok with (n := length post); [| reflexivity | simpl; lia].
    replace (0 + Z.of_nat (length pre)) with (Z.of_nat (length pre)) by lia.
    exact Hz. }
  erewrite bind_Ok by (apply end_Ok; [exact Hv | simpl; lia]).
  unfold ptr_add. simpl.
  erewrite bind_Ok; cycle 1.
  { apply (destroy_n_segment [z]) with (l1 := (Live <$> pre) ++ (Live <$> post))
                                       (l2 := replicate k Raw).
    - simpl. rewrite lookup_insert_eq, <- app_assoc. reflexivity.
    - solve_length. }
  erewrite bind_Ok by (apply get_Ok; exact Hv). simpl.
  erewrite bind_Ok by (apply set_size_Ok; exact Hv). simpl.
  eexists. split; [reflexivity |].
  apply holds_intro with (b := b); simpl.
  - rewrite lookup_insert_eq. f_equal. f_equal; [f_equal; solve_length |].
    rewrite size_t_small by lia. solve_length.
  - rewrite lookup_insert_eq, fmap_app, <- app_assoc. reflexivity.
  - revert Hc. solve_length.
Qed.
End Erase.

(** ** Emplacing *)

Section Emplace.
Context {T Args : Type} {E : Element T Args} {P : Platform T}.
Implicit Types (s : state T) (l mid rest : list (slot T)) (xs pre post : list T) (b : nat) (o : Z).
Implicit Types (d : RawMemory).


Lemma holds_end s this xs k p0 :
  holds s this xs k -> Vector.begin this s = Ok p0 s ->
  Vector.end_ this s = Ok (p0 +p Z.of_nat (length xs)) s.
Proof.
  intros Hh Hbegin. pose proof (holds_Capacity _ _ _ _ Hh) as Hcap.
  apply Capacity_Ok in Hcap as (v & Hv & Hcap).
  destruct Hh as (v' & Hv' & Hsz & _). assert (v' = v) as -> by congruence.
  rewrite (begin_Ok _ _ _ Hv) in Hbegin. injection Hbegin as <-.
  rewrite <- Hsz. apply end_Ok; [exact Hv | lia].
Qed.

Lemma ptr_eqb_refl (p : ptr) : ptr_eqb p p = true.
Proof. unfold ptr_eqb. rewrite bool_decide_eq_true_2 by reflexivity. apply Z.eqb_refl. Qed.

Lemma ptr_eqb_offset (p : ptr) i j : i <> j -> ptr_eqb (p +p i) (p +p j) = false.
Proof.
  intros Hne. unfold ptr_eqb, ptr_add. simpl.
  destruct (Z.eqb_spec (off p + i) (off p + j)); [lia |]. apply andb_false_r.
Qed.

(** Emplacing before [end()] when there is a spare slot: the tail is
    shifted one slot to the right inside the buffer. *)
Lemma Emplace_spare s this pre mids last k args x p0 :
  holds s this (pre ++ mids ++ [last]) (S k) -> construct args = Some x ->
  Vector.begin this s = Ok p0 s ->
  exists s',
    Vector.Emplace this (p0 +p Z.of_nat (length pre)) args s =
      Ok (p0 +p Z.of_nat (length pre)) s' /\
    holds s' this (pre ++ x :: mids ++ [last]) k /\
    Vector.begin this s' = Ok p0 s'.
Proof.
  intros Hh Hx Hbegin.
  pose proof (holds_end _ _ _ _ _ Hh Hbegin) as Hend.
  pose proof (holds_Capacity _ _ _ _ Hh) as Hcap.
  destruct (holds_block _ _ _ _ Hh) as (b & Hv & Hb & Hc); [solve_length |].
  rewrite (begin_Ok _ _ _ Hv) in Hbegin. injection Hbegin as <-. simpl in Hend.
  assert (length (pre ++ mids ++ [last]) = S (length pre + length mids)) as Hlen
    by solve_length.
  rewrite Hlen in *.
  set (n := Z.of_nat (S (length pre + length mids))) in *.
  unfold Vector.Emplace, Vector.cbegin, Vector.cend.
  erewrite bind_Ok by (apply begin_Ok; exact Hv).
  erewrite bind_Ok by (apply ptr_diff_Ok; reflexivity).
  rewrite (bind_Ok _ _ _ _ _ Hend).
  rewrite ptr_eqb_offset by lia.
  erewrite bind_Ok by (apply get_Ok; exact Hv).
  rewrite (bind_Ok _ _ _ _ _ Hcap). cbn [size_ data_].
  destruct (Z.eqb_spec n (Z.of_nat (S (length pre + length mids) + S k))); [lia |].
  erewrite bind_Ok by (apply begin_Ok; exact Hv).
  rewrite (bind_Ok _ _ _ _ _ (make_Ok _ _ _ Hx)).
  erewrite bind_Ok by (apply op_index_Ok; simpl; lia).
  rewrite (bind_Ok _ _ _ _ _ Hend).
  unfold ptr_add. simpl.
  replace (0 + Z.of_nat (length pre) - 0) with (Z.of_nat (length pre)) by lia.
  rewrite size_t_small by lia.
  rewrite !fmap_app in Hb. simpl in Hb. rewrite <- !app_assoc in Hb. simpl in Hb.
  erewrite bind_Ok; cycle 1.
  { apply take_middle with (l1 := (Live <$> pre) ++ (Live <$> mids)) (x := last)
                           (l2 := Raw :: replicate k Raw).
    - rewrite <- app_assoc. exact Hb.
    - solve_length. }
  erewrite bind_Ok; cycle 1.
  { apply construct_at_middle
      with (l1 := ((Live <$> pre) ++ (Live <$> mids)) ++ [Live (moved_from last)])
           (x := Raw) (l2 := replicate k Raw).
    - simpl. rewrite lookup_insert_eq, <- !app_assoc. reflexivity.
    - solve_length. }
  erewrite bind_Ok by (apply end_Ok; [exact Hv | simpl; lia]).
  unfold ptr_add. simpl.
  match goal with |- exists s', bind _ _ ?st = _ /\ _ => set (s2 := st) end.
  assert (heap s2 !! b =
          Some ((Live <$> pre) ++ (Live <$> mids) ++
                Live (moved_from last) :: Live last :: replicate k Raw)) as Hb2.
  { unfold s2. simpl. rewrite lookup_insert_eq, <- !app_assoc. reflexivity. }
  assert (objs s2 !! this =
          Some (MkVector (MkRawMemory (Ptr (Some b) 0)
                                      (Z.of_nat (S (length pre + length mids) + S k))) n))
    as Hv2 by exact Hv.
  clearbody s2.
  destruct (move_backward_loop_shift mids s2 b (Z.of_nat (length pre + length mids))
              (Live <$> pre) (moved_from last) (Live last :: replicate k Raw) Hb2)
    as [z Hz]; [solve_length |].
  erewrite bind_Ok; cycle 1.
  { erewrite move_backward_Ok with (n := length mids); [| reflexivity | simpl; lia].
    replace (0 + n + -1) with (Z.of_nat (length pre + length mids)) by lia.
    replace (0 + n) with (Z.of_nat (length pre + length mids) + 1) by lia.
    exact Hz. }
  erewrite bind_Ok by (apply op_index_Ok; simpl; lia).
  unfold ptr_add. simpl.
  erewrite bind_Ok; cycle 1.
  { apply assign_middle with (l1 := Live <$> pre) (x := z)
                             (l2 := (Live <$> mids) ++ Live last :: replicate k Raw);
      [simpl; apply lookup_insert_eq | solve_length]. }
  erewrite bind_Ok by (apply set_size_Ok; exact Hv2).
  eexists. split; [reflexivity |]. split.
  - apply holds_intro with (b := b); simpl.
    + rewrite lookup_insert_eq. f_equal. f_equal; [f_equal; solve_length |].
      rewrite size_t_small by lia. solve_length.
    + rewrite lookup_insert_eq. norm_lists. reflexivity.
    + revert Hc. solve_length.
  - erewrite begin_Ok by (simpl; apply lookup_insert_eq). reflexivity.
Qed.
End Emplace.

(** ** Emplacing at the end and with reallocation

    On the platform [unbounded]. *)

Section EmplaceGrowing.
Context {T Args : Type} {E : Element T Args}.
Implicit Types (s : state T) (l mid rest : list (slot T)) (xs pre post : list T) (b : nat) (o : Z).
Implicit Types (d : RawMemory).

(** Closes a goal [exists s' b' k', run = Ok p s' /\ holds _ /\ begin _]
    once the run has been evaluated. *)
Ltac exists_holds new_block spare :=
  eexists _, new_block, spare; split; [reflexivity |]; split;
  [ apply holds_intro with (b := new_block); simpl
  | erewrite begin_Ok by (simpl; rewrite ?lookup_insert_eq; reflexivity); reflexivity ].

(** Emplacing at [end()] is an append. *)
Lemma Emplace_at_end s this xs k args x p0 :
  holds s this xs k -> construct args = Some x -> Z.of_nat (length xs) < 2 ^ 63 ->
  Vector.begin this s = Ok p0 s ->
  exists s' b' k',
    Vector.Emplace this (p0 +p Z.of_nat (length xs)) args s =
      Ok (Ptr (Some b') (Z.of_nat (length xs))) s' /\
    holds s' this (xs ++ [x]) k' /\
    Vector.begin this s' = Ok (Ptr (Some b') 0) s'.
Proof.
  intros Hh Hx Hlen Hbegin.
  destruct (EmplaceBack_holds s this xs k args x Hh Hx Hlen)
    as (s' & b' & k' & HE & Hh' & Hbegin' & _).
  exists s', b', k'. split; [|split; assumption].
  unfold Vector.Emplace, Vector.cbegin, Vector.cend.
  rewrite (bind_Ok _ _ _ _ _ Hbegin).
  erewrite bind_Ok by (apply ptr_diff_Ok; reflexivity).
  rewrite (bind_Ok _ _ _ _ _ (holds_end _ _ _ _ _ Hh Hbegin)).
  rewrite ptr_eqb_refl.
  rewrite (bind_Ok _ _ _ _ _ HE).
  rewrite (bind_Ok _ _ _ _ _ (holds_end _ _ _ _ _ Hh' Hbegin')).
  unfold ret, ptr_add. simpl. f_equal. f_equal. solve_length.
Qed.

(** Emplacing before [end()] when the buffer is full: the new element is
    constructed in a new buffer and the old elements are relocated around
    it. *)
Lemma Emplace_grow s this pre post args x p0 :
  holds s this (pre ++ post) 0 -> post <> [] -> construct args = Some x ->
  Z.of_nat (length (pre ++ post)) < 2 ^ 63 ->
  Vector.begin this s = Ok p0 s ->
  exists s' b' k',
    Vector.Emplace this (p0 +p Z.of_nat (length pre)) args s =
      Ok (Ptr (Some b') (Z.of_nat (length pre))) s' /\
    holds s' this (pre ++ x :: post) k' /\
    Vector.begin this s' = Ok (Ptr (Some b') 0) s'.
Proof.
  intros Hh Hpost Hx Hlen Hbegin.
  pose proof (holds_end _ _ _ _ _ Hh Hbegin) as Hend.
  pose proof (holds_Capacity _ _ _ _ Hh) as Hcap.
  assert (0 < length post)%nat as Hpos by (destruct post; [congruence | simpl; lia]).
  destruct (holds_block _ _ _ _ Hh) as (b & Hv & Hb & Hc); [solve_length |].
  rewrite (begin_Ok _ _ _ Hv) in Hbegin. injection Hbegin as <-. simpl in Hend.
  assert (length (pre ++ post) = (length pre + length post)%nat) as Hl by solve_length.
  rewrite Hl, Nat.add_0_r in *. clear Hl.
  destruct (grown_bounds (Z.of_nat (length pre + length post))) as [Hg Hgmax]; [lia |].
  remember (grown (Z.of_nat (length pre + length post))) as g eqn:Heqg.
  assert (g < 2 ^ 64) as Hg64.
  { rewrite Hgmax. change (2 ^ 64) with (2 * 2 ^ 63). lia. }
  unfold Vector.Emplace, Vector.cbegin, Vector.cend.
  erewrite bind_Ok by (apply begin_Ok; exact Hv).
  erewrite bind_Ok by (apply ptr_diff_Ok; reflexivity).
  rewrite (bind_Ok _ _ _ _ _ Hend).
  rewrite ptr_eqb_offset by lia.
  erewrite bind_Ok by (apply get_Ok; exact Hv).
  rewrite (bind_Ok _ _ _ _ _ Hcap). cbn [size_ data_].
  rewrite Z.eqb_refl.
  fold (grown (Z.of_nat (length pre + length post))). rewrite <- Heqg.
  unfold ptr_add. simpl.
  replace (0 + Z.of_nat (length pre) - 0) with (Z.of_nat (length pre)) by lia.
  rewrite (size_t_small (Z.of_nat (length pre))) by lia.
  replace (size_t (Z.of_nat (length pre + length post) - Z.of_nat (length pre)))
    with (Z.of_nat (length post)) by (rewrite size_t_small; lia).
  rewrite (size_t_small (Z.of_nat (length pre + length post) + 1)) by lia.
  set (b' := fresh (dom (heap s))).
  assert (heap s !! b' = None) as Hfresh by apply fresh_block_unused.
  assert (b <> b') as Hbb by congruence.
  erewrite bind_Ok by (apply ctor_Ok; lia). fold b'.
  assert (replicate (Z.to_nat g) (Raw (T := T)) =
          replicate (length pre) Raw ++ Raw :: replicate (length post) Raw ++
          replicate (Z.to_nat g - (length pre + length post) - 1) Raw) as Hrep.
  { change (Raw :: replicate (length post) Raw ++
            replicate (Z.to_nat g - (length pre + length post) - 1) Raw)
      with (replicate 1 (Raw (T := T)) ++ replicate (length post) Raw ++
            replicate (Z.to_nat g - (length pre + length post) - 1) Raw).
    rewrite <- !replicate_add. f_equal. lia. }
  rewrite Hrep.
  erewrite bind_Ok; cycle 1.
  { apply on_throw_Ok.
    erewrite bind_Ok by (apply op_index_Ok; simpl; lia).
    erewrite bind_Ok; [reflexivity |].
    rewrite (placement_new_Ok _ _ _ _ Hx). unfold ptr_add. simpl.
    apply construct_at_middle with (x := Raw); [simpl; apply lookup_insert_eq | solve_length]. }
  match goal with |- exists s' b'0 k', bind _ _ ?st = _ /\ _ => set (s2 := st) end.
  assert (heap s2 !! b' =
          Some ([] ++ replicate (length pre) Raw ++ Live x :: replicate (length post) Raw ++
                replicate (Z.to_nat g - (length pre + length post) - 1) Raw)) as Hb2'.
  { unfold s2. simpl. rewrite lookup_insert_eq. reflexivity. }
  assert (heap s2 !! b = Some ([] ++ (Live <$> pre) ++ (Live <$> post))) as Hb2.
  { unfold s2. simpl. rewrite !lookup_insert_ne by congruence.
    rewrite Hb, app_nil_r, fmap_app. reflexivity. }
  assert (objs s2 !! this =
          Some (MkVector (MkRawMemory (Ptr (Some b) 0) (Z.of_nat (length pre + length post)))
                         (Z.of_nat (length pre + length post)))) as Hv2 by exact Hv.
  clearbody s2.
  erewrite bind_Ok by (apply begin_Ok; exact Hv2). simpl.
  destruct (relocate_n_segment pre s2 b 0 [] (Live <$> post) b' 0 []
              (replicate (length pre) Raw)
              (Live x :: replicate (length post) Raw ++
               replicate (Z.to_nat g - (length pre + length post) - 1) Raw)
              Hbb Hb2 eq_refl Hb2' eq_refl)
    as (ys1 & Hys1 & Hrel1); [solve_length |].
  rewrite (bind_Ok _ _ _ _ _ Hrel1). clear Hrel1.
  match goal with |- exists s' b'0 k', bind _ _ ?st = _ /\ _ => set (s3 := st) end.
  assert (heap s3 !! b' =
          Some (((Live <$> pre) ++ [Live x]) ++ replicate (length post) Raw ++
                replicate (Z.to_nat g - (length pre + length post) - 1) Raw)) as Hb3'.
  { unfold s3. simpl. rewrite lookup_insert_eq. norm_lists. reflexivity. }
  assert (heap s3 !! b = Some ((Live <$> ys1) ++ (Live <$> post) ++ [])) as Hb3.
  { unfold s3. simpl. rewrite lookup_insert_ne by congruence.
    rewrite lookup_insert_eq, app_nil_r. reflexivity. }
  assert (objs s3 !! this =
          Some (MkVector (MkRawMemory (Ptr (Some b) 0) (Z.of_nat (length pre + length post)))
                         (Z.of_nat (length pre + length post)))) as Hv3 by exact Hv2.
  clearbody s3.
  erewrite bind_Ok by (apply begin_Ok; exact Hv3). simpl.
  unfold RawMemory.op_plus at 1. simpl.
  destruct (Z.leb_spec (Z.of_nat (length pre)) g); [|lia].
  rewrite bind_bind. rewrite (bind_Ok _ _ _ _ _ (assert_true s3)).
  unfold ret at 1. unfold bind at 1. unfold ptr_add. simpl.
  destruct (relocate_n_segment post s3 b (0 + Z.of_nat (length pre)) (Live <$> ys1) []
              b' (Z.of_nat (length pre) + 1) ((Live <$> pre) ++ [Live x])
              (replicate (length post) Raw)
              (replicate (Z.to_nat g - (length pre + length post) - 1) Raw)
              Hbb Hb3)
    as (ys2 & Hys2 & Hrel2); [solve_length | exact Hb3' | solve_length | solve_length |].
  rewrite (bind_Ok _ _ _ _ _ Hrel2). clear Hrel2.
  erewrite bind_Ok; cycle 1.
  { replace (Z.of_nat (length pre + length post)) with (Z.of_nat (length (ys1 ++ ys2)))
      by solve_length.
    apply destroy_n_segment with (l1 := []) (l2 := []); [|reflexivity].
    simpl. rewrite lookup_insert_ne by congruence.
    rewrite lookup_insert_eq. norm_lists. rewrite ?app_nil_r. reflexivity. }
  erewrite bind_Ok by (apply set_data_Ok; exact Hv3). simpl.
  erewrite bind_Ok by (apply set_size_Ok; simpl; apply lookup_insert_eq). simpl.
  unfold RawMemory.dtor. simpl.
  erewrite bind_Ok; cycle 1.
  { apply Deallocate_block with (l := [] ++ replicate (length (ys1 ++ ys2)) Raw ++ []).
    simpl. apply lookup_insert_eq. }
  exists_holds b' (Z.to_nat g - (length pre + length post) - 1)%nat.
  - rewrite lookup_insert_eq. f_equal. f_equal; [f_equal; solve_length | solve_length].
  - rewrite lookup_delete_ne by congruence. rewrite lookup_insert_ne by congruence.
    rewrite lookup_insert_eq. norm_lists. reflexivity.
  - solve_length.
Qed.
End EmplaceGrowing.

(** ** Emplacing anywhere, and [Insert] followed by [Erase]

    On the platform [unbounded]. *)

Section Positional.
Context {T Args : Type} {E : Element T Args}.
Implicit Types (s : state T) (xs pre post : list T) (b : nat).

Lemma Emplace_holds s this pre post k args x p0 :
  holds s this (pre ++ post) k -> construct args = Some x ->
  Z.of_nat (length (pre ++ post)) < 2 ^ 63 ->
  Vector.begin this s = Ok p0 s ->
  exists s' p0' k',
    Vector.Emplace this (p0 +p Z.of_nat (length pre)) args s =
      Ok (p0' +p Z.of_nat (length pre)) s' /\
    holds s' this (pre ++ x :: post) k' /\
    Vector.begin this s' = Ok p0' s'.
Proof.
  intros Hh Hx Hlen Hbegin.
  destruct post as [|y post _] using rev_ind.
  - rewrite app_nil_r in *.
    destruct (Emplace_at_end s this pre k args x p0 Hh Hx Hlen Hbegin)
      as (s' & b' & k' & HE & Hh' & Hb').
    exists s', (Ptr (Some b') 0), k'. auto.
  - destruct k as [|k].
    + destruct (Emplace_grow s this pre (post ++ [y]) args x p0 Hh) as (s' & b' & k' & HE & Hh' & Hb');
        try assumption.
      { destruct post; discriminate. }
      exists s', (Ptr (Some b') 0), k'. auto.
    + destruct (Emplace_spare s this pre post y k args x p0 Hh Hx Hbegin)
        as (s' & HE & Hh' & Hb').
      exists s', p0, k. auto.
Qed.

(** C6. Inserting a value at a valid position [p] and then erasing at the
    position [Insert] returned gives back the original sequence of elements
    and the original [Size()]; in between, the vector holds the new value at
    [p] with the other elements in their original order around it. *)
Theorem insert_then_erase_restores (this : nat) (s : state T) (xs : list T) (p : nat)
    (value : Args) (x : T) :
  contents s this = Some xs ->
  (p <= length xs)%nat ->
  construct value = Some x ->
  Z.of_nat (length xs) < 2 ^ 63 ->
  exists it s1 s2,
    (let* b := Vector.begin this in
     Vector.Insert this (b +p Z.of_nat p) value) s = Ok it s1 /\
    contents s1 this = Some (take p xs ++ x :: drop p xs) /\
    Vector.Erase this it s1 = Ok it s2 /\
    contents s2 this = Some xs /\
    Vector.Size this s = Ok (Z.of_nat (length xs)) s /\
    Vector.Size this s2 = Ok (Z.of_nat (length xs)) s2.
Proof.
  intros Hc Hp Hx Hlen. apply contents_holds in Hc as [k Hh].
  pose proof (holds_Size _ _ _ _ Hh) as Hsize.
  rewrite <- (take_drop p xs) in Hh.
  assert (length (take p xs) = p) as Hpre by (rewrite length_take; lia).
  assert (exists p0, Vector.begin this s = Ok p0 s) as [p0 Hbegin].
  { destruct Hh as (v & Hv & _). eexists. apply (begin_Ok _ _ _ Hv). }
  destruct (Emplace_holds s this (take p xs) (drop p xs) k value x p0 Hh Hx)
    as (s1 & p1 & k1 & HE & Hh1 & Hb1); [rewrite take_drop; exact Hlen | exact Hbegin |].
  rewrite Hpre in HE.
  destruct (Erase_holds s1 this (take p xs) x (drop p xs) k1 p1 Hh1 Hb1) as (s2 & HEr & Hh2).
  rewrite Hpre in HEr. rewrite take_drop in Hh2.
  exists (p1 +p Z.of_nat p), s1, s2.
  split; [rewrite (bind_Ok _ _ _ _ _ Hbegin); exact HE |].
  split; [apply contents_holds; eauto |].
  split; [exact HEr |].
  split; [apply contents_holds; eauto |].
  split; [exact Hsize | apply (holds_Size _ _ _ _ Hh2)].
Qed.
End Positional.

(** ** Reserving *)

Section Reserving.
Context {T Args : Type} {E : Element T Args} {P : Platform T}.

(** C7. [Reserve(k)] with [k <= Capacity()] returns in the state it was
    called in.  [Reserve(k)] with [k > Capacity()], when [k * sizeof(T)]
    does not wrap in [size_t] and [operator new] grants the request,
    returns with the same elements, the same [Size()] and a capacity of
    [k], hence at least [k]; when [operator new] throws instead, the
    exception leaves [Reserve] in the state it was called in. *)
Theorem Reserve_keeps_elements (this : nat) (s : state T) (xs : list T) (c k : Z) :
  contents s this = Some xs ->
  Vector.Capacity this s = Ok c s ->
  0 <= k < 2 ^ 64 ->
  (k <= c -> Vector.Reserve this k s = Ok tt s) /\
  (c < k -> k * sizeof_T < 2 ^ 64 -> bad_alloc s (k * sizeof_T) = false ->
   exists s' c',
     Vector.Reserve this k s = Ok tt s' /\
     contents s' this = Some xs /\
     Vector.Size this s = Ok (Z.of_nat (length xs)) s /\
     Vector.Size this s' = Ok (Z.of_nat (length xs)) s' /\
     Vector.Capacity this s' = Ok c' s' /\
     k <= c' /\ c' = k) /\
  (c < k -> bad_alloc s (size_t (k * sizeof_T)) = true ->
   Vector.Reserve this k s = Throw s).
Proof.
  intros Hc Hcap Hk. apply contents_holds in Hc as [spare Hh].
  pose proof (holds_Capacity _ _ _ _ Hh) as Hcap'.
  assert (c = Z.of_nat (length xs + spare)) as -> by congruence.
  split; [|split].
  - intros Hle. apply (Reserve_enough s this xs spare k Hh Hle).
  - intros Hlt Hfit Hnew.
    destruct (Reserve_grows s this xs spare k Hh Hlt Hfit Hnew) as (s' & HR & Hh').
    exists s', k. split; [exact HR |].
    split; [apply contents_holds; eauto |].
    split; [apply (holds_Size _ _ _ _ Hh) |].
    split; [apply (holds_Size _ _ _ _ Hh') |].
    split; [|lia].
    pose proof (holds_Capacity _ _ _ _ Hh') as HC.
    replace (Z.of_nat (length xs + (Z.to_nat k - length xs))) with k in HC by lia.
    exact HC.
  - intros Hlt Hnew. apply (Reserve_refused s this xs spare k Hh Hlt Hnew).
Qed.
End Reserving.

Lemma appends_size_and_capacity_witness :
  exists s' c,
    (Vector.ctor_default 0%nat;;
     push_all 0%nat [Sample.Value 1; Sample.Value 2; Sample.Value 3]) (MkState ∅ ∅) = Ok tt s' /\
    Vector.Size 0%nat s' = Ok 3 s' /\
    Vector.Capacity 0%nat s' = Ok c s' /\
    3 <= c /\
    contents s' 0%nat = Some [Sample.Obj 1; Sample.Obj 2; Sample.Obj 3] /\
    forall value x, construct value = Some x ->
      exists s'' c',
        Vector.PushBack 0%nat value s' = Ok tt s'' /\
        Vector.Size 0%nat s'' = Ok (3 + 1) s'' /\
        Vector.Capacity 0%nat s'' = Ok c' s'' /\
        c' = (if 3 =? c then Z.max 1 (2 * c) else c).
Proof.
  apply (appends_size_and_capacity 0%nat
           [Sample.Value 1; Sample.Value 2; Sample.Value 3]
           [Sample.Obj 1; Sample.Obj 2; Sample.Obj 3] (MkState ∅ ∅));
    [reflexivity | simpl; lia].
Defined.

Lemma insert_then_erase_restores_witness :
  exists it s1 s2,
    (let* b := Vector.begin 0%nat in
     Vector.Insert 0%nat (b +p 1) (Sample.Value 99)) Sample.v123 = Ok it s1 /\
    contents s1 0%nat = Some [Sample.Obj 1; Sample.Obj 99; Sample.Obj 2; Sample.Obj 3] /\
    Vector.Erase 0%nat it s1 = Ok it s2 /\
    contents s2 0%nat = Some [Sample.Obj 1; Sample.Obj 2; Sample.Obj 3] /\
    Vector.Size 0%nat Sample.v123 = Ok 3 Sample.v123 /\
    Vector.Size 0%nat s2 = Ok 3 s2.
Proof.
  apply (insert_then_erase_restores 0%nat Sample.v123
           [Sample.Obj 1; Sample.Obj 2; Sample.Obj 3] 1%nat (Sample.Value 99) (Sample.Obj 99));
    [reflexivity | simpl; lia | reflexivity | simpl; lia].
Defined.

Lemma Reserve_keeps_elements_witness :
  Vector.Reserve (P := Sample.lp64) 0%nat 2 Sample.v123 = Ok tt Sample.v123 /\
  (exists s' c',
    Vector.Reserve (P := Sample.lp64) 0%nat 10 Sample.v123 = Ok tt s' /\
    contents s' 0%nat = Some [Sample.Obj 1; Sample.Obj 2; Sample.Obj 3] /\
    Vector.Size 0%nat Sample.v123 = Ok 3 Sample.v123 /\
    Vector.Size 0%nat s' = Ok 3 s' /\
    Vector.Capacity 0%nat s' = Ok c' s' /\
    10 <= c' /\ c' = 10) /\
  Vector.Reserve (P := Sample.lp64) 0%nat (2 ^ 61) Sample.v123 = Throw Sample.v123.
Proof.
  split; [|split].
  - apply (Reserve_keeps_elements (P := Sample.lp64) 0%nat Sample.v123
             [Sample.Obj 1; Sample.Obj 2; Sample.Obj 3] 4 2);
      [reflexivity | reflexivity | lia | lia].
  - apply (Reserve_keeps_elements (P := Sample.lp64) 0%nat Sample.v123
             [Sample.Obj 1; Sample.Obj 2; Sample.Obj 3] 4 10);
      [reflexivity | reflexivity | lia | lia | reflexivity | reflexivity].
  - apply (Reserve_keeps_elements (P := Sample.lp64) 0%nat Sample.v123
             [Sample.Obj 1; Sample.Obj 2; Sample.Obj 3] 4 (2 ^ 61));
      [reflexivity | reflexivity | lia | lia | reflexivity].
Defined.

(** Without the two conditions the statement fails.  On a platform with
    four-byte objects, [Reserve(2^62)] asks [operator new] for
    [2^62 * 4 mod 2^64 = 0] bytes and relocates the three elements past
    the end of the block it gets; [Reserve(2^61)] asks for 2^63 bytes,
    [operator new] throws, and the capacity stays 4. *)
Lemma Reserve_request_too_large :
  contents Sample.v123 0%nat = Some [Sample.Obj 1; Sample.Obj 2; Sample.Obj 3] /\
  Vector.Capacity 0%nat Sample.v123 = Ok 4 Sample.v123 /\
  4 < 2 ^ 61 < 2 ^ 64 /\ 4 < 2 ^ 62 < 2 ^ 64 /\
  Vector.Reserve (P := Sample.lp64) 0%nat (2 ^ 62) Sample.v123 = Fault /\
  Vector.Reserve (P := Sample.lp64) 0%nat (2 ^ 61) Sample.v123 = Throw Sample.v123 /\
  (~ exists s' c',
       Vector.Reserve (P := Sample.lp64) 0%nat (2 ^ 62) Sample.v123 = Ok tt s' /\
       contents s' 0%nat = Some [Sample.Obj 1; Sample.Obj 2; Sample.Obj 3] /\
       Vector.Capacity 0%nat s' = Ok c' s' /\ 2 ^ 62 <= c') /\
  (~ exists s' c',
       Vector.Reserve (P := Sample.lp64) 0%nat (2 ^ 61) Sample.v123 = Ok tt s' /\
       contents s' 0%nat = Some [Sample.Obj 1; Sample.Obj 2; Sample.Obj 3] /\
       Vector.Capacity 0%nat s' = Ok c' s' /\ 2 ^ 61 <= c').
Proof.
  assert (Vector.Reserve (P := Sample.lp64) 0%nat (2 ^ 62) Sample.v123 = Fault) as H62
    by (vm_compute; reflexivity).
  assert (Vector.Reserve (P := Sample.lp64) 0%nat (2 ^ 61) Sample.v123 = Throw Sample.v123)
    as H61 by (vm_compute; reflexivity).
  split; [reflexivity |]. split; [reflexivity |].
  split; [lia |]. split; [lia |].
  split; [exact H62 |]. split; [exact H61 |].
  split; intros (s' & c' & HR & _).
  - rewrite H62 in HR. discriminate.
  - rewrite H61 in HR. discriminate.
Qed.

(** ** The defects *)

(** The sample states are states the program reaches. *)
Lemma v123_by_appends :
  (Vector.ctor_default 0%nat;;
   push_all 0%nat [Sample.Value 1; Sample.Value 2; Sample.Value 3]) (MkState ∅ ∅) =
  Ok tt Sample.v123.
Proof. vm_compute. reflexivity. Qed.

Lemma v12_full_by_appends :
  (Vector.ctor_default 0%nat;;
   push_all 0%nat [Sample.Value 1; Sample.Value 2]) (MkState ∅ ∅) =
  Ok tt Sample.v12_full.
Proof. vm_compute. reflexivity. Qed.

(** The move operations of [RawMemory] copy the pointer and the capacity
    and leave their source as it was. *)
Lemma RawMemory_ctor_move_copies (other : RawMemory) :
  RawMemory.ctor_move other = (other, other).
Proof. destruct other; reflexivity. Qed.

Lemma RawMemory_op_assign_move_copies (this rhs : RawMemory) :
  RawMemory.op_assign_move this rhs = (rhs, rhs).
Proof. destruct rhs; reflexivity. Qed.

(** C2. The code at the failing input: after move construction and after
    move assignment from a [RawMemory] owning block 0 with capacity 3, the
    source still holds that pointer and capacity, and destroying both objects
    deallocates the block twice. *)
Theorem RawMemory_move_keeps_source :
  RawMemory.ctor_move Sample.raw3 = (Sample.raw3, Sample.raw3) /\
  RawMemory.op_assign_move RawMemory.ctor_default Sample.raw3 = (Sample.raw3, Sample.raw3) /\
  snd (RawMemory.ctor_move Sample.raw3) <> RawMemory.ctor_default /\
  (let '(this, other) := RawMemory.ctor_move Sample.raw3 in
   RawMemory.dtor this;; RawMemory.dtor other) Sample.raw3_heap = Fault.
Proof.
  split; [reflexivity |]. split; [reflexivity |]. split; [discriminate |].
  vm_compute. reflexivity.
Qed.

(** What the shrinking branch of [Resize] does in general: asked to keep
    [length pre + 1] elements of [pre ++ gone ++ [last]], it destroys the
    slots of [gone], the first of which it should have kept, and leaves
    [last] alive. *)
Lemma Resize_shrink_shifted {T Args : Type} {E : Element T Args} {P : Platform T}
    (s : state T) (this : nat) (pre gone : list T) (last : T) (k : nat) :
  holds s this (pre ++ gone ++ [last]) k -> gone <> [] ->
  exists s' b,
    Vector.Resize this (Z.of_nat (length pre) + 1) s = Ok tt s' /\
    objs s' !! this =
      Some (MkVector (MkRawMemory (Ptr (Some b) 0)
                                  (Z.of_nat (length (pre ++ gone ++ [last]) + k)))
                     (Z.of_nat (length pre) + 1)) /\
    heap s' !! b =
      Some ((Live <$> pre) ++ replicate (length gone) Raw ++ Live last :: replicate k Raw).
Proof.
  intros Hh Hgone.
  assert (0 < length gone)%nat as Hpos by (destruct gone; [congruence | simpl; lia]).
  destruct (holds_block _ _ _ _ Hh) as (b & Hv & Hb & Hc); [solve_length |].
  assert (length (pre ++ gone ++ [last]) = (length pre + length gone + 1)%nat) as Hl
    by solve_length.
  rewrite (Resize_shrink_branch this _ _ s Hv) by (simpl; lia).
  simpl. unfold ptr_add. simpl.
  replace (size_t (Z.of_nat (length (pre ++ gone ++ [last])) - (Z.of_nat (length pre) + 1)))
    with (Z.of_nat (length gone)) by (rewrite size_t_small; lia).
  erewrite bind_Ok; cycle 1.
  { apply destroy_n_segment with (l1 := Live <$> pre) (l2 := Live last :: replicate k Raw).
    - rewrite Hb. norm_lists. reflexivity.
    - solve_length. }
  erewrite set_size_Ok by exact Hv.
  eexists _, b. split; [reflexivity |]. simpl.
  rewrite !lookup_insert_eq. split; reflexivity.
Qed.

(** C1. The code at the failing input: [Resize(1)] on the vector 1, 2, 3
    destroys the slots 0 and 1 and keeps slot 2 alive, so the element at
    position 0 is no longer readable; [Resize(0)] starts destroying one
    slot before the buffer. *)
Theorem Resize_shrink_destroys_shifted_range :
  contents Sample.v123 0%nat = Some [Sample.Obj 1; Sample.Obj 2; Sample.Obj 3] /\
  Vector.Resize 0%nat 1 Sample.v123 =
    Ok tt (MkState {[ 0%nat := MkVector (MkRawMemory (Ptr (Some 2%nat) 0) 4) 1 ]}
                   {[ 2%nat := [Raw; Raw; Live (Sample.Obj 3); Raw] ]}) /\
  (Vector.Resize 0%nat 1;; at_index 0%nat 0) Sample.v123 = Fault /\
  Vector.Resize 0%nat 0 Sample.v123 = Fault.
Proof.
  split; [reflexivity |]. split; [vm_compute; reflexivity |].
  split; vm_compute; reflexivity.
Qed.

(** C3. The code at the failing input: assigning the vector 7, 8 to the
    vector 1, 2, 3 (capacity 4) assigns both elements, then destroys slot 1
    and keeps slot 2 alive; the target is left with size 2 and a destroyed
    object at position 1. *)
Theorem copy_assignment_shrink_destroys_shifted_range :
  contents Sample.v123_v78 0%nat = Some [Sample.Obj 1; Sample.Obj 2; Sample.Obj 3] /\
  contents Sample.v123_v78 1%nat = Some [Sample.Obj 7; Sample.Obj 8] /\
  Vector.op_assign 0%nat 1%nat Sample.v123_v78 =
    Ok tt (MkState {[ 0%nat := MkVector (MkRawMemory (Ptr (Some 2%nat) 0) 4) 2;
                      1%nat := MkVector (MkRawMemory (Ptr (Some 5%nat) 0) 2) 2 ]}
                   {[ 2%nat := [Live (Sample.Obj 7); Raw; Live (Sample.Obj 3); Raw];
                      5%nat := [Live (Sample.Obj 7); Live (Sample.Obj 8)] ]}) /\
  (Vector.op_assign 0%nat 1%nat;; at_index 0%nat 1) Sample.v123_v78 = Fault.
Proof.
  split; [reflexivity |]. split; [reflexivity |].
  split; vm_compute; reflexivity.
Qed.

(** ** Construction and destruction *)

Section Construction.
Context {T Args : Type} {E : Element T Args} {P : Platform T}.
Implicit Types (s : state T) (l : list (slot T)) (xs : list T) (b : nat).

(** The invariant of one vector only depends on the object and on the block
    it owns. *)
Lemma holds_ext s s' this xs k :
  holds s this xs k ->
  objs s' !! this = objs s !! this ->
  (forall v b, objs s !! this = Some v -> blk (buffer_ (data_ v)) = Some b ->
               heap s' !! b = heap s !! b) ->
  holds s' this xs k.
Proof.
  intros (v & Hv & Hsz & Hc & Hst) Hobj Hheap.
  exists v. split; [congruence |]. split; [exact Hsz |]. split; [exact Hc |].
  rewrite <- Hst. apply storage_ext. intros b Hb. apply (Hheap v b Hv Hb).
Qed.

Lemma value_construct_n_segment mid s b o l1 l2 :
  heap s !! b = Some (l1 ++ mid ++ l2) -> o = Z.of_nat (length l1) ->
  std.uninitialized_value_construct_n (Ptr (Some b) o) (Z.of_nat (length mid)) s =
  Ok tt (set_heap (<[b := l1 ++ replicate (length mid) (Live value_init) ++ l2]> (heap s)) s).
Proof.
  intros Hb Ho. unfold std.uninitialized_value_construct_n. rewrite Nat2Z.id.
  apply value_construct_loop_segment; assumption.
Qed.

Lemma fmap_replicate_Live (n : nat) (x : T) :
  Live <$> replicate n x = replicate n (Live x).
Proof. induction n as [|n IH]; simpl; [reflexivity | rewrite <- IH; reflexivity]. Qed.

Lemma value_construct_n_fill n s b o l1 l2 :
  heap s !! b = Some (l1 ++ replicate n Raw ++ l2) -> o = Z.of_nat (length l1) ->
  std.uninitialized_value_construct_n (Ptr (Some b) o) (Z.of_nat n) s =
  Ok tt (set_heap (<[b := l1 ++ replicate n (Live value_init) ++ l2]> (heap s)) s).
Proof.
  intros Hb Ho.
  pose proof (value_construct_n_segment (replicate n Raw) s b o l1 l2 Hb Ho) as H.
  rewrite length_replicate in H. exact H.
Qed.

(** [Vector(size)], when [size * sizeof(T)] does not wrap in [size_t] and
    [operator new] grants the request, builds [size] value-initialised
    elements in a buffer of exactly that capacity; it asks for no memory
    when [size] is 0. *)
Theorem ctor_size_value_initialises (this : nat) (size : Z) (s : state T) :
  0 <= size -> size * sizeof_T < 2 ^ 64 ->
  (size <> 0 -> bad_alloc s (size * sizeof_T) = false) ->
  exists s',
    Vector.ctor_size this size s = Ok tt s' /\
    contents s' this = Some (replicate (Z.to_nat size) value_init) /\
    Vector.Size this s' = Ok size s' /\
    Vector.Capacity this s' = Ok size s' /\
    (size = 0 -> heap s' = heap s).
Proof.
  intros Hsize Hfit Hnew.
  assert (size < 2 ^ 64) as Hlt by (pose proof (sizeof_pos (T := T)); nia).
  assert (exists n, size = Z.of_nat n) as [n ->] by (exists (Z.to_nat size); lia).
  rewrite Nat2Z.id. unfold Vector.ctor_size.
  assert (forall s', holds s' this (replicate n value_init) 0 ->
                     contents s' this = Some (replicate n value_init) /\
                     Vector.Size this s' = Ok (Z.of_nat n) s' /\
                     Vector.Capacity this s' = Ok (Z.of_nat n) s') as Hfinish.
  { intros s' Hh. split; [apply contents_holds; eauto |].
    pose proof (holds_Size _ _ _ _ Hh) as HS. pose proof (holds_Capacity _ _ _ _ Hh) as HC.
    rewrite length_replicate in HS, HC. rewrite Nat.add_0_r in HC. auto. }
  destruct n as [|n].
  - eexists. split; [reflexivity |].
    match goal with |- contents ?st _ = _ /\ _ => destruct (Hfinish st) as (A & B & C) end;
      [| split; [exact A |]; split; [exact B |]; split; [exact C | reflexivity]].
    eexists. simpl. rewrite lookup_insert_eq. split; [reflexivity |]. simpl.
    split; [reflexivity |]. split; [reflexivity | reflexivity].
  - rewrite (bind_Ok _ _ _ _ _
               (ctor_granted (Z.of_nat (S n)) s ltac:(lia) Hfit (Hnew ltac:(lia)))).
    set (b := fresh (dom (heap s))). rewrite Nat2Z.id.
    erewrite bind_Ok by reflexivity. simpl.
    erewrite value_construct_n_fill with (l1 := []) (l2 := []); cycle 1.
    { simpl. rewrite lookup_insert_eq, app_nil_r. reflexivity. }
    { reflexivity. }
    eexists. split; [reflexivity |].
    match goal with |- contents ?st _ = _ /\ _ => destruct (Hfinish st) as (A & B & C) end;
      [| split; [exact A |]; split; [exact B |]; split; [exact C | lia]].
    eexists. simpl. rewrite lookup_insert_eq. split; [reflexivity |]. simpl.
    split; [rewrite length_replicate; lia |]. split; [lia |].
    apply storage_block_eq; cbn [heap set_heap objs set_objs].
    + rewrite lookup_insert_eq, fmap_replicate_Live. reflexivity.
    + solve_length.
Qed.

Lemma dtor_holds s this xs k p0 :
  holds s this xs k -> Vector.begin this s = Ok p0 s ->
  Vector.dtor this s = Ok tt (destroyed s this p0).
Proof.
  intros ([d n] & Hv & Hsz & Hc & Hst) Hbegin. simpl in *. subst n.
  rewrite (begin_Ok _ _ _ Hv) in Hbegin. injection Hbegin as <-. simpl.
  unfold Vector.dtor. erewrite bind_Ok by (apply get_Ok; exact Hv). simpl.
  apply storage_inv in Hst as [[-> Hnil] | (b & -> & Hb)].
  - apply holds_empty_storage in Hnil as [-> ->]. simpl.
    unfold destroyed. destruct s; reflexivity.
  - unfold RawMemory.GetAddress. simpl.
    erewrite bind_Ok; cycle 1.
    { apply destroy_n_segment with (l1 := []) (l2 := replicate k Raw); [exact Hb | reflexivity]. }
    unfold RawMemory.dtor. simpl.
    erewrite bind_Ok; cycle 1.
    { eapply Deallocate_block. simpl. apply lookup_insert_eq. }
    unfold Vector.release, destroyed, set_objs, set_heap. simpl.
    rewrite delete_insert_eq. reflexivity.
Qed.

Lemma destroy_loop_hits_raw xs : forall s b o l1 l2 n,
  heap s !! b = Some (l1 ++ (Live <$> xs) ++ Raw :: l2) -> o = Z.of_nat (length l1) ->
  (length xs < n)%nat ->
  std.destroy_loop (Ptr (Some b) o) n s = Fault.
Proof.
  induction xs as [|x xs IH]; intros s b o l1 l2 n Hb Ho Hn;
    (destruct n as [|n]; [simpl in Hn; lia |]); simpl in *.
  - apply bind_Fault. unfold destroy_at.
    rewrite (slot_at_middle _ _ _ _ _ _ Hb Ho). reflexivity.
  - rewrite (bind_Ok _ _ _ _ _ (destroy_at_middle _ _ _ _ _ _ Hb Ho)).
    apply (IH _ b (o + 1) (l1 ++ [Raw]) l2 n); [| solve_length | lia].
    simpl. rewrite lookup_insert_eq. norm_lists. reflexivity.
Qed.

End Construction.

(** ** Copies and moves

    The copy constructor on the platform [unbounded]; the move constructor
    makes no request. *)

Section Lifetime.
Context {T Args : Type} {E : Element T Args}.
Implicit Types (s : state T) (l : list (slot T)) (xs : list T) (b : nat).

Lemma copy_n_segment xs s b o l1 l2 b' o' d1 mid d2 :
  b <> b' ->
  heap s !! b = Some (l1 ++ (Live <$> xs) ++ l2) -> o = Z.of_nat (length l1) ->
  heap s !! b' = Some (d1 ++ mid ++ d2) -> o' = Z.of_nat (length d1) ->
  length mid = length xs ->
  std.uninitialized_copy_n (Ptr (Some b) o) (Z.of_nat (length xs)) (Ptr (Some b') o') s =
  Ok tt (set_heap (<[b' := d1 ++ (Live <$> xs) ++ d2]> (heap s)) s).
Proof.
  intros. unfold std.uninitialized_copy_n. rewrite Nat2Z.id.
  apply (copy_loop_segment xs s b o l1 l2 b' o' d1 mid d2); assumption.
Qed.

(** The state the copy constructor leaves, spelled out. *)
Lemma ctor_copy_state s this other xs k :
  holds s other xs k -> this <> other ->
  exists v,
    Vector.ctor_copy this other s =
      Ok tt (MkState (<[this := v]> (objs s))
                     (match blk (buffer_ (data_ v)) with
                      | Some b => <[b := Live <$> xs]> (heap s)
                      | None => heap s
                      end)) /\
    size_ v = Z.of_nat (length xs) /\
    data_ v = (if (length xs =? 0)%nat then MkRawMemory nullptr 0
               else MkRawMemory (Ptr (Some (fresh (dom (heap s)))) 0) (Z.of_nat (length xs))).
Proof.
  intros Hh Hne. pose proof Hh as ([d n] & Hv & Hsz & Hc & Hst). simpl in *. subst n.
  unfold Vector.ctor_copy. erewrite bind_Ok by (apply get_Ok; exact Hv). simpl.
  destruct xs as [|x xs].
  - exists (MkVector (MkRawMemory nullptr 0) 0).
    split; [simpl; destruct s; reflexivity | split; reflexivity].
  - destruct (holds_block _ _ _ _ Hh) as (b & Hv' & Hb & Hc'); [simpl; lia |].
    assert (d = MkRawMemory (Ptr (Some b) 0) (Z.of_nat (length (x :: xs) + k))) as ->
      by congruence.
    erewrite bind_Ok by (apply ctor_Ok; simpl in Hc' |- *; lia).
    set (b' := fresh (dom (heap s))).
    assert (heap s !! b' = None) as Hfresh by apply fresh_block_unused.
    assert (b <> b') as Hbb by congruence.
    erewrite bind_Ok by reflexivity.
    unfold RawMemory.GetAddress. cbn [buffer_ data_].
    erewrite copy_n_segment with (l1 := []) (l2 := replicate k Raw) (d1 := [])
                                 (mid := replicate (length (x :: xs)) Raw) (d2 := []);
      try reflexivity; try assumption; cycle 1.
    { cbn [heap set_heap set_objs]. rewrite lookup_insert_ne by congruence. exact Hb. }
    { cbn [heap set_heap set_objs]. rewrite lookup_insert_eq, Nat2Z.id, app_nil_r. reflexivity. }
    { apply length_replicate. }
    exists (MkVector (MkRawMemory (Ptr (Some b') 0) (Z.of_nat (length (x :: xs))))
                     (Z.of_nat (length (x :: xs)))).
    split; [|split; reflexivity]. cbn [buffer_ data_ blk].
    unfold set_heap, set_objs. cbn [heap objs]. rewrite insert_insert_eq, app_nil_r.
    reflexivity.
Qed.

Lemma ctor_copy_holds s this other xs k :
  holds s other xs k -> this <> other ->
  exists s',
    Vector.ctor_copy this other s = Ok tt s' /\
    holds s' this xs 0 /\
    holds s' other xs k /\
    disjoint_buffers s' this other = true /\
    (objs s !! this = None -> forall p, Vector.begin this s' = Ok p s' -> destroyed s' this p = s).
Proof.
  intros Hh Hne.
  destruct (ctor_copy_state s this other xs k Hh Hne) as ([d n] & Hrun & Hsz & Hd).
  simpl in *. subst n d.
  pose proof Hh as (vo & Hvo & _).
  eexists. split; [exact Hrun |].
  assert (Z.of_nat (length xs) < 2 ^ 64) as Hlen.
  { pose proof (holds_Capacity _ _ _ _ Hh) as HC. apply Capacity_Ok in HC as (v' & Hv' & HC).
    destruct Hh as (v'' & Hv'' & _ & Hc & _). assert (v'' = v') as -> by congruence. lia. }
  destruct xs as [|x xs].
  - simpl. repeat split.
    + eexists. simpl. rewrite lookup_insert_eq. split; [reflexivity |].
      split; [reflexivity |]. split; reflexivity.
    + apply (holds_ext s); [exact Hh | simpl; apply lookup_insert_ne; congruence | reflexivity].
    + unfold disjoint_buffers. simpl. rewrite lookup_insert_eq. simpl.
      destruct (<[this:=_]> (objs s) !! other); reflexivity.
    + intros Hnone p Hp. erewrite begin_Ok in Hp by (simpl; apply lookup_insert_eq).
      injection Hp as <-. unfold destroyed. simpl.
      rewrite delete_insert_id by exact Hnone. destruct s; reflexivity.
  - set (b' := fresh (dom (heap s))) in *.
    assert (heap s !! b' = None) as Hfresh by apply fresh_block_unused.
    destruct (holds_block _ _ _ _ Hh) as (b & Hv' & Hb & Hc'); [simpl; lia |].
    assert (b <> b') as Hbb by congruence.
    cbn [Nat.eqb length buffer_ data_ blk]. repeat split.
    + apply holds_intro with (b := b'); cbn [objs heap].
      * rewrite lookup_insert_eq, Nat.add_0_r. reflexivity.
      * rewrite lookup_insert_eq, app_nil_r. reflexivity.
      * rewrite Nat.add_0_r. exact Hlen.
    + apply (holds_ext s); [exact Hh | simpl; apply lookup_insert_ne; congruence |].
      intros v b0 Hv0 Hb0. simpl. rewrite Hv' in Hv0. injection Hv0 as <-. simpl in Hb0.
      injection Hb0 as <-. apply lookup_insert_ne. congruence.
    + unfold disjoint_buffers. cbn [objs]. rewrite lookup_insert_eq.
      rewrite lookup_insert_ne by congruence. rewrite Hv'. cbn [buffer_ data_ blk].
      destruct (Nat.eqb_spec b' b); [congruence | reflexivity].
    + intros Hnone p Hp. erewrite begin_Ok in Hp by (simpl; apply lookup_insert_eq).
      injection Hp as <-. unfold destroyed. cbn [objs heap blk buffer_ data_].
      rewrite delete_insert_id by exact Hnone. rewrite delete_insert_id by exact Hfresh.
      destruct s; reflexivity.
Qed.

(** The copy constructor gives the new vector the elements of the source in
    a buffer of its own, of exactly [Size()] slots, and leaves the source as
    it was. *)
Theorem ctor_copy_independent (this other : nat) (s : state T) (xs : list T) (c : Z) :
  contents s other = Some xs -> Vector.Capacity other s = Ok c s -> this <> other ->
  exists s',
    Vector.ctor_copy this other s = Ok tt s' /\
    contents s' this = Some xs /\
    Vector.Capacity this s' = Ok (Z.of_nat (length xs)) s' /\
    contents s' other = Some xs /\
    Vector.Capacity other s' = Ok c s' /\
    disjoint_buffers s' this other = true.
Proof.
  intros Hc Hcap Hne. apply contents_holds in Hc as [k Hh].
  destruct (ctor_copy_holds s this other xs k Hh Hne) as (s' & Hrun & Hh1 & Hh2 & Hdis & _).
  exists s'. split; [exact Hrun |].
  split; [apply contents_holds; eauto |].
  split.
  { pose proof (holds_Capacity _ _ _ _ Hh1) as HC. rewrite Nat.add_0_r in HC. exact HC. }
  split; [apply contents_holds; eauto |].
  split; [|exact Hdis].
  pose proof (holds_Capacity _ _ _ _ Hh) as HC. pose proof (holds_Capacity _ _ _ _ Hh2) as HC'.
  assert (c = Z.of_nat (length xs + k)) as -> by congruence. exact HC'.
Qed.

(** Copying a vector and destroying the copy gives back the state before the
    copy: nothing is leaked and the source is not touched. *)
Theorem copy_then_destroy_restores (this other : nat) (s : state T) (xs : list T) :
  contents s other = Some xs -> objs s !! this = None ->
  (Vector.ctor_copy this other;; Vector.dtor this) s = Ok tt s.
Proof.
  intros Hc Hnone. apply contents_holds in Hc as [k Hh].
  assert (this <> other) as Hne.
  { intros ->. destruct Hh as (v & Hv & _). congruence. }
  destruct (ctor_copy_holds s this other xs k Hh Hne) as (s' & Hrun & Hh1 & _ & _ & Hback).
  rewrite (bind_Ok _ _ _ _ _ Hrun).
  pose proof Hh1 as (v & Hv & _).
  rewrite (dtor_holds s' this xs 0 _ Hh1 (begin_Ok _ _ _ Hv)).
  rewrite (Hback Hnone _ (begin_Ok _ _ _ Hv)). reflexivity.
Qed.

(** The move constructor takes over the buffer and the size of the source
    and leaves the source empty, without touching the heap. *)
Lemma ctor_move_holds s this other xs k :
  holds s other xs k -> this <> other ->
  exists s' vo,
    objs s !! other = Some vo /\
    Vector.ctor_move this other s = Ok tt s' /\
    s' = MkState (<[other := MkVector RawMemory.ctor_default 0]> (<[this := vo]> (objs s)))
                 (heap s) /\
    holds s' this xs k /\
    holds s' other [] 0.
Proof.
  intros Hh Hne. pose proof Hh as ([d n] & Hv & Hsz & Hc & Hst). simpl in *. subst n.
  exists (MkState (<[other := MkVector RawMemory.ctor_default 0]>
                     (<[this := MkVector d (Z.of_nat (length xs))]> (objs s))) (heap s)),
         (MkVector d (Z.of_nat (length xs))).
  split; [exact Hv |].
  assert (Vector.ctor_move this other s =
          Ok tt (MkState (<[other := MkVector RawMemory.ctor_default 0]>
                            (<[this := MkVector d (Z.of_nat (length xs))]> (objs s))) (heap s)))
    as Hrun.
  { unfold Vector.ctor_move, Vector.set_data, Vector.set_size, Vector.get, bind.
    rewrite Hv. simpl. rewrite lookup_insert_eq. simpl.
    rewrite lookup_insert_ne by congruence. rewrite Hv. simpl.
    rewrite lookup_insert_eq. simpl.
    rewrite (lookup_insert_ne _ this other) by congruence.
    rewrite (lookup_insert_ne _ this other) by congruence. rewrite Hv. simpl.
    rewrite !lookup_insert_eq. simpl. unfold set_objs. simpl. do 2 f_equal.
    destruct d. simpl. rewrite !insert_insert_eq.
    apply map_eq. intros i. rewrite !lookup_insert. repeat case_decide; reflexivity. }
  split; [exact Hrun |]. split; [reflexivity |]. split.
  - eexists. simpl. rewrite lookup_insert_ne by congruence. rewrite lookup_insert_eq.
    split; [reflexivity |]. simpl. split; [reflexivity |]. split; [exact Hc |].
    rewrite <- Hst. apply storage_ext. reflexivity.
  - eexists. simpl. rewrite lookup_insert_eq. split; [reflexivity |]. simpl.
    split; [reflexivity |]. split; reflexivity.
Qed.

(** The move constructor hands the buffer, the capacity and the elements of
    the source to the new vector without touching the heap, and leaves the
    source empty: size 0, capacity 0 and a null buffer. *)
Theorem ctor_move_empties_source (this other : nat) (s : state T) (xs : list T) (c : Z) (p0 : ptr) :
  contents s other = Some xs -> Vector.Capacity other s = Ok c s ->
  Vector.begin other s = Ok p0 s -> this <> other ->
  exists s',
    Vector.ctor_move this other s = Ok tt s' /\
    contents s' this = Some xs /\
    Vector.Capacity this s' = Ok c s' /\
    Vector.begin this s' = Ok p0 s' /\
    contents s' other = Some [] /\
    Vector.Capacity other s' = Ok 0 s' /\
    Vector.begin other s' = Ok nullptr s' /\
    heap s' = heap s.
Proof.
  intros Hc Hcap Hbegin Hne. apply contents_holds in Hc as [k Hh].
  destruct (ctor_move_holds s this other xs k Hh Hne)
    as (s' & vo & Hvo & Hrun & -> & Hh1 & Hh2).
  eexists. split; [exact Hrun |].
  split; [apply contents_holds; eauto |].
  apply Capacity_Ok in Hcap as (v & Hv & <-). assert (v = vo) as -> by congruence.
  rewrite (begin_Ok _ _ _ Hvo) in Hbegin. injection Hbegin as <-.
  split.
  { apply Capacity_Ok. exists vo. split; [|reflexivity]. simpl.
    rewrite lookup_insert_ne by congruence. apply lookup_insert_eq. }
  split.
  { apply (begin_Ok _ _ vo). simpl.
    rewrite lookup_insert_ne by congruence. apply lookup_insert_eq. }
  split; [apply contents_holds; eauto |].
  split.
  { apply Capacity_Ok. eexists. split; [simpl; apply lookup_insert_eq | reflexivity]. }
  split; [|reflexivity].
  apply (begin_Ok _ _ (MkVector RawMemory.ctor_default 0)). simpl. apply lookup_insert_eq.
Qed.

(** A moved-from vector can be destroyed: moving a vector and destroying
    both objects releases the buffer once, exactly as destroying the
    original does. *)
Theorem move_then_destroy_both (this other : nat) (s : state T) (xs : list T) :
  contents s other = Some xs -> objs s !! this = None ->
  (Vector.ctor_move this other;; Vector.dtor other;; Vector.dtor this) s =
  Vector.dtor other s.
Proof.
  intros Hc Hnone. apply contents_holds in Hc as [k Hh].
  assert (this <> other) as Hne.
  { intros ->. destruct Hh as (v & Hv & _). congruence. }
  destruct (ctor_move_holds s this other xs k Hh Hne)
    as (s' & vo & Hvo & Hrun & Hs' & Hh1 & Hh2).
  rewrite (bind_Ok _ _ _ _ _ Hrun).
  rewrite (dtor_holds s other xs k _ Hh (begin_Ok _ _ _ Hvo)).
  assert (objs s' !! other = Some (MkVector RawMemory.ctor_default 0)) as Hvo'.
  { rewrite Hs'. simpl. apply lookup_insert_eq. }
  rewrite (bind_Ok _ _ _ _ _ (dtor_holds s' other [] 0 _ Hh2 (begin_Ok _ _ _ Hvo'))).
  assert (holds (destroyed s' other (buffer_ (data_ (MkVector RawMemory.ctor_default 0))))
                this xs k) as Hh3.
  { apply (holds_ext s'); [exact Hh1 | | reflexivity].
    simpl. apply lookup_delete_ne. congruence. }
  assert (objs (destroyed s' other (buffer_ (data_ (MkVector RawMemory.ctor_default 0))))
               !! this = Some vo) as Hv3.
  { rewrite Hs'. simpl. rewrite lookup_delete_ne by congruence.
    rewrite lookup_insert_ne by congruence. apply lookup_insert_eq. }
  rewrite (dtor_holds _ this xs k _ Hh3 (begin_Ok _ _ _ Hv3)).
  f_equal. rewrite Hs'. unfold destroyed. simpl. f_equal.
  rewrite delete_insert_eq. rewrite delete_insert_ne by congruence.
  rewrite delete_insert_id by (rewrite lookup_delete_ne by congruence; exact Hnone).
  reflexivity.
Qed.
End Lifetime.

(** ** Operations on the heap alone *)

Section HeapOnly.
Context {T Args : Type} {E : Element T Args} {P : Platform T}.

Lemma ko_ret {A} (a : A) : keeps_objs (T := T) (ret a).
Proof. intros s r s' [= _ <-]. reflexivity. Qed.

Lemma ko_fault {A} : keeps_objs (T := T) (fault (A := A)).
Proof. intros s r s' [=]. Qed.

Lemma ko_bind {A B} (m : M T A) (k : A -> M T B) :
  keeps_objs m -> (forall a, keeps_objs (k a)) -> keeps_objs (bind m k).
Proof.
  intros Hm Hk s r s' Hb.
  destruct (bind_inv_Ok _ _ _ _ _ Hb) as (a & s1 & H1 & H2).
  rewrite (Hk a _ _ _ H2). apply (Hm _ _ _ H1).
Qed.

Lemma ko_assert b : keeps_objs (T := T) (assert b).
Proof. destruct b; [apply ko_ret | apply ko_fault]. Qed.

Lemma objs_write_slot p v (s : state T) : objs (write_slot p v s) = objs s.
Proof. unfold write_slot. destruct (blk p); reflexivity. Qed.

Lemma ko_load p : keeps_objs (T := T) (load p).
Proof.
  intros s r s'. unfold load.
  destruct (slot_at (heap s) p) as [[|x]|]; intros [=]; subst. reflexivity.
Qed.

Lemma ko_assign p x : keeps_objs (T := T) (assign p x).
Proof.
  intros s r s'. unfold assign.
  destruct (slot_at (heap s) p) as [[|y]|]; intros [=]; subst. apply objs_write_slot.
Qed.

Lemma ko_construct_at p x : keeps_objs (T := T) (construct_at p x).
Proof.
  intros s r s'. unfold construct_at.
  destruct (slot_at (heap s) p) as [y|]; intros [=]; subst. apply objs_write_slot.
Qed.

Lemma ko_destroy_at p : keeps_objs (T := T) (destroy_at p).
Proof.
  intros s r s'. unfold destroy_at.
  destruct (slot_at (heap s) p) as [[|y]|]; intros [=]; subst. apply objs_write_slot.
Qed.

Lemma ko_ptr_diff p q : keeps_objs (T := T) (ptr_diff p q).
Proof. unfold ptr_diff. case_bool_decide; [apply ko_ret | apply ko_fault]. Qed.

Lemma ko_take p : keeps_objs (T := T) (std.take p).
Proof.
  unfold std.take. apply ko_bind; [apply ko_load | intros x].
  apply ko_bind; [apply ko_assign | intros _; apply ko_ret].
Qed.

Lemma ko_destroy_n p n : keeps_objs (T := T) (std.destroy_n p n).
Proof.
  unfold std.destroy_n. generalize (Z.to_nat n) as k. intros k. revert p.
  induction k as [|k IH]; intros p; simpl; [apply ko_ret |].
  apply ko_bind; [apply ko_destroy_at | intros _; apply IH].
Qed.

Lemma ko_move first last d_first : keeps_objs (T := T) (std.move first last d_first).
Proof.
  unfold std.move. apply ko_bind; [apply ko_ptr_diff | intros n].
  apply ko_bind; [apply ko_assert | intros _].
  generalize (Z.to_nat n) as k. intros k. revert first d_first.
  induction k as [|k IH]; intros first d_first; simpl; [apply ko_ret |].
  apply ko_bind; [apply ko_take | intros x].
  apply ko_bind; [apply ko_assign | intros _; apply IH].
Qed.

Lemma ko_get this : keeps_objs (T := T) (Vector.get this).
Proof.
  intros s r s'. unfold Vector.get.
  destruct (objs s !! this); intros [=]; subst. reflexivity.
Qed.

Lemma ko_begin this : keeps_objs (T := T) (Vector.begin this).
Proof.
  unfold Vector.begin. apply ko_bind; [apply ko_get | intros v; apply ko_ret].
Qed.

Lemma ko_end this : keeps_objs (T := T) (Vector.end_ this).
Proof.
  unfold Vector.end_, RawMemory.op_plus. apply ko_bind; [apply ko_get | intros v].
  apply ko_bind; [apply ko_assert | intros _; apply ko_ret].
Qed.
End HeapOnly.

(** ** Element access, [PopBack] and [Erase] *)

Section Access.
Context {T Args : Type} {E : Element T Args} {P : Platform T}.
Implicit Types (s : state T) (xs : list T) (b : nat).

Lemma Vector_op_index_Ok this s v i :
  objs s !! this = Some v -> i < size_ v ->
  Vector.op_index this i s = Ok (buffer_ (data_ v) +p i) s.
Proof.
  intros Hv Hi. unfold Vector.op_index. rewrite (bind_Ok _ _ _ _ _ (get_Ok _ _ _ Hv)).
  destruct (Z.ltb_spec i (size_ v)); [reflexivity | lia].
Qed.

(** [v[i]] is the [i]-th element for [i < Size()], and the assertion in
    [operator[]] fails for every other index. *)
Theorem index_reads_element (this : nat) (s : state T) (xs : list T) (i : Z) :
  contents s this = Some xs -> 0 <= i ->
  (forall x, xs !! Z.to_nat i = Some x ->
             (let* p := Vector.op_index this i in load p) s = Ok x s) /\
  (Z.of_nat (length xs) <= i -> Vector.op_index this i s = Fault).
Proof.
  intros Hc Hi. apply contents_holds in Hc as [k Hh]. split.
  - intros x Hx. pose proof (lookup_lt_Some _ _ _ Hx) as Hlt.
    destruct (holds_block _ _ _ _ Hh) as (b & Hv & Hb & _); [lia |].
    erewrite bind_Ok by (apply Vector_op_index_Ok; [exact Hv | simpl; lia]).
    unfold ptr_add. simpl.
    apply load_middle with (l1 := Live <$> take (Z.to_nat i) xs)
                           (l2 := (Live <$> drop (S (Z.to_nat i)) xs) ++ replicate k Raw).
    + rewrite Hb. rewrite <- (take_drop_middle xs (Z.to_nat i) x Hx) at 1.
      norm_lists. reflexivity.
    + rewrite length_fmap, length_take. lia.
  - intros Hge. destruct Hh as (v & Hv & Hsz & _).
    unfold Vector.op_index. erewrite bind_Ok by (apply get_Ok; exact Hv).
    destruct (Z.ltb_spec i (size_ v)); [lia | reflexivity].
Qed.

(** [begin()] and [end()] span exactly the live elements. *)
Theorem end_minus_begin_is_size (this : nat) (s : state T) (xs : list T) :
  contents s this = Some xs ->
  exists first last,
    Vector.begin this s = Ok first s /\
    Vector.end_ this s = Ok last s /\
    ptr_diff last first s = Ok (Z.of_nat (length xs)) s /\
    (ptr_eqb first last = true <-> xs = []).
Proof.
  intros Hc. apply contents_holds in Hc as [k Hh].
  pose proof Hh as (v & Hv & _).
  pose proof (holds_end _ _ _ _ _ Hh (begin_Ok _ _ _ Hv)) as He.
  eexists _, _. split; [apply (begin_Ok _ _ _ Hv) |]. split; [exact He |].
  split.
  - rewrite ptr_diff_Ok by reflexivity. unfold ptr_add. simpl. f_equal. lia.
  - unfold ptr_eqb, ptr_add. simpl. rewrite bool_decide_eq_true_2 by reflexivity. simpl.
    destruct (Z.eqb_spec (off (buffer_ (data_ v)))
                         (off (buffer_ (data_ v)) + Z.of_nat (length xs))) as [Heq | Hneq].
    + split; [intros _ | reflexivity]. destruct xs; [reflexivity | simpl in Heq; lia].
    + split; [discriminate |]. intros ->. simpl in Hneq. lia.
Qed.

(** What [PopBack] and [Erase] do to the object store: only [size_] of the
    vector itself changes. *)
Lemma PopBack_objs this s s' :
  Vector.PopBack this s = Ok tt s' ->
  exists v, objs s !! this = Some v /\
            objs s' = <[this := MkVector (data_ v) (size_t (size_ v - 1))]> (objs s).
Proof.
  unfold Vector.PopBack. intros H.
  apply bind_inv_Ok in H as (e & s1 & H1 & H). apply ko_end in H1.
  apply bind_inv_Ok in H as (u & s2 & H2 & H). apply ko_destroy_at in H2.
  apply bind_inv_Ok in H as (v & s3 & H3 & H).
  pose proof (ko_get _ _ _ _ H3) as H3'.
  unfold Vector.get in H3. destruct (objs s2 !! this) as [w|] eqn:Hw; [|discriminate].
  injection H3 as -> ->.
  rewrite (set_size_Ok _ _ _ _ Hw) in H. injection H as <-.
  exists v. simpl. rewrite <- H1, <- H2. auto.
Qed.

Lemma Erase_objs this pos s r s' :
  Vector.Erase this pos s = Ok r s' ->
  exists v, objs s !! this = Some v /\
            objs s' = <[this := MkVector (data_ v) (size_t (size_ v - 1))]> (objs s).
Proof.
  unfold Vector.Erase, Vector.cbegin. intros H.
  apply bind_inv_Ok in H as (cb & s1 & H1 & H). apply ko_begin in H1.
  apply bind_inv_Ok in H as (dist & s2 & H2 & H). apply ko_ptr_diff in H2.
  apply bind_inv_Ok in H as (b & s3 & H3 & H). apply ko_begin in H3.
  apply bind_inv_Ok in H as (e & s4 & H4 & H). apply ko_end in H4.
  apply bind_inv_Ok in H as (u & s5 & H5 & H). apply ko_move in H5.
  apply bind_inv_Ok in H as (e' & s6 & H6 & H). apply ko_end in H6.
  apply bind_inv_Ok in H as (u' & s7 & H7 & H). apply ko_destroy_n in H7.
  apply bind_inv_Ok in H as (v & s8 & H8 & H).
  unfold Vector.get in H8. destruct (objs s7 !! this) as [w|] eqn:Hw; [|discriminate].
  injection H8 as -> ->.
  rewrite (bind_Ok _ _ _ _ _ (set_size_Ok _ _ _ _ Hw)) in H. injection H as _ <-.
  exists v. simpl. rewrite <- H1, <- H2, <- H3, <- H4, <- H5, <- H6, <- H7. auto.
Qed.

(** [Erase] at a valid position removes that element, keeps the others in
    order in the same buffer, and returns the position it was given, which
    now designates the element that followed (or [end()]). *)
Theorem Erase_removes_element (this : nat) (s : state T) (xs : list T) (p : nat) (p0 : ptr) :
  contents s this = Some xs -> (p < length xs)%nat ->
  Vector.begin this s = Ok p0 s ->
  exists s',
    Vector.Erase this (p0 +p Z.of_nat p) s = Ok (p0 +p Z.of_nat p) s' /\
    contents s' this = Some (take p xs ++ drop (S p) xs) /\
    Vector.Size this s' = Ok (Z.of_nat (length xs) - 1) s' /\
    Vector.begin this s' = Ok p0 s' /\
    (forall that, that <> this -> objs s' !! that = objs s !! that).
Proof.
  intros Hc Hp Hbegin. apply contents_holds in Hc as [k Hh].
  destruct (lookup_lt_is_Some_2 xs p Hp) as [y Hy].
  rewrite <- (take_drop_middle xs p y Hy) in Hh.
  assert (length (take p xs) = p) as Hpre by (rewrite length_take; lia).
  destruct (Erase_holds s this (take p xs) y (drop (S p) xs) k p0 Hh Hbegin) as (s' & HE & Hh').
  rewrite Hpre in HE. exists s'. split; [exact HE |].
  split; [apply contents_holds; eauto |].
  split.
  { pose proof (holds_Size _ _ _ _ Hh') as HS.
    replace (Z.of_nat (length xs) - 1) with (Z.of_nat (length (take p xs ++ drop (S p) xs)));
      [exact HS |].
    rewrite length_app, length_take, length_drop. lia. }
  destruct (Erase_objs _ _ _ _ _ HE) as (v & Hv & Hobjs).
  split.
  - rewrite (begin_Ok _ _ _ Hv) in Hbegin. injection Hbegin as <-.
    apply (begin_Ok _ _ (MkVector (data_ v) (size_t (size_ v - 1)))).
    rewrite Hobjs. apply lookup_insert_eq.
  - intros that Hne. rewrite Hobjs. apply lookup_insert_ne. congruence.
Qed.

(** [Erase(end())] runs into the assertion-free undefined behaviour of
    [std::move] on a reversed range. *)
Theorem Erase_at_end_faults (this : nat) (s : state T) (xs : list T) (e : ptr) :
  contents s this = Some xs -> Vector.end_ this s = Ok e s ->
  Vector.Erase this e s = Fault.
Proof.
  intros Hc He. apply contents_holds in Hc as [k Hh].
  pose proof Hh as (v & Hv & Hsz & _).
  rewrite (holds_end _ _ _ _ _ Hh (begin_Ok _ _ _ Hv)) in He. injection He as <-.
  unfold Vector.Erase, Vector.cbegin.
  erewrite bind_Ok by (apply begin_Ok; exact Hv).
  erewrite bind_Ok by (apply ptr_diff_Ok; reflexivity).
  erewrite bind_Ok by (apply begin_Ok; exact Hv).
  rewrite (bind_Ok _ _ _ _ _ (holds_end _ _ _ _ _ Hh (begin_Ok _ _ _ Hv))).
  apply bind_Fault. unfold std.move.
  erewrite bind_Ok by (apply ptr_diff_Ok; reflexivity).
  unfold ptr_add. simpl.
  destruct (Z.leb_spec 0 (off (buffer_ (data_ v)) + Z.of_nat (length xs) -
                          (off (buffer_ (data_ v)) +
                           (off (buffer_ (data_ v)) + Z.of_nat (length xs) -
                            off (buffer_ (data_ v))) + 1))); [lia | reflexivity].
Qed.

(** [PopBack] destroys the last element and nothing else. *)
Theorem PopBack_removes_last (this : nat) (s : state T) (xs : list T) (x : T) (p0 : ptr) :
  contents s this = Some (xs ++ [x]) -> Vector.begin this s = Ok p0 s ->
  exists s',
    Vector.PopBack this s = Ok tt s' /\
    contents s' this = Some xs /\
    Vector.Size this s' = Ok (Z.of_nat (length xs)) s' /\
    Vector.begin this s' = Ok p0 s' /\
    (forall that, that <> this -> objs s' !! that = objs s !! that).
Proof.
  intros Hc Hbegin. apply contents_holds in Hc as [k Hh].
  destruct (holds_block _ _ _ _ Hh) as (b & Hv & Hb & Hcap); [solve_length |].
  assert (length (xs ++ [x]) = S (length xs)) as Hl by solve_length.
  rewrite Hl in *.
  assert (exists s', Vector.PopBack this s = Ok tt s' /\ holds s' this xs (S k)) as (s' & HP & Hh').
  { unfold Vector.PopBack.
    erewrite bind_Ok by (apply end_Ok; [exact Hv | simpl; lia]).
    unfold ptr_add. simpl.
    erewrite bind_Ok; cycle 1.
    { apply destroy_at_middle with (l1 := Live <$> xs) (x := x) (l2 := replicate k Raw).
      - rewrite Hb. norm_lists. reflexivity.
      - solve_length. }
    erewrite bind_Ok by (apply get_Ok; exact Hv). simpl.
    erewrite set_size_Ok by exact Hv.
    eexists. split; [reflexivity |].
    apply holds_intro with (b := b); simpl.
    - rewrite lookup_insert_eq. f_equal. f_equal; [f_equal; lia |].
      rewrite size_t_small by lia. lia.
    - rewrite lookup_insert_eq. reflexivity.
    - revert Hcap. solve_length. }
  exists s'. split; [exact HP |]. split; [apply contents_holds; eauto |].
  split; [apply (holds_Size _ _ _ _ Hh') |].
  destruct (PopBack_objs _ _ _ HP) as (v & Hv' & Hobjs).
  split.
  - rewrite (begin_Ok _ _ _ Hv') in Hbegin. injection Hbegin as <-.
    apply (begin_Ok _ _ (MkVector (data_ v) (size_t (size_ v - 1)))).
    rewrite Hobjs. apply lookup_insert_eq.
  - intros that Hne. rewrite Hobjs. apply lookup_insert_ne. congruence.
Qed.

(** [PopBack] on an empty vector is undefined: it destroys the slot before
    the buffer. *)
Theorem PopBack_empty_faults (this : nat) (s : state T) :
  contents s this = Some [] -> Vector.PopBack this s = Fault.
Proof.
  intros Hc. apply contents_holds in Hc as [k Hh].
  pose proof Hh as (v & Hv & Hsz & _ & Hst). simpl in Hsz.
  unfold Vector.PopBack.
  rewrite (bind_Ok _ _ _ _ _ (holds_end _ _ _ _ _ Hh (begin_Ok _ _ _ Hv))).
  apply bind_Fault. unfold destroy_at, slot_at, ptr_add. simpl.
  apply storage_inv in Hst as [[Hd _] | (b & Hd & _)]; rewrite Hd; reflexivity.
Qed.
End Access.

(** ** Growing by [Resize] *)

Section ResizeGrow.
Context {T Args : Type} {E : Element T Args} {P : Platform T}.
Implicit Types (s : state T) (xs : list T) (b : nat).

Lemma value_construct_n_none p s :
  std.uninitialized_value_construct_n p 0 s = Ok tt s.
Proof. reflexivity. Qed.

(** Value-constructing [m] more elements in spare slots. *)
Lemma fill_spare_holds s this xs k m :
  holds s this xs k -> (m <= k)%nat ->
  exists s',
    (let* v := Vector.get this in
     std.uninitialized_value_construct_n
       (RawMemory.GetAddress (data_ v) +p size_ v) (Z.of_nat m);;
     Vector.set_size this (Z.of_nat (length xs + m))) s = Ok tt s' /\
    holds s' this (xs ++ replicate m value_init) (k - m).
Proof.
  intros Hh Hm. destruct m as [|m].
  - pose proof Hh as (v & Hv & Hsz & Hc & Hst).
    erewrite bind_Ok by (apply get_Ok; exact Hv).
    rewrite (bind_Ok _ _ _ _ _ (value_construct_n_none _ _)).
    erewrite set_size_Ok by exact Hv.
    eexists. split; [reflexivity |].
    simpl. rewrite app_nil_r, Nat.sub_0_r, Nat.add_0_r.
    apply (holds_ext s); [exact Hh | | reflexivity].
    simpl. rewrite lookup_insert_eq, Hv. destruct v; simpl in *. congruence.
  - destruct (holds_block _ _ _ _ Hh) as (b & Hv & Hb & Hc); [lia |].
    erewrite bind_Ok by (apply get_Ok; exact Hv).
    unfold RawMemory.GetAddress, ptr_add. simpl.
    assert (replicate k (Raw (T := T)) = replicate (S m) Raw ++ replicate (k - S m) Raw) as Hrep.
    { rewrite <- replicate_add. f_equal. lia. }
    erewrite bind_Ok; cycle 1.
    { apply value_construct_n_fill with (l1 := Live <$> xs) (l2 := replicate (k - S m) Raw).
      - rewrite Hb, Hrep. reflexivity.
      - solve_length. }
    erewrite set_size_Ok by exact Hv.
    eexists. split; [reflexivity |].
    apply holds_intro with (b := b); cbn [objs heap set_objs set_heap data_].
    + rewrite lookup_insert_eq. f_equal. f_equal; [f_equal; solve_length | solve_length].
    + rewrite lookup_insert_eq.
      change (value_init :: replicate m value_init) with (replicate (S m) (value_init (T := T))).
      rewrite fmap_app, fmap_replicate_Live, <- app_assoc. reflexivity.
    + revert Hc. solve_length.
Qed.

(** [Resize] to at least the current size keeps the elements, appends
    value-initialised ones up to the new size, and reallocates only when
    the new size exceeds the capacity; in that case [new_size * sizeof(T)]
    must not wrap in [size_t] and [operator new] must grant the request. *)
Theorem Resize_grow_value_initialises (this : nat) (s : state T) (xs : list T)
    (c new_size : Z) :
  contents s this = Some xs -> Vector.Capacity this s = Ok c s ->
  Z.of_nat (length xs) <= new_size < 2 ^ 64 ->
  (c < new_size ->
   new_size * sizeof_T < 2 ^ 64 /\ bad_alloc s (new_size * sizeof_T) = false) ->
  exists s',
    Vector.Resize this new_size s = Ok tt s' /\
    contents s' this =
      Some (xs ++ replicate (Z.to_nat new_size - length xs) value_init) /\
    Vector.Size this s' = Ok new_size s' /\
    Vector.Capacity this s' = Ok (Z.max c new_size) s'.
Proof.
  intros Hc Hcap Hn Hroom. apply contents_holds in Hc as [k Hh].
  pose proof (holds_Capacity _ _ _ _ Hh) as Hcap'.
  assert (c = Z.of_nat (length xs + k)) as -> by congruence.
  pose proof Hh as (v & Hv & Hsz & _).
  assert (exists s1 k1, Vector.Reserve this new_size s = Ok tt s1 /\ holds s1 this xs k1 /\
                        Z.of_nat (length xs + k1) = Z.max (Z.of_nat (length xs + k)) new_size)
    as (s1 & k1 & HR & Hh1 & Hk1).
  { destruct (Z.le_gt_cases new_size (Z.of_nat (length xs + k))) as [Hle | Hgt].
    - exists s, k. split; [apply (Reserve_enough _ _ _ _ _ Hh Hle) |]. split; [exact Hh | lia].
    - destruct (Hroom ltac:(lia)) as [Hfit Hnew].
      destruct (Reserve_grows s this xs k new_size Hh ltac:(lia) Hfit Hnew) as (s1 & HR & Hh1).
      exists s1, (Z.to_nat new_size - length xs)%nat. split; [exact HR |].
      split; [exact Hh1 | lia]. }
  destruct (fill_spare_holds s1 this xs k1 (Z.to_nat new_size - length xs) Hh1) as (s' & HF & Hh');
    [lia |].
  exists s'. split.
  { unfold Vector.Resize. erewrite bind_Ok by (apply get_Ok; exact Hv).
    destruct (Z.ltb_spec new_size (size_ v)); [lia |].
    rewrite !bind_bind. rewrite (bind_Ok _ _ _ _ _ HR).
    rewrite <- HF. pose proof Hh1 as (v1 & Hv1 & Hsz1 & _).
    rewrite !bind_bind.
    erewrite bind_Ok by (apply get_Ok; exact Hv1).
    erewrite (bind_Ok (Vector.get this)) by (apply get_Ok; exact Hv1).
    rewrite Hsz1.
    replace (size_t (new_size - Z.of_nat (length xs)))
      with (Z.of_nat (Z.to_nat new_size - length xs)) by (rewrite size_t_small; lia).
    replace (Z.of_nat (length xs + (Z.to_nat new_size - length xs))) with new_size by lia.
    reflexivity. }
  split; [apply contents_holds; eauto |].
  pose proof (holds_Size _ _ _ _ Hh') as HS. pose proof (holds_Capacity _ _ _ _ Hh') as HC.
  rewrite length_app, length_replicate in HS, HC.
  split.
  - replace new_size with (Z.of_nat (length xs + (Z.to_nat new_size - length xs))) at 1 by lia.
    exact HS.
  - rewrite <- Hk1.
    replace (Z.of_nat (length xs + k1))
      with (Z.of_nat (length xs + (Z.to_nat new_size - length xs) +
                      (k1 - (Z.to_nat new_size - length xs)))) by lia.
    exact HC.
Qed.
End ResizeGrow.

(** ** Exceptions from the element constructor *)

Section Throwing.
Context {T Args : Type} {E : Element T Args} {P : Platform T}.
Implicit Types (s : state T) (xs pre post : list T) (b : nat).

Lemma make_Throw args s : construct args = None -> Vector.make args s = Throw s.
Proof. unfold Vector.make. intros ->. reflexivity. Qed.

Lemma placement_new_Throw p args s :
  construct args = None -> Vector.placement_new p args s = Throw s.
Proof.
  intros Hx. unfold Vector.placement_new. apply bind_Throw. apply make_Throw. exact Hx.
Qed.

Lemma on_throw_Throw {A} (m : M T A) (cleanup : M T unit) s s1 s2 :
  m s = Throw s1 -> cleanup s1 = Ok tt s2 -> on_throw m cleanup s = Throw s2.
Proof. intros Hm Hc. unfold on_throw. rewrite Hm, Hc. reflexivity. Qed.

Lemma EmplaceBack_Throw s this args n c :
  Vector.Size this s = Ok n s -> Vector.Capacity this s = Ok c s ->
  n <= c -> 0 <= n < 2 ^ 63 -> construct args = None ->
  Vector.EmplaceBack this args s = Throw s.
Proof.
  intros Hs Hc Hle Hn Hx.
  apply Size_Ok in Hs as (v & Hv & Hsz). pose proof Hc as Hc'.
  apply Capacity_Ok in Hc' as (v' & Hv' & Hcap). assert (v' = v) as -> by congruence.
  unfold Vector.EmplaceBack.
  erewrite bind_Ok by (apply get_Ok; exact Hv).
  rewrite (bind_Ok _ _ _ _ _ Hc). apply bind_Throw. rewrite Hsz.
  destruct (Z.eqb_spec n c) as [-> | Hne].
  - fold (grown c). destruct (grown_bounds c Hn) as [Hg _].
    destruct (ctor_outcome (grown c) s ltac:(lia)) as [Hnew | [l Hnew]];
      [apply bind_Throw; exact Hnew |].
    erewrite bind_Ok by exact Hnew.
    apply bind_Throw. eapply on_throw_Throw.
    + erewrite bind_Ok by (apply op_index_Ok; simpl; lia).
      apply placement_new_Throw. exact Hx.
    + unfold RawMemory.dtor. simpl. apply Deallocate_fresh_block.
  - erewrite bind_Ok by (apply op_index_Ok; lia).
    apply placement_new_Throw. exact Hx.
Qed.

(** Strong exception safety of every append: whatever the capacity, if the
    constructor of the new element throws, [EmplaceBack] and [PushBack]
    propagate the exception in the state they were called in. *)
Theorem append_throw_any_capacity (this : nat) (args : Args) (s : state T) (xs : list T) :
  contents s this = Some xs -> Z.of_nat (length xs) < 2 ^ 63 -> construct args = None ->
  Vector.EmplaceBack this args s = Throw s /\ Vector.PushBack this args s = Throw s.
Proof.
  intros Hc Hlen Hx. apply contents_holds in Hc as [k Hh].
  assert (Vector.EmplaceBack this args s = Throw s) as HE.
  { apply (EmplaceBack_Throw s this args (Z.of_nat (length xs)) (Z.of_nat (length xs + k)));
      [apply (holds_Size _ _ _ _ Hh) | apply (holds_Capacity _ _ _ _ Hh) | lia | lia | exact Hx]. }
  split; [exact HE |]. unfold Vector.PushBack. apply bind_Throw. exact HE.
Qed.

(** Strong exception safety of [Emplace] and [Insert] at every position:
    if the constructor of the new element throws, the exception leaves in
    the state the call was made in. *)
Theorem Emplace_throw_leaves_state (this : nat) (args : Args) (s : state T) (xs : list T)
    (p : nat) (p0 : ptr) :
  contents s this = Some xs -> (p <= length xs)%nat ->
  Z.of_nat (length xs) < 2 ^ 63 ->
  Vector.begin this s = Ok p0 s -> construct args = None ->
  Vector.Emplace this (p0 +p Z.of_nat p) args s = Throw s /\
  Vector.Insert this (p0 +p Z.of_nat p) args s = Throw s.
Proof.
  intros Hc Hp Hlen Hbegin Hx. apply contents_holds in Hc as [k Hh].
  pose proof (holds_end _ _ _ _ _ Hh Hbegin) as Hend.
  pose proof (holds_Capacity _ _ _ _ Hh) as Hcap.
  pose proof (holds_Size _ _ _ _ Hh) as Hsize.
  pose proof Hh as (v & Hv & Hsz & _).
  apply Capacity_Ok in Hcap as (v' & Hv' & Hcapv). assert (v' = v) as -> by congruence.
  rewrite (begin_Ok _ _ _ Hv) in Hbegin. injection Hbegin as <-.
  assert (Vector.Emplace this (buffer_ (data_ v) +p Z.of_nat p) args s = Throw s) as HE;
    [| split; exact HE].
  unfold Vector.Emplace, Vector.cbegin, Vector.cend.
  erewrite bind_Ok by (apply begin_Ok; exact Hv).
  erewrite bind_Ok by (apply ptr_diff_Ok; reflexivity).
  rewrite (bind_Ok _ _ _ _ _ Hend).
  destruct (Nat.eq_dec p (length xs)) as [-> | Hpne].
  - rewrite ptr_eqb_refl. apply bind_Throw.
    apply (EmplaceBack_Throw s this args (Z.of_nat (length xs)) (Z.of_nat (length xs + k)));
      [exact Hsize | apply (holds_Capacity _ _ _ _ Hh) | lia | lia | exact Hx].
  - rewrite ptr_eqb_offset by lia.
    erewrite bind_Ok by (apply get_Ok; exact Hv).
    erewrite bind_Ok by (apply Capacity_Ok; eauto).
    unfold ptr_add. simpl.
    replace (off (buffer_ (data_ v)) + Z.of_nat p - off (buffer_ (data_ v)))
      with (Z.of_nat p) by lia.
    rewrite Hsz, Hcapv.
    destruct (Z.eqb_spec (Z.of_nat (length xs)) (Z.of_nat (length xs + k))).
    + fold (grown (Z.of_nat (length xs))).
      destruct (grown_bounds (Z.of_nat (length xs))) as [Hg _]; [lia |].
      rewrite (size_t_small (Z.of_nat p)) by lia.
      destruct (ctor_outcome (grown (Z.of_nat (length xs))) s ltac:(lia))
        as [Hnew | [l Hnew]]; [apply bind_Throw; exact Hnew |].
      erewrite bind_Ok by exact Hnew.
      apply bind_Throw. eapply on_throw_Throw.
      * erewrite bind_Ok by (apply op_index_Ok; simpl; lia).
        apply bind_Throw. apply placement_new_Throw. exact Hx.
      * unfold RawMemory.dtor. simpl. apply Deallocate_fresh_block.
    + erewrite bind_Ok by (apply begin_Ok; exact Hv).
      apply bind_Throw. apply make_Throw. exact Hx.
Qed.
End Throwing.

(** ** Operations within the capacity *)

Section WithinCapacity.
Context {T Args : Type} {E : Element T Args} {P : Platform T}.
Implicit Types (s : state T) (xs : list T) (b : nat).

(** An append that finds a spare slot constructs in place: the buffer
    stays where it is. *)
Lemma EmplaceBack_spare_stable s this xs k args x p0 :
  holds s this xs (S k) -> construct args = Some x -> Vector.begin this s = Ok p0 s ->
  exists s',
    Vector.EmplaceBack this args s = Ok (p0 +p Z.of_nat (length xs)) s' /\
    holds s' this (xs ++ [x]) k /\
    Vector.begin this s' = Ok p0 s'.
Proof.
  intros Hh Hx Hbegin. pose proof (holds_Capacity _ _ _ _ Hh) as Hcap.
  destruct (holds_block _ _ _ _ Hh) as (b & Hv & Hb & Hc); [lia |].
  rewrite (begin_Ok _ _ _ Hv) in Hbegin. injection Hbegin as <-.
  unfold Vector.EmplaceBack.
  erewrite bind_Ok by (apply get_Ok; exact Hv). cbn [size_ data_].
  rewrite (bind_Ok _ _ _ _ _ Hcap).
  destruct (Z.eqb_spec (Z.of_nat (length xs)) (Z.of_nat (length xs + S k))); [lia |].
  rewrite bind_bind.
  erewrite bind_Ok by (apply op_index_Ok; simpl; lia). unfold ptr_add. simpl.
  erewrite bind_Ok; cycle 1.
  { rewrite (placement_new_Ok _ _ _ _ Hx).
    apply construct_at_middle with (x := Raw); [exact Hb | solve_length]. }
  erewrite append_finish; cycle 1.
  { exact Hv. }
  { lia. }
  { lia. }
  { simpl. lia. }
  eexists. split; [unfold ptr_add; simpl; reflexivity |].
  split.
  - eexists. simpl. rewrite lookup_insert_eq. split; [reflexivity |]. simpl.
    split; [solve_length |]. split; [exact Hc |].
    apply storage_block_eq; simpl.
    + rewrite lookup_insert_eq, fmap_app, <- app_assoc. reflexivity.
    + solve_length.
  - erewrite begin_Ok by (simpl; apply lookup_insert_eq). reflexivity.
Qed.

Lemma push_all_spare values : forall s this xs k ys p0,
  holds s this xs k -> mapM construct values = Some ys ->
  (length values <= k)%nat -> Vector.begin this s = Ok p0 s ->
  exists s',
    push_all this values s = Ok tt s' /\
    holds s' this (xs ++ ys) (k - length values) /\
    Vector.begin this s' = Ok p0 s'.
Proof.
  induction values as [|value values IH]; intros s this xs k ys p0 Hh Hm Hlen Hbegin.
  - injection Hm as <-. exists s. rewrite app_nil_r. simpl. rewrite Nat.sub_0_r.
    split; [reflexivity | split; assumption].
  - rewrite mapM_Some in Hm. inversion Hm as [|? x ? ys' Hx Hm']; subst.
    apply mapM_Some in Hm'. simpl in Hlen.
    destruct k as [|k]; [lia |].
    destruct (EmplaceBack_spare_stable s this xs k value x p0 Hh Hx Hbegin)
      as (s1 & HE & Hh1 & Hb1).
    destruct (IH s1 this (xs ++ [x]) k ys' p0 Hh1 Hm') as (s' & HA & Hh' & Hb'); [lia | exact Hb1 |].
    exists s'. simpl. unfold Vector.PushBack. rewrite bind_bind.
    rewrite (bind_Ok _ _ _ _ _ HE). unfold bind at 1. unfold ret at 1.
    split; [exact HA |]. rewrite <- app_assoc in Hh'. split; [exact Hh' | exact Hb'].
Qed.

(** Appends that fit into the capacity never reallocate: [begin()] and
    [Capacity()] are unchanged, so iterators into the vector stay valid. *)
Theorem appends_within_capacity_keep_buffer (this : nat) (values : list Args)
    (s : state T) (xs ys : list T) (c : Z) (p0 : ptr) :
  contents s this = Some xs -> Vector.Capacity this s = Ok c s ->
  Vector.begin this s = Ok p0 s ->
  mapM construct values = Some ys ->
  Z.of_nat (length xs + length values) <= c ->
  exists s',
    push_all this values s = Ok tt s' /\
    contents s' this = Some (xs ++ ys) /\
    Vector.Capacity this s' = Ok c s' /\
    Vector.begin this s' = Ok p0 s'.
Proof.
  intros Hc Hcap Hbegin Hm Hlen. apply contents_holds in Hc as [k Hh].
  pose proof (holds_Capacity _ _ _ _ Hh) as Hcap'.
  assert (c = Z.of_nat (length xs + k)) as -> by congruence.
  destruct (push_all_spare values s this xs k ys p0 Hh Hm) as (s' & HA & Hh' & Hb');
    [lia | exact Hbegin |].
  exists s'. split; [exact HA |]. split; [apply contents_holds; eauto |].
  split; [|exact Hb'].
  pose proof (holds_Capacity _ _ _ _ Hh') as HC.
  assert (length ys = length values) as Hys.
  { apply mapM_Some, Forall2_length in Hm. congruence. }
  rewrite length_app, Hys in HC.
  replace (Z.of_nat (length xs + length values + (k - length values)))
    with (Z.of_nat (length xs + k)) in HC by lia.
  exact HC.
Qed.

(** Swapping twice gives back the state: [Swap] only exchanges the two
    objects. *)
Theorem Swap_twice_is_identity (a b : nat) (s : state T) (va vb : Vector) :
  objs s !! a = Some va -> objs s !! b = Some vb ->
  (Vector.Swap a b;; Vector.Swap a b) s = Ok tt s.
Proof.
  intros Ha Hb. rewrite (bind_Ok _ _ _ _ _ (Swap_Ok a b s va vb Ha Hb)).
  destruct (decide (a = b)) as [-> | Hne].
  - assert (va = vb) as -> by congruence.
    erewrite Swap_Ok by (simpl; apply lookup_insert_eq).
    f_equal. destruct s as [o h]. unfold set_objs. simpl in *. f_equal.
    rewrite !insert_insert_eq. apply insert_id. exact Hb.
  - erewrite Swap_Ok; cycle 1.
    { simpl. apply lookup_insert_eq. }
    { simpl. rewrite lookup_insert_ne by congruence. apply lookup_insert_eq. }
    f_equal. destruct s as [o h]. unfold set_objs. simpl in *. f_equal.
    apply map_eq. intros i. rewrite !lookup_insert.
    repeat case_decide; congruence.
Qed.
End WithinCapacity.

(** ** Compositions that may reallocate

    On the platform [unbounded]. *)

Section Composition.
Context {T Args : Type} {E : Element T Args}.
Implicit Types (s : state T) (xs : list T) (b : nat).

(** [Emplace(end(), args...)] does what [EmplaceBack(args...)] does: the
    same final state, and the iterator returned designates the element
    [EmplaceBack] returns a reference to. *)
Theorem Emplace_at_end_is_EmplaceBack (this : nat) (args : Args) (s : state T)
    (xs : list T) (x : T) (last : ptr) :
  contents s this = Some xs -> construct args = Some x ->
  Z.of_nat (length xs) < 2 ^ 63 -> Vector.end_ this s = Ok last s ->
  exists p s',
    Vector.EmplaceBack this args s = Ok p s' /\
    Vector.Emplace this last args s = Ok p s' /\
    (let* q := Vector.op_index this (Z.of_nat (length xs)) in load q) s' = Ok x s'.
Proof.
  intros Hc Hx Hlen Hlast. apply contents_holds in Hc as [k Hh].
  pose proof Hh as (v & Hv & _).
  pose proof (holds_end _ _ _ _ _ Hh (begin_Ok _ _ _ Hv)) as Hend.
  assert (last = buffer_ (data_ v) +p Z.of_nat (length xs)) as -> by congruence.
  destruct (EmplaceBack_holds s this xs k args x Hh Hx Hlen)
    as (s' & b' & k' & HE & Hh' & Hbegin' & _).
  exists (Ptr (Some b') (Z.of_nat (length xs))), s'. split; [exact HE |].
  split.
  - unfold Vector.Emplace, Vector.cbegin, Vector.cend.
    erewrite bind_Ok by (apply begin_Ok; exact Hv).
    erewrite bind_Ok by (apply ptr_diff_Ok; reflexivity).
    rewrite (bind_Ok _ _ _ _ _ Hend).
    rewrite ptr_eqb_refl.
    rewrite (bind_Ok _ _ _ _ _ HE).
    rewrite (bind_Ok _ _ _ _ _ (holds_end _ _ _ _ _ Hh' Hbegin')).
    unfold ret, ptr_add. simpl. f_equal. f_equal. solve_length.
  - assert (contents s' this = Some (xs ++ [x])) as Hc' by (apply contents_holds; eauto).
    destruct (index_reads_element this s' (xs ++ [x]) (Z.of_nat (length xs)) Hc') as [Hread _];
      [lia |].
    apply Hread. rewrite Nat2Z.id. apply list_lookup_middle. reflexivity.
Qed.


(** [PushBack] followed by [PopBack] gives back the elements and the size
    (the capacity may have grown). *)
Theorem PushBack_then_PopBack (this : nat) (value : Args) (x : T) (s : state T) (xs : list T) :
  contents s this = Some xs -> construct value = Some x ->
  Z.of_nat (length xs) < 2 ^ 63 ->
  exists s',
    (Vector.PushBack this value;; Vector.PopBack this) s = Ok tt s' /\
    contents s' this = Some xs /\
    Vector.Size this s' = Ok (Z.of_nat (length xs)) s'.
Proof.
  intros Hc Hx Hlen. apply contents_holds in Hc as [k Hh].
  destruct (PushBack_holds s this xs k value x Hh Hx Hlen) as (s1 & k1 & HP & Hh1 & _).
  assert (contents s1 this = Some (xs ++ [x])) as Hc1 by (apply contents_holds; eauto).
  pose proof Hh1 as (v1 & Hv1 & _).
  destruct (PopBack_removes_last this s1 xs x _ Hc1 (begin_Ok _ _ _ Hv1))
    as (s' & HPop & Hc' & HS & _).
  exists s'. rewrite (bind_Ok _ _ _ _ _ HP). auto.
Qed.


(** A [RawMemory] constructed and destroyed allocates and releases exactly
    one block, or none when the capacity is 0. *)
Theorem RawMemory_ctor_dtor_restores (capacity : Z) (s : state T) :
  (let* data := RawMemory.ctor capacity in RawMemory.dtor data) s = Ok tt s /\
  (capacity = 0 -> RawMemory.ctor capacity s = Ok RawMemory.ctor_default s).
Proof.
  destruct (Z.eq_dec capacity 0) as [-> | Hne].
  - split; [reflexivity | intros _; reflexivity].
  - split; [|contradiction].
    destruct (ctor_outcome capacity s Hne) as [Hnew | [l Hnew]].
    + revert Hnew. unfold RawMemory.ctor, RawMemory.Allocate.
      destruct (Z.eqb_spec capacity 0); [contradiction | discriminate].
    + rewrite (bind_Ok _ _ _ _ _ Hnew).
      unfold RawMemory.dtor. simpl. apply Deallocate_fresh_block.
Qed.
End Composition.

(** ** Copy assignment from a source that is not shorter

    On the platform [unbounded]: the source may exceed the capacity. *)

Section CopyAssign.
Context {T Args : Type} {E : Element T Args}.
Implicit Types (s : state T) (xs ys olds news : list T) (b : nat).

Lemma assign_loop_segment news : forall s this rhs i olds l1 l2 r1 r2 b br v r,
  objs s !! this = Some v -> buffer_ (data_ v) = Ptr (Some b) 0 ->
  objs s !! rhs = Some r -> buffer_ (data_ r) = Ptr (Some br) 0 ->
  b <> br ->
  heap s !! b = Some (l1 ++ (Live <$> olds) ++ l2) -> i = Z.of_nat (length l1) ->
  heap s !! br = Some (r1 ++ (Live <$> news) ++ r2) -> i = Z.of_nat (length r1) ->
  length olds = length news ->
  i + Z.of_nat (length news) <= size_ r -> i + Z.of_nat (length news) < 2 ^ 64 ->
  Vector.assign_loop this rhs i (length news) s =
  Ok tt (set_heap (<[b := l1 ++ (Live <$> news) ++ l2]> (heap s)) s).
Proof.
  induction news as [|x news IH];
    intros s this rhs i olds l1 l2 r1 r2 b br v r Hv Hvb Hr Hrb Hne Hb Hi Hbr Hi' Hlen Hsz H64;
    destruct olds as [|o olds]; try discriminate; simpl in *.
  - rewrite insert_id by exact Hb. rewrite set_heap_id. reflexivity.
  - erewrite bind_Ok by (apply Vector_op_index_Ok; [exact Hr | lia]).
    rewrite Hrb. unfold ptr_add. simpl.
    erewrite bind_Ok by (apply load_middle with (l1 := r1) (l2 := (Live <$> news) ++ r2);
                         [exact Hbr | lia]).
    erewrite bind_Ok by (apply get_Ok; exact Hv).
    unfold RawMemory.GetAddress. rewrite Hvb. unfold ptr_add. simpl.
    erewrite bind_Ok by (apply assign_middle with (l1 := l1) (x := o)
                                                  (l2 := (Live <$> olds) ++ l2);
                         [exact Hb | lia]).
    rewrite size_t_small by lia.
    erewrite (IH _ this rhs (i + 1) olds (l1 ++ [Live x]) l2 (r1 ++ [Live x]) r2 b br v r);
      try eassumption.
    + simpl. rewrite set_heap_set_heap, insert_insert_eq. norm_lists. reflexivity.
    + simpl. rewrite lookup_insert_eq. norm_lists. reflexivity.
    + solve_length.
    + simpl. rewrite lookup_insert_ne by congruence. rewrite Hbr. norm_lists. reflexivity.
    + solve_length.
    + lia.
    + lia.
    + lia.
Qed.

Lemma disjoint_blocks s this rhs v r b br :
  disjoint_buffers s this rhs = true ->
  objs s !! this = Some v -> objs s !! rhs = Some r ->
  blk (buffer_ (data_ v)) = Some b -> blk (buffer_ (data_ r)) = Some br -> b <> br.
Proof.
  unfold disjoint_buffers. intros Hd Hv Hr Hb Hbr. rewrite Hv, Hr, Hb, Hbr in Hd.
  destruct (Nat.eqb_spec b br); [discriminate | assumption].
Qed.

Lemma copy_n_none p q s : std.uninitialized_copy_n p 0 q s = Ok tt s.
Proof. reflexivity. Qed.

(** The branch that reuses the buffer, for a source that is not shorter
    than the target. *)
Lemma op_assign_fit s this rhs xs k ys kr :
  holds s this xs k -> holds s rhs ys kr -> this <> rhs ->
  disjoint_buffers s this rhs = true ->
  (length xs <= length ys <= length xs + k)%nat ->
  exists s',
    Vector.op_assign this rhs s = Ok tt s' /\
    holds s' this ys (length xs + k - length ys) /\
    holds s' rhs ys kr.
Proof.
  intros Hh Hhr Hne Hdis Hlen.
  pose proof (holds_Capacity _ _ _ _ Hh) as Hcap.
  pose proof Hh as (v & Hv & Hsz & Hc & Hst). pose proof Hhr as (r & Hr & Hszr & Hcr & Hstr).
  assert (Z.of_nat (length xs + k) < 2 ^ 64) as Hc64.
  { pose proof Hcap as HC. apply Capacity_Ok in HC as (v' & Hv' & HC).
    assert (v' = v) as -> by congruence. lia. }
  unfold Vector.op_assign. rewrite bool_decide_eq_true_2 by exact Hne.
  erewrite bind_Ok by (apply get_Ok; exact Hr).
  rewrite (bind_Ok _ _ _ _ _ Hcap).
  destruct (Z.ltb_spec (Z.of_nat (length xs + k)) (size_ r)); [lia |].
  erewrite bind_Ok by (apply get_Ok; exact Hv).
  destruct (Z.ltb_spec (size_ r) (size_ v)); [lia |].
  rewrite Hsz, Hszr, Nat2Z.id.
  replace (size_t (Z.of_nat (length ys) - Z.of_nat (length xs)))
    with (Z.of_nat (length ys - length xs)) by (rewrite size_t_small; lia).
  destruct (Nat.eq_dec (length ys) 0%nat) as [Hys0 | Hysn].
  - assert (ys = []) as -> by (destruct ys; [reflexivity | discriminate]).
    assert (xs = []) as -> by (destruct xs; [reflexivity | simpl in Hlen; lia]).
    simpl. erewrite bind_Ok by reflexivity.
    erewrite bind_Ok by reflexivity.
    erewrite set_size_Ok by exact Hv.
    eexists. split; [reflexivity |]. rewrite Nat.sub_0_r. split.
    + apply (holds_ext s); [exact Hh | | reflexivity].
      simpl. rewrite lookup_insert_eq, Hv. destruct v; simpl in *. congruence.
    + apply (holds_ext s); [exact Hhr | | reflexivity].
      simpl. apply lookup_insert_ne. congruence.
  - destruct (holds_block _ _ _ _ Hh) as (b & Hv' & Hb & Hc'); [lia |].
    destruct (holds_block _ _ _ _ Hhr) as (br & Hr' & Hbr & Hcr'); [lia |].
    assert (v = MkVector (MkRawMemory (Ptr (Some b) 0) (Z.of_nat (length xs + k)))
                         (Z.of_nat (length xs))) as -> by congruence.
    assert (r = MkVector (MkRawMemory (Ptr (Some br) 0) (Z.of_nat (length ys + kr)))
                         (Z.of_nat (length ys))) as -> by congruence.
    assert (b <> br) as Hbb by (apply (disjoint_blocks s this rhs _ _ b br Hdis Hv Hr); reflexivity).
    assert (length (take (length xs) ys) = length xs) as Htake by (rewrite length_take; lia).
    assert (length (drop (length xs) ys) = (length ys - length xs)%nat) as Hdrop
      by apply length_drop.
    replace (Vector.assign_loop (T := T) this rhs 0 (length xs))
      with (Vector.assign_loop (T := T) this rhs 0 (length (take (length xs) ys)))
      by (rewrite Htake; reflexivity).
    erewrite bind_Ok; cycle 1.
    { apply assign_loop_segment
        with (olds := xs) (l1 := []) (l2 := replicate k Raw) (r1 := [])
             (r2 := (Live <$> drop (length xs) ys) ++ replicate kr Raw)
             (b := b) (br := br)
             (v := MkVector (MkRawMemory (Ptr (Some b) 0) (Z.of_nat (length xs + k)))
                            (Z.of_nat (length xs)))
             (r := MkVector (MkRawMemory (Ptr (Some br) 0) (Z.of_nat (length ys + kr)))
                            (Z.of_nat (length ys)));
        try reflexivity; try assumption.
      - simpl. rewrite Hbr. rewrite <- (take_drop (length xs) ys) at 1.
        norm_lists. reflexivity.
      - lia.
      - simpl. lia.
      - lia. }
    unfold RawMemory.GetAddress, ptr_add. simpl.
    replace (Z.of_nat (length ys - length xs))
      with (Z.of_nat (length (drop (length xs) ys))) by (rewrite Hdrop; reflexivity).
    erewrite bind_Ok; cycle 1.
    { apply copy_n_segment
        with (l1 := Live <$> take (length xs) ys) (l2 := replicate kr Raw)
             (d1 := Live <$> take (length xs) ys)
             (mid := replicate (length ys - length xs) Raw)
             (d2 := replicate (length xs + k - length ys) Raw).
      - congruence.
      - simpl. rewrite lookup_insert_ne by congruence. rewrite Hbr.
        rewrite <- (take_drop (length xs) ys) at 1. norm_lists. reflexivity.
      - solve_length.
      - simpl. rewrite lookup_insert_eq. f_equal. f_equal.
        rewrite <- replicate_add. f_equal. lia.
      - solve_length.
      - rewrite length_replicate. lia. }
    erewrite set_size_Ok by exact Hv.
    eexists. split; [reflexivity |]. split.
    + apply holds_intro with (b := b); simpl.
      * rewrite lookup_insert_eq. f_equal. f_equal. f_equal. f_equal. lia.
      * rewrite lookup_insert_eq, app_assoc, <- fmap_app, take_drop. reflexivity.
      * replace (length ys + (length xs + k - length ys))%nat with (length xs + k)%nat by lia.
        exact Hc'.
    + apply (holds_ext s); [exact Hhr | simpl; apply lookup_insert_ne; congruence |].
      intros v0 b0 Hv0 Hb0. rewrite Hr in Hv0. injection Hv0 as <-. simpl in Hb0.
      injection Hb0 as <-. simpl. rewrite !lookup_insert_ne by congruence. reflexivity.
Qed.

Lemma fresh_object_unused (o : gmap nat Vector) : o !! fresh (dom o) = None.
Proof. apply not_elem_of_dom. apply is_fresh. Qed.

(** The branch that builds a copy and swaps it in, for a source longer than
    the capacity. *)
Lemma op_assign_grow s this rhs xs k ys kr :
  holds s this xs k -> holds s rhs ys kr -> this <> rhs ->
  disjoint_buffers s this rhs = true ->
  (length xs + k < length ys)%nat ->
  exists s',
    Vector.op_assign this rhs s = Ok tt s' /\
    holds s' this ys 0 /\
    holds s' rhs ys kr /\
    (forall that, that <> this -> objs s' !! that = objs s !! that).
Proof.
  intros Hh Hhr Hne Hdis Hlen.
  pose proof (holds_Capacity _ _ _ _ Hh) as Hcap.
  pose proof Hh as (v & Hv & Hsz & Hc & Hst). pose proof Hhr as (r & Hr & Hszr & Hcr & Hstr).
  assert (Z.of_nat (length ys + kr) < 2 ^ 64) as Hys64.
  { pose proof (holds_Capacity _ _ _ _ Hhr) as HC. apply Capacity_Ok in HC as (r' & Hr' & HC).
    assert (r' = r) as -> by congruence. lia. }
  set (tmp := fresh (dom (objs s))).
  assert (objs s !! tmp = None) as Htmp by apply fresh_object_unused.
  assert (tmp <> this) as Htt by congruence.
  assert (tmp <> rhs) as Htr by congruence.
  destruct (ctor_copy_state s tmp rhs ys kr Hhr Htr) as (vt & Hcopy & Hvt_size & Hvt_data).
  destruct (Nat.eqb_spec (length ys) 0) as [Hz | Hnz]; [lia |].
  set (b' := fresh (dom (heap s))) in *.
  assert (heap s !! b' = None) as Hfresh by apply fresh_block_unused.
  destruct vt as [dt nt]. simpl in Hvt_size, Hvt_data. subst dt nt. simpl in Hcopy.
  set (vt := MkVector (MkRawMemory (Ptr (Some b') 0) (Z.of_nat (length ys)))
                      (Z.of_nat (length ys))) in *.
  set (s1 := MkState (<[tmp := vt]> (objs s)) (<[b' := Live <$> ys]> (heap s))) in *.
  assert (Vector.Swap this tmp s1 =
          Ok tt (set_objs (<[this := vt]> (<[tmp := v]> (objs s1))) s1)) as Hswap.
  { apply Swap_Ok; simpl.
    - rewrite lookup_insert_ne by congruence. exact Hv.
    - apply lookup_insert_eq. }
  set (s2 := set_objs (<[this := vt]> (<[tmp := v]> (objs s1))) s1) in *.
  assert (objs s2 !! tmp = Some v) as Hv2.
  { simpl. rewrite lookup_insert_ne by congruence. apply lookup_insert_eq. }
  assert (holds s2 tmp xs k) as Hh2.
  { exists v. split; [exact Hv2 |]. split; [exact Hsz |]. split; [exact Hc |].
    rewrite <- Hst. apply storage_ext. intros b Hb. simpl.
    apply lookup_insert_ne. intros <-. apply (storage_allocated _ _ _ _ Hst Hb). exact Hfresh. }
  pose proof (dtor_holds s2 tmp xs k _ Hh2 (begin_Ok _ _ _ Hv2)) as Hdtor.
  exists (destroyed s2 tmp (buffer_ (data_ v))). split.
  { unfold Vector.op_assign. rewrite bool_decide_eq_true_2 by exact Hne.
    erewrite bind_Ok by (apply get_Ok; exact Hr).
    rewrite (bind_Ok _ _ _ _ _ Hcap).
    destruct (Z.ltb_spec (Z.of_nat (length xs + k)) (size_ r)); [|lia].
    erewrite bind_Ok by reflexivity. fold tmp.
    rewrite (bind_Ok _ _ _ _ _ Hcopy). rewrite (bind_Ok _ _ _ _ _ Hswap). exact Hdtor. }
  assert (forall b, blk (buffer_ (data_ v)) = Some b -> b <> b') as Hbb.
  { intros b Hb ->. apply (storage_allocated _ _ _ _ Hst Hb). exact Hfresh. }
  split; [|split].
  - apply holds_intro with (b := b').
    + unfold destroyed. simpl. rewrite lookup_delete_ne by congruence.
      rewrite lookup_insert_eq, Nat.add_0_r. reflexivity.
    + unfold destroyed. simpl. rewrite app_nil_r.
      destruct (blk (buffer_ (data_ v))) as [b|] eqn:Hb.
      * rewrite lookup_delete_ne by (apply Hbb; reflexivity). apply lookup_insert_eq.
      * apply lookup_insert_eq.
    + rewrite Nat.add_0_r. lia.
  - apply (holds_ext s); [exact Hhr | |].
    + unfold destroyed. simpl. rewrite lookup_delete_ne by congruence.
      rewrite !lookup_insert_ne by congruence. reflexivity.
    + intros r0 br Hr0 Hbr. rewrite Hr in Hr0. injection Hr0 as <-.
      assert (br <> b') as Hbrb'.
      { intros ->. apply (storage_allocated _ _ _ _ Hstr Hbr). exact Hfresh. }
      unfold destroyed. simpl.
      destruct (blk (buffer_ (data_ v))) as [b|] eqn:Hb.
      * rewrite lookup_delete_ne
          by (apply (disjoint_blocks s this rhs v r b br Hdis Hv Hr Hb Hbr)).
        apply lookup_insert_ne. congruence.
      * apply lookup_insert_ne. congruence.
  - intros that Hthat. unfold destroyed. simpl.
    destruct (decide (that = tmp)) as [-> | Hnt].
    + rewrite lookup_delete_eq. symmetry. exact Htmp.
    + rewrite lookup_delete_ne by congruence. rewrite !lookup_insert_ne by congruence.
      reflexivity.
Qed.

(** Copy assignment from a source that is not shorter than the target
    makes the target hold the elements of the source and leaves the source
    alone; the buffer is replaced (by one of exactly the source's size) only
    when the source does not fit the capacity. *)
Theorem copy_assignment_from_longer (this rhs : nat) (s : state T) (xs ys : list T) (c : Z) :
  contents s this = Some xs -> contents s rhs = Some ys ->
  Vector.Capacity this s = Ok c s ->
  this <> rhs -> disjoint_buffers s this rhs = true ->
  (length xs <= length ys)%nat ->
  exists s',
    Vector.op_assign this rhs s = Ok tt s' /\
    contents s' this = Some ys /\
    contents s' rhs = Some ys /\
    Vector.Capacity this s' =
      Ok (if c <? Z.of_nat (length ys) then Z.of_nat (length ys) else c) s'.
Proof.
  intros Hc Hcr Hcap Hne Hdis Hlen.
  apply contents_holds in Hc as [k Hh]. apply contents_holds in Hcr as [kr Hhr].
  pose proof (holds_Capacity _ _ _ _ Hh) as Hcap'.
  assert (c = Z.of_nat (length xs + k)) as -> by congruence.
  destruct (Z.ltb_spec (Z.of_nat (length xs + k)) (Z.of_nat (length ys))) as [Hlt | Hge].
  - destruct (op_assign_grow s this rhs xs k ys kr Hh Hhr Hne Hdis) as (s' & HA & Hh' & Hhr' & _);
      [lia |].
    exists s'. split; [exact HA |]. split; [apply contents_holds; eauto |].
    split; [apply contents_holds; eauto |].
    pose proof (holds_Capacity _ _ _ _ Hh') as HC. rewrite Nat.add_0_r in HC. exact HC.
  - destruct (op_assign_fit s this rhs xs k ys kr Hh Hhr Hne Hdis) as (s' & HA & Hh' & Hhr');
      [lia |].
    exists s'. split; [exact HA |]. split; [apply contents_holds; eauto |].
    split; [apply contents_holds; eauto |].
    pose proof (holds_Capacity _ _ _ _ Hh') as HC.
    replace (Z.of_nat (length ys + (length xs + k - length ys)))
      with (Z.of_nat (length xs + k)) in HC by lia.
    exact HC.
Qed.
End CopyAssign.

(** ** Emplacing without reallocation, and what the shrinking branches leave behind *)

Section Remaining.
Context {T Args : Type} {E : Element T Args} {P : Platform T}.
Implicit Types (s : state T) (xs ys pre gone : list T) (b : nat).

(** With a spare slot, [Emplace] and [Insert] work inside the buffer:
    [begin()] and [Capacity()] are unchanged, and the iterator returned is
    the position given, where the new element now is. *)
Theorem Emplace_within_capacity_keeps_buffer (this : nat) (args : Args) (x : T)
    (s : state T) (xs : list T) (c : Z) (p : nat) (p0 : ptr) :
  contents s this = Some xs -> Vector.Capacity this s = Ok c s ->
  Z.of_nat (length xs) < c -> (p <= length xs)%nat ->
  Vector.begin this s = Ok p0 s -> construct args = Some x ->
  exists s',
    Vector.Emplace this (p0 +p Z.of_nat p) args s = Ok (p0 +p Z.of_nat p) s' /\
    contents s' this = Some (take p xs ++ x :: drop p xs) /\
    Vector.Capacity this s' = Ok c s' /\
    Vector.begin this s' = Ok p0 s' /\
    load (p0 +p Z.of_nat p) s' = Ok x s'.
Proof.
  intros Hc Hcap Hlt Hp Hbegin Hx. apply contents_holds in Hc as [k Hh].
  pose proof (holds_Capacity _ _ _ _ Hh) as Hcap'.
  assert (c = Z.of_nat (length xs + k)) as -> by congruence.
  destruct k as [|k]; [lia |].
  assert (length (take p xs) = p) as Hpre by (rewrite length_take; lia).
  assert (exists s', Vector.Emplace this (p0 +p Z.of_nat p) args s = Ok (p0 +p Z.of_nat p) s' /\
                     holds s' this (take p xs ++ x :: drop p xs) k /\
                     Vector.begin this s' = Ok p0 s') as (s' & HE & Hh' & Hb').
  { destruct (drop p xs) as [|y post] eqn:Hdrop using rev_ind.
    - assert (p = length xs) as ->.
      { apply (f_equal length) in Hdrop. rewrite length_drop in Hdrop. simpl in Hdrop. lia. }
      rewrite firstn_all.
      destruct (EmplaceBack_spare_stable s this xs k args x p0 Hh Hx Hbegin)
        as (s' & HEB & Hh' & Hb').
      exists s'. split; [|split; assumption].
      unfold Vector.Emplace, Vector.cbegin, Vector.cend.
      rewrite (bind_Ok _ _ _ _ _ Hbegin).
      erewrite bind_Ok by (apply ptr_diff_Ok; reflexivity).
      rewrite (bind_Ok _ _ _ _ _ (holds_end _ _ _ _ _ Hh Hbegin)).
      rewrite ptr_eqb_refl.
      rewrite (bind_Ok _ _ _ _ _ HEB).
      rewrite (bind_Ok _ _ _ _ _ (holds_end _ _ _ _ _ Hh' Hb')).
      unfold ret, ptr_add. simpl. f_equal. f_equal. solve_length.
    - clear IHpost.
      rewrite <- (take_drop p xs), Hdrop in Hh.
      destruct (Emplace_spare s this (take p xs) post y k args x p0 Hh Hx Hbegin)
        as (s' & HE & Hh' & Hb').
      rewrite Hpre in HE. exists s'. auto. }
  exists s'. split; [exact HE |]. split; [apply contents_holds; eauto |].
  split.
  { pose proof (holds_Capacity _ _ _ _ Hh') as HC.
    replace (Z.of_nat (length (take p xs ++ x :: drop p xs) + k))
      with (Z.of_nat (length xs + S k)) in HC; [exact HC |].
    rewrite length_app, length_take, length_cons, length_drop. lia. }
  split; [exact Hb' |].
  destruct (holds_block _ _ _ _ Hh') as (b & Hv & Hb & _); [solve_length |].
  rewrite (begin_Ok _ _ _ Hv) in Hb'. injection Hb' as <-.
  unfold ptr_add. simpl.
  apply load_middle with (l1 := Live <$> take p xs)
                         (l2 := (Live <$> drop p xs) ++ replicate k Raw).
  - rewrite Hb. norm_lists. reflexivity.
  - solve_length.
Qed.

(** A shrinking [Resize] to a size of at least 1 leaves a vector that no
    longer satisfies the class invariant, and whose destructor destroys an
    element a second time. *)
Theorem Resize_shrink_then_dtor_faults (this : nat) (s : state T) (xs : list T) (new_size : Z) :
  contents s this = Some xs -> 1 <= new_size < Z.of_nat (length xs) ->
  exists s',
    Vector.Resize this new_size s = Ok tt s' /\
    Vector.Size this s' = Ok new_size s' /\
    contents s' this = None /\
    Vector.dtor this s' = Fault.
Proof.
  intros Hc Hn. apply contents_holds in Hc as [k Hh].
  assert (exists pre gone last, xs = pre ++ gone ++ [last] /\
                                Z.of_nat (length pre) + 1 = new_size /\ gone <> [])
    as (pre & gone & last & -> & Hpre & Hgone).
  { destruct xs as [|x0 xs _] using rev_ind; [simpl in Hn; lia |].
    exists (take (Z.to_nat new_size - 1) xs), (drop (Z.to_nat new_size - 1) xs), x0.
    rewrite length_app in Hn. simpl in Hn.
    split; [rewrite app_assoc, take_drop; reflexivity |].
    split; [rewrite length_take; lia |].
    intros Hd. apply (f_equal length) in Hd. rewrite length_drop in Hd. simpl in Hd. lia. }
  destruct (Resize_shrink_shifted s this pre gone last k Hh Hgone) as (s' & b & HR & Hv & Hb).
  rewrite Hpre in HR, Hv. exists s'. split; [exact HR |].
  split; [apply Size_Ok; eexists; split; [exact Hv | reflexivity] |].
  assert (exists g gone', gone = g :: gone') as (g & gone' & ->)
    by (destruct gone; [congruence | eauto]).
  simpl in Hb.
  split.
  - destruct (contents s' this) as [zs|] eqn:Hc'; [|reflexivity]. exfalso.
    apply contents_holds in Hc' as [k' (v' & Hv' & Hsz' & _ & Hst')].
    rewrite Hv in Hv'. injection Hv' as <-. simpl in Hsz', Hst'.
    unfold storage in Hst'. simpl in Hst'. rewrite Hb in Hst'.
    destruct (Z.of_nat _ =? _); [|discriminate]. injection Hst' as Hst'.
    assert (length zs = S (length pre)) as Hzs by lia.
    apply (f_equal (fun l => l !! length pre)) in Hst'.
    rewrite lookup_app_r in Hst' by (rewrite length_fmap; lia).
    rewrite length_fmap, Nat.sub_diag in Hst'. simpl in Hst'.
    rewrite lookup_app_l in Hst' by (rewrite length_fmap; lia).
    rewrite list_lookup_fmap in Hst'.
    destruct (zs !! length pre); discriminate.
  - unfold Vector.dtor. erewrite bind_Ok by (apply get_Ok; exact Hv). cbn [data_ size_].
    apply bind_Fault. unfold std.destroy_n, RawMemory.GetAddress. simpl.
    apply destroy_loop_hits_raw with (xs := pre) (l1 := [])
                                     (l2 := replicate (length gone') Raw ++
                                            Live last :: replicate k Raw);
      [exact Hb | reflexivity | lia].
Qed.
End Remaining.

(** ** The shrinking branch of the copy assignment *)

Section CopyAssignShrink.
Context {T Args : Type} {E : Element T Args} {P : Platform T}.
Implicit Types (s : state T) (xs ys olds gone : list T) (b : nat).

(** What the shrinking branch of the copy assignment does in general: the
    prefix is assigned, then the destroy range starts one slot early, so the
    last element just assigned is destroyed and the last element of the
    target stays alive. *)
Lemma op_assign_shrink_shifted s this rhs olds gone last k ys y kr :
  holds s this (olds ++ gone ++ [last]) k -> holds s rhs (ys ++ [y]) kr ->
  length olds = S (length ys) -> this <> rhs ->
  disjoint_buffers s this rhs = true ->
  exists s' b,
    Vector.op_assign this rhs s = Ok tt s' /\
    objs s' !! this =
      Some (MkVector (MkRawMemory (Ptr (Some b) 0)
                                  (Z.of_nat (length (olds ++ gone ++ [last]) + k)))
                     (Z.of_nat (S (length ys)))) /\
    heap s' !! b =
      Some ((Live <$> ys) ++ replicate (S (length gone)) Raw ++
            Live last :: replicate k Raw).
Proof.
  intros Hh Hhr Holds Hne Hdis.
  pose proof (holds_Capacity _ _ _ _ Hh) as Hcap.
  destruct (holds_block _ _ _ _ Hh) as (b & Hv & Hb & Hc); [solve_length |].
  destruct (holds_block _ _ _ _ Hhr) as (br & Hr & Hbr & Hcr); [solve_length |].
  assert (b <> br) as Hbb by (apply (disjoint_blocks s this rhs _ _ b br Hdis Hv Hr); reflexivity).
  assert (length (olds ++ gone ++ [last]) = (S (length ys) + length gone + 1)%nat) as Hl
    by solve_length.
  assert (length (ys ++ [y]) = S (length ys)) as Hlr by solve_length.
  unfold Vector.op_assign. rewrite bool_decide_eq_true_2 by exact Hne.
  erewrite bind_Ok by (apply get_Ok; exact Hr).
  rewrite (bind_Ok _ _ _ _ _ Hcap). cbn [size_ data_].
  destruct (Z.ltb_spec (Z.of_nat (length (olds ++ gone ++ [last]) + k))
                       (Z.of_nat (length (ys ++ [y])))); [lia |].
  erewrite bind_Ok by (apply get_Ok; exact Hv). cbn [size_ data_].
  destruct (Z.ltb_spec (Z.of_nat (length (ys ++ [y])))
                       (Z.of_nat (length (olds ++ gone ++ [last])))); [|lia].
  rewrite Nat2Z.id.
  erewrite bind_Ok; cycle 1.
  { apply assign_loop_segment
      with (olds := olds) (l1 := []) (l2 := (Live <$> gone ++ [last]) ++ replicate k Raw)
           (r1 := []) (r2 := replicate kr Raw) (b := b) (br := br)
           (v := MkVector (MkRawMemory (Ptr (Some b) 0)
                                       (Z.of_nat (length (olds ++ gone ++ [last]) + k)))
                          (Z.of_nat (length (olds ++ gone ++ [last]))))
           (r := MkVector (MkRawMemory (Ptr (Some br) 0) (Z.of_nat (length (ys ++ [y]) + kr)))
                          (Z.of_nat (length (ys ++ [y]))));
      try reflexivity; try assumption.
    - simpl. rewrite Hb. norm_lists. reflexivity.
    - lia.
    - lia. }
  unfold RawMemory.GetAddress, ptr_add. simpl.
  replace (size_t (Z.of_nat (length (olds ++ gone ++ [last])) - Z.of_nat (length (ys ++ [y]))))
    with (Z.of_nat (length (y :: gone))) by (rewrite size_t_small; simpl; lia).
  erewrite bind_Ok; cycle 1.
  { apply destroy_n_segment with (l1 := Live <$> ys) (l2 := Live last :: replicate k Raw).
    - simpl. rewrite lookup_insert_eq. norm_lists. reflexivity.
    - solve_length. }
  erewrite set_size_Ok by exact Hv.
  eexists _, b. split; [reflexivity |]. simpl.
  rewrite !lookup_insert_eq. split; [rewrite Hlr; reflexivity | reflexivity].
Qed.

(** Copy assignment from a non-empty source shorter than the target
    (which always fits the capacity) does not produce a copy: the target
    gets the source's size, but its last element has been destroyed. *)
Theorem copy_assignment_shrink_destroys_last (this rhs : nat) (s : state T) (xs ys : list T) :
  contents s this = Some xs -> contents s rhs = Some ys ->
  (1 <= length ys < length xs)%nat ->
  this <> rhs -> disjoint_buffers s this rhs = true ->
  exists s',
    Vector.op_assign this rhs s = Ok tt s' /\
    Vector.Size this s' = Ok (Z.of_nat (length ys)) s' /\
    contents s' this = None /\
    (let* p := Vector.op_index this (Z.of_nat (length ys) - 1) in load p) s' = Fault.
Proof.
  intros Hc Hcr Hlen Hne Hdis.
  apply contents_holds in Hc as [k Hh]. apply contents_holds in Hcr as [kr Hhr].
  assert (exists ys' y, ys = ys' ++ [y]) as (ys' & y & ->).
  { destruct ys as [|y ys _] using rev_ind; [simpl in Hlen; lia | eauto]. }
  rewrite length_app in Hlen. simpl in Hlen.
  assert (exists olds gone last, xs = olds ++ gone ++ [last] /\ length olds = S (length ys'))
    as (olds & gone & last & -> & Holds).
  { destruct xs as [|x0 xs _] using rev_ind; [simpl in Hlen; lia |].
    rewrite length_app in Hlen. simpl in Hlen.
    exists (take (S (length ys')) xs), (drop (S (length ys')) xs), x0.
    split; [rewrite app_assoc, take_drop; reflexivity | rewrite length_take; lia]. }
  destruct (op_assign_shrink_shifted s this rhs olds gone last k ys' y kr Hh Hhr Holds Hne Hdis)
    as (s' & b & HA & Hv & Hb).
  exists s'. split; [exact HA |].
  assert (length (ys' ++ [y]) = S (length ys')) as Hl by solve_length.
  rewrite Hl.
  split; [apply Size_Ok; eexists; split; [exact Hv | reflexivity] |].
  assert (heap s' !! b =
          Some ((Live <$> ys') ++ Raw :: replicate (length gone) Raw ++
                Live last :: replicate k Raw)) as Hb' by exact Hb.
  split.
  - destruct (contents s' this) as [zs|] eqn:Hc'; [|reflexivity]. exfalso.
    apply contents_holds in Hc' as [k' (v' & Hv' & Hsz' & _ & Hst')].
    rewrite Hv in Hv'. injection Hv' as <-. simpl in Hsz', Hst'.
    unfold storage in Hst'. simpl in Hst'. rewrite Hb' in Hst'.
    destruct (Z.of_nat _ =? _); [|discriminate]. injection Hst' as Hst'.
    assert (length zs = S (length ys')) as Hzs by lia.
    apply (f_equal (fun l => l !! length ys')) in Hst'.
    rewrite lookup_app_r in Hst' by (rewrite length_fmap; lia).
    rewrite length_fmap, Nat.sub_diag in Hst'. simpl in Hst'.
    rewrite lookup_app_l in Hst' by (rewrite length_fmap; lia).
    rewrite list_lookup_fmap in Hst'.
    destruct (zs !! length ys'); discriminate.
  - erewrite bind_Ok by (apply Vector_op_index_Ok; [exact Hv | simpl; lia]).
    unfold ptr_add, load. simpl.
    erewrite slot_at_middle with (l1 := Live <$> ys') (x := Raw); [reflexivity | exact Hb' |].
    solve_length.
Qed.
End CopyAssignShrink.

(** ** The theorems above at sample states *)

Lemma ctor_size_value_initialises_witness :
  exists s',
    Vector.ctor_size (P := Sample.lp64) 1%nat 2 Sample.v123 = Ok tt s' /\
    contents s' 1%nat = Some [Sample.Obj 0; Sample.Obj 0] /\
    Vector.Size 1%nat s' = Ok 2 s' /\
    Vector.Capacity 1%nat s' = Ok 2 s' /\
    (2 = 0 -> heap s' = heap Sample.v123).
Proof.
  refine (ctor_size_value_initialises (P := Sample.lp64) 1%nat 2 Sample.v123 _ _ _);
    [lia | reflexivity | intros _; reflexivity].
Defined.


Lemma ctor_copy_independent_witness :
  exists s',
    Vector.ctor_copy 1%nat 0%nat Sample.v123 = Ok tt s' /\
    contents s' 1%nat = Some [Sample.Obj 1; Sample.Obj 2; Sample.Obj 3] /\
    Vector.Capacity 1%nat s' = Ok 3 s' /\
    contents s' 0%nat = Some [Sample.Obj 1; Sample.Obj 2; Sample.Obj 3] /\
    Vector.Capacity 0%nat s' = Ok 4 s' /\
    disjoint_buffers s' 1%nat 0%nat = true.
Proof.
  apply (ctor_copy_independent 1%nat 0%nat Sample.v123
           [Sample.Obj 1; Sample.Obj 2; Sample.Obj 3] 4);
    [reflexivity | reflexivity | lia].
Defined.

Lemma copy_then_destroy_restores_witness :
  (Vector.ctor_copy 1%nat 0%nat;; Vector.dtor 1%nat) Sample.v123 = Ok tt Sample.v123.
Proof.
  apply (copy_then_destroy_restores 1%nat 0%nat Sample.v123
           [Sample.Obj 1; Sample.Obj 2; Sample.Obj 3]);
    reflexivity.
Defined.

Lemma ctor_move_empties_source_witness :
  exists s',
    Vector.ctor_move 1%nat 0%nat Sample.v123 = Ok tt s' /\
    contents s' 1%nat = Some [Sample.Obj 1; Sample.Obj 2; Sample.Obj 3] /\
    Vector.Capacity 1%nat s' = Ok 4 s' /\
    Vector.begin 1%nat s' = Ok (Ptr (Some 2%nat) 0) s' /\
    contents s' 0%nat = Some [] /\
    Vector.Capacity 0%nat s' = Ok 0 s' /\
    Vector.begin 0%nat s' = Ok nullptr s' /\
    heap s' = heap Sample.v123.
Proof.
  apply (ctor_move_empties_source 1%nat 0%nat Sample.v123
           [Sample.Obj 1; Sample.Obj 2; Sample.Obj 3] 4 (Ptr (Some 2%nat) 0));
    [reflexivity | reflexivity | reflexivity | lia].
Defined.

Lemma move_then_destroy_both_witness :
  (Vector.ctor_move 1%nat 0%nat;; Vector.dtor 0%nat;; Vector.dtor 1%nat) Sample.v123 =
  Vector.dtor 0%nat Sample.v123.
Proof.
  apply (move_then_destroy_both 1%nat 0%nat Sample.v123
           [Sample.Obj 1; Sample.Obj 2; Sample.Obj 3]);
    reflexivity.
Defined.

Lemma index_reads_element_witness :
  (let* p := Vector.op_index 0%nat 1 in load p) Sample.v123 = Ok (Sample.Obj 2) Sample.v123 /\
  Vector.op_index 0%nat 3 Sample.v123 = Fault.
Proof.
  split.
  - apply (index_reads_element 0%nat Sample.v123
             [Sample.Obj 1; Sample.Obj 2; Sample.Obj 3] 1); [reflexivity | lia | reflexivity].
  - apply (index_reads_element 0%nat Sample.v123
             [Sample.Obj 1; Sample.Obj 2; Sample.Obj 3] 3); [reflexivity | lia | simpl; lia].
Defined.

Lemma end_minus_begin_is_size_witness :
  exists first last,
    Vector.begin 0%nat Sample.v123 = Ok first Sample.v123 /\
    Vector.end_ 0%nat Sample.v123 = Ok last Sample.v123 /\
    ptr_diff last first Sample.v123 = Ok 3 Sample.v123 /\
    (ptr_eqb first last = true <-> [Sample.Obj 1; Sample.Obj 2; Sample.Obj 3] = []).
Proof.
  apply (end_minus_begin_is_size 0%nat Sample.v123
           [Sample.Obj 1; Sample.Obj 2; Sample.Obj 3]).
  reflexivity.
Defined.

Lemma Erase_removes_element_witness :
  exists s',
    Vector.Erase 0%nat (Ptr (Some 2%nat) 1) Sample.v123 = Ok (Ptr (Some 2%nat) 1) s' /\
    contents s' 0%nat = Some [Sample.Obj 1; Sample.Obj 3] /\
    Vector.Size 0%nat s' = Ok 2 s' /\
    Vector.begin 0%nat s' = Ok (Ptr (Some 2%nat) 0) s' /\
    (forall that, that <> 0%nat -> objs s' !! that = objs Sample.v123 !! that).
Proof.
  apply (Erase_removes_element 0%nat Sample.v123
           [Sample.Obj 1; Sample.Obj 2; Sample.Obj 3] 1%nat (Ptr (Some 2%nat) 0));
    [reflexivity | simpl; lia | reflexivity].
Defined.

Lemma Erase_at_end_faults_witness :
  Vector.Erase 0%nat (Ptr (Some 2%nat) 3) Sample.v123 = Fault.
Proof.
  apply (Erase_at_end_faults 0%nat Sample.v123
           [Sample.Obj 1; Sample.Obj 2; Sample.Obj 3] (Ptr (Some 2%nat) 3));
    reflexivity.
Defined.

Lemma PopBack_removes_last_witness :
  exists s',
    Vector.PopBack 0%nat Sample.v123 = Ok tt s' /\
    contents s' 0%nat = Some [Sample.Obj 1; Sample.Obj 2] /\
    Vector.Size 0%nat s' = Ok 2 s' /\
    Vector.begin 0%nat s' = Ok (Ptr (Some 2%nat) 0) s' /\
    (forall that, that <> 0%nat -> objs s' !! that = objs Sample.v123 !! that).
Proof.
  apply (PopBack_removes_last 0%nat Sample.v123
           [Sample.Obj 1; Sample.Obj 2] (Sample.Obj 3) (Ptr (Some 2%nat) 0));
    reflexivity.
Defined.

Lemma PopBack_empty_faults_witness :
  Vector.PopBack 0%nat Sample.v_empty = Fault.
Proof. apply (PopBack_empty_faults 0%nat Sample.v_empty). reflexivity. Defined.

Lemma Resize_grow_value_initialises_witness :
  exists s',
    Vector.Resize (P := Sample.lp64) 0%nat 6 Sample.v123 = Ok tt s' /\
    contents s' 0%nat =
      Some [Sample.Obj 1; Sample.Obj 2; Sample.Obj 3; Sample.Obj 0; Sample.Obj 0; Sample.Obj 0] /\
    Vector.Size 0%nat s' = Ok 6 s' /\
    Vector.Capacity 0%nat s' = Ok 6 s'.
Proof.
  refine (Resize_grow_value_initialises (P := Sample.lp64) 0%nat Sample.v123
            [Sample.Obj 1; Sample.Obj 2; Sample.Obj 3] 4 6 _ _ _ _);
    [reflexivity | reflexivity | simpl; lia | intros _; split; reflexivity].
Defined.

Lemma append_throw_any_capacity_witness :
  Vector.EmplaceBack 0%nat Sample.Throwing Sample.v123 = Throw Sample.v123 /\
  Vector.PushBack 0%nat Sample.Throwing Sample.v123 = Throw Sample.v123.
Proof.
  apply (append_throw_any_capacity 0%nat Sample.Throwing Sample.v123
           [Sample.Obj 1; Sample.Obj 2; Sample.Obj 3]);
    [reflexivity | simpl; lia | reflexivity].
Defined.

Lemma Emplace_throw_leaves_state_witness :
  Vector.Emplace 0%nat (Ptr (Some 1%nat) 1) Sample.Throwing Sample.v12_full =
    Throw Sample.v12_full /\
  Vector.Insert 0%nat (Ptr (Some 1%nat) 1) Sample.Throwing Sample.v12_full =
    Throw Sample.v12_full.
Proof.
  apply (Emplace_throw_leaves_state 0%nat Sample.Throwing Sample.v12_full
           [Sample.Obj 1; Sample.Obj 2] 1%nat (Ptr (Some 1%nat) 0));
    [reflexivity | simpl; lia | simpl; lia | reflexivity | reflexivity].
Defined.

Lemma Emplace_at_end_is_EmplaceBack_witness :
  exists p s',
    Vector.EmplaceBack 0%nat (Sample.Value 9) Sample.v123 = Ok p s' /\
    Vector.Emplace 0%nat (Ptr (Some 2%nat) 3) (Sample.Value 9) Sample.v123 = Ok p s' /\
    (let* q := Vector.op_index 0%nat 3 in load q) s' = Ok (Sample.Obj 9) s'.
Proof.
  apply (Emplace_at_end_is_EmplaceBack 0%nat (Sample.Value 9) Sample.v123
           [Sample.Obj 1; Sample.Obj 2; Sample.Obj 3] (Sample.Obj 9) (Ptr (Some 2%nat) 3));
    [reflexivity | reflexivity | simpl; lia | reflexivity].
Defined.

Lemma appends_within_capacity_keep_buffer_witness :
  exists s',
    push_all 0%nat [Sample.Value 4] Sample.v123 = Ok tt s' /\
    contents s' 0%nat = Some [Sample.Obj 1; Sample.Obj 2; Sample.Obj 3; Sample.Obj 4] /\
    Vector.Capacity 0%nat s' = Ok 4 s' /\
    Vector.begin 0%nat s' = Ok (Ptr (Some 2%nat) 0) s'.
Proof.
  apply (appends_within_capacity_keep_buffer 0%nat [Sample.Value 4] Sample.v123
           [Sample.Obj 1; Sample.Obj 2; Sample.Obj 3] [Sample.Obj 4] 4 (Ptr (Some 2%nat) 0));
    [reflexivity | reflexivity | reflexivity | reflexivity | simpl; lia].
Defined.

Lemma PushBack_then_PopBack_witness :
  exists s',
    (Vector.PushBack 0%nat (Sample.Value 3);; Vector.PopBack 0%nat) Sample.v12_full = Ok tt s' /\
    contents s' 0%nat = Some [Sample.Obj 1; Sample.Obj 2] /\
    Vector.Size 0%nat s' = Ok 2 s'.
Proof.
  apply (PushBack_then_PopBack 0%nat (Sample.Value 3) (Sample.Obj 3) Sample.v12_full
           [Sample.Obj 1; Sample.Obj 2]);
    [reflexivity | reflexivity | simpl; lia].
Defined.

Lemma Swap_twice_is_identity_witness :
  (Vector.Swap 0%nat 1%nat;; Vector.Swap 0%nat 1%nat) Sample.v123_v78 = Ok tt Sample.v123_v78.
Proof.
  apply (Swap_twice_is_identity 0%nat 1%nat Sample.v123_v78
           (MkVector (MkRawMemory (Ptr (Some 2%nat) 0) 4) 3)
           (MkVector (MkRawMemory (Ptr (Some 5%nat) 0) 2) 2));
    reflexivity.
Defined.

Lemma copy_assignment_from_longer_witness :
  exists s',
    Vector.op_assign 1%nat 0%nat Sample.v123_v78 = Ok tt s' /\
    contents s' 1%nat = Some [Sample.Obj 1; Sample.Obj 2; Sample.Obj 3] /\
    contents s' 0%nat = Some [Sample.Obj 1; Sample.Obj 2; Sample.Obj 3] /\
    Vector.Capacity 1%nat s' = Ok 3 s'.
Proof.
  apply (copy_assignment_from_longer 1%nat 0%nat Sample.v123_v78
           [Sample.Obj 7; Sample.Obj 8] [Sample.Obj 1; Sample.Obj 2; Sample.Obj 3] 2);
    [reflexivity | reflexivity | reflexivity | lia | reflexivity | simpl; lia].
Defined.

Lemma Emplace_within_capacity_keeps_buffer_witness :
  exists s',
    Vector.Emplace 0%nat (Ptr (Some 2%nat) 1) (Sample.Value 9) Sample.v123 =
      Ok (Ptr (Some 2%nat) 1) s' /\
    contents s' 0%nat = Some [Sample.Obj 1; Sample.Obj 9; Sample.Obj 2; Sample.Obj 3] /\
    Vector.Capacity 0%nat s' = Ok 4 s' /\
    Vector.begin 0%nat s' = Ok (Ptr (Some 2%nat) 0) s' /\
    load (Ptr (Some 2%nat) 1) s' = Ok (Sample.Obj 9) s'.
Proof.
  apply (Emplace_within_capacity_keeps_buffer 0%nat (Sample.Value 9) (Sample.Obj 9) Sample.v123
           [Sample.Obj 1; Sample.Obj 2; Sample.Obj 3] 4 1%nat (Ptr (Some 2%nat) 0));
    [reflexivity | reflexivity | simpl; lia | simpl; lia | reflexivity | reflexivity].
Defined.

Lemma Resize_shrink_then_dtor_faults_witness :
  exists s',
    Vector.Resize 0%nat 1 Sample.v123 = Ok tt s' /\
    Vector.Size 0%nat s' = Ok 1 s' /\
    contents s' 0%nat = None /\
    Vector.dtor 0%nat s' = Fault.
Proof.
  apply (Resize_shrink_then_dtor_faults 0%nat Sample.v123
           [Sample.Obj 1; Sample.Obj 2; Sample.Obj 3] 1);
    [reflexivity | simpl; lia].
Defined.

Lemma copy_assignment_shrink_destroys_last_witness :
  exists s',
    Vector.op_assign 0%nat 1%nat Sample.v123_v78 = Ok tt s' /\
    Vector.Size 0%nat s' = Ok 2 s' /\
    contents s' 0%nat = None /\
    (let* p := Vector.op_index 0%nat (2 - 1) in load p) s' = Fault.
Proof.
  apply (copy_assignment_shrink_destroys_last 0%nat 1%nat Sample.v123_v78
           [Sample.Obj 1; Sample.Obj 2; Sample.Obj 3] [Sample.Obj 7; Sample.Obj 8]);
    [reflexivity | reflexivity | simpl; lia | lia | reflexivity].
Defined.
